(** * The Superstore dashboard pipeline: load, clean, filter, aggregate, export

    A shallow embedding of [app.py].  The script is a straight-line pandas
    program; its tables are modelled as data frames of dynamically typed
    cells, its library calls by functions that follow the pandas and Python
    behaviour the script relies on, and its one in-place update (the
    [Month] column) by an explicit store of frames.

    Conventions of the model:
    - a Python [str] is a [string] whose characters are code points below
      256: every text of the program is either decoded from ISO-8859-1 or
      produced by formatting, so no other code point can occur;
    - [bytes] are [list byte];
    - numbers are exact rationals ([Q]); the rounding of binary floating
      point is not modelled;
    - the row labels (the pandas index) are not modelled, rows are
      positional. *)

From Stdlib Require Import Strings.Byte Ascii String QArith Lqa OrderedTypeEx.
From stdpp Require Import base option list strings gmap numbers sorting pretty.

Local Open Scope list_scope.
Local Open Scope nat_scope.

#[local] Set Warnings "-clear-no-such-hyp".

(** ** Python text *)

Module Py.

Definition chr (n : nat) : ascii := ascii_of_nat n.
Definition ord (c : ascii) : nat := nat_of_ascii c.

Definition text (l : list ascii) : string := string_of_list_ascii l.
Definition chars (s : string) : list ascii := list_ascii_of_string s.

(** [str.isspace] on the code points below 256. *)
Definition isspace (c : ascii) : bool :=
  let n := ord c in
  ((9 <=? n) && (n <=? 13)) || ((28 <=? n) && (n <=? 32))
  || (n =? 133) || (n =? 160).

Fixpoint lstrip (l : list ascii) : list ascii :=
  match l with
  | c :: l' => if isspace c then lstrip l' else l
  | [] => []
  end.

Definition rstrip (l : list ascii) : list ascii := rev (lstrip (rev l)).

(** [s.strip()] *)
Definition strip (s : string) : string := text (rstrip (lstrip (chars s))).

(** [s.replace(old, new)] for a one-character [old]. *)
Definition replace (old : ascii) (new : list ascii) (s : string) : string :=
  text (mbind (M := list) (fun c => if decide (c = old) then new else [c]) (chars s)).

(** [s.encode('utf-8')] on code points below 256: one byte below 128,
    two bytes from 128 on. *)
Definition utf8_char (c : ascii) : list byte :=
  let n := ord c in
  if n <? 128 then [byte_of_ascii c]
  else [byte_of_ascii (chr (192 + n / 64)); byte_of_ascii (chr (128 + n mod 64))].

Definition encode_utf8 (l : list ascii) : list byte := mbind (M := list) utf8_char l.

(** [b.decode('ISO-8859-1')]: every byte is the code point of one
    character. *)
Definition decode_latin1 (b : list byte) : list ascii := ascii_of_byte <$> b.

Definition isascii (c : ascii) : bool := ord c <? 128.

End Py.

(** ** Cells and data frames *)

Record date := mkDate { year : nat; month : nat; day : nat }.

(** A cell of a frame.  [NaN] is the missing value of every column kind
    (pandas [NaN], [NaT] and [None]). *)
Inductive cell :=
| NaN
| Str (s : string)
| Num (q : Q)
| Date (d : date).

#[global] Instance Q_eq_dec : EqDecision Q.
Proof. solve_decision. Defined.
#[global] Instance date_eq_dec : EqDecision date.
Proof. solve_decision. Defined.
#[global] Instance cell_eq_dec : EqDecision cell.
Proof. solve_decision. Defined.
#[global] Instance cell_inhabited : Inhabited cell := populate NaN.

Definition isna (c : cell) : bool :=
  match c with NaN => true | _ => false end.

Definition Series := list cell.

Record DataFrame := mkFrame { columns : list string; rows : list (list cell) }.

#[global] Instance DataFrame_eq_dec : EqDecision DataFrame.
Proof. solve_decision. Defined.

(** Positions of a column label, counted from [i]. *)
Fixpoint positions (name : string) (cols : list string) (i : nat) : list nat :=
  match cols with
  | [] => []
  | c :: cs =>
      if decide (c = name) then i :: positions name cs (S i)
      else positions name cs (S i)
  end.

(** [Index.get_loc]: the position of a label.  A missing label is a
    [KeyError]; a label that occurs more than once selects several columns,
    which none of the script's uses supports: both are [None]. *)
Definition get_loc (name : string) (cols : list string) : option nat :=
  match positions name cols 0 with
  | [i] => Some i
  | _ => None
  end.

(** [df[name]] *)
Definition getitem (df : DataFrame) (name : string) : option Series :=
  i ← get_loc name (columns df);
  Some ((fun r => r !!! i) <$> rows df).

(** The cell of a row under a column label. *)
Definition at_col (df : DataFrame) (name : string) (r : list cell) : option cell :=
  i ← get_loc name (columns df); Some (r !!! i).

(** [df[name] = s]: replaces every column of that label when there is
    one, appends a new last column otherwise.  A series of the wrong
    length is a [ValueError]. *)
Definition setitem (df : DataFrame) (name : string) (s : Series) : option DataFrame :=
  if decide (length s = length (rows df)) then
    match positions name (columns df) 0 with
    | [] => Some (mkFrame (columns df ++ [name])
                          (zip_with (fun r c => r ++ [c]) (rows df) s))
    | ps => Some (mkFrame (columns df)
                          (zip_with (fun r c => foldr (fun i r' => <[i:=c]> r') r ps)
                                    (rows df) s))
    end
  else None.

(** Selection by a boolean mask, [df[mask]] on the rows. *)
Fixpoint select {A} (mask : list bool) (l : list A) : list A :=
  match mask, l with
  | b :: mask', x :: l' => if b then x :: select mask' l' else select mask' l'
  | _, _ => []
  end.

Definition getitem_mask (df : DataFrame) (mask : list bool) : DataFrame :=
  mkFrame (columns df) (select mask (rows df)).

(** [df.drop(columns=[name], errors='ignore')] *)
Definition drop_column (name : string) (df : DataFrame) : DataFrame :=
  let keep := (fun c => bool_decide (c ≠ name)) <$> columns df in
  mkFrame (select keep (columns df)) (select keep <$> rows df).

(** [df.dropna(subset=names)]: a missing label is a [KeyError]. *)
Definition dropna (names : list string) (df : DataFrame) : option DataFrame :=
  idx ← mapM (fun n => get_loc n (columns df)) names;
  Some (getitem_mask df
          ((fun r => forallb (fun i => negb (isna (r !!! i))) idx) <$> rows df)).

(** [s.isin(values)] *)
Definition isin (s : Series) (values : list cell) : list bool :=
  (fun c => bool_decide (c ∈ values)) <$> s.

(** [s.unique()]: the distinct values in order of first appearance. *)
Fixpoint unique {A} `{EqDecision A} (s : list A) : list A :=
  match s with
  | [] => []
  | c :: s' => c :: List.filter (fun c' => bool_decide (c' ≠ c)) (unique s')
  end.

(** ** Sorting *)

Section Sort.
Context {A : Type} (leb : A → A → bool).

Fixpoint insert_sorted (x : A) (l : list A) : list A :=
  match l with
  | [] => [x]
  | y :: l' => if leb x y then x :: l else y :: insert_sorted x l'
  end.

(** A stable ascending sort: an element goes before the elements that
    are not smaller and that followed it in the input. *)
Fixpoint stable_sort (l : list A) : list A :=
  match l with
  | [] => []
  | x :: l' => insert_sorted x (stable_sort l')
  end.
End Sort.

(** Python's [sorted] on a list of values.  Texts compare by code point;
    a list holding anything but texts is a [TypeError] (text against a
    missing value) or a case the script cannot reach: [None]. *)
Definition text_of (c : cell) : option string :=
  match c with Str t => Some t | _ => None end.

Definition sorted (l : list cell) : option (list cell) :=
  texts ← mapM text_of l;
  Some (Str <$> stable_sort String.leb texts).

(** ** Reading and writing delimited text *)

Module Csv.
Import Py.

Definition comma : ascii := chr 44.
Definition quote : ascii := chr 34.
Definition LF : ascii := chr 10.
Definition CR : ascii := chr 13.
Definition space : ascii := chr 32.
Definition tab : ascii := chr 9.

(** The states of the pandas tokenizer that the default dialect of
    [read_csv] can reach (no escape character, no comment character). *)
Inductive state :=
| START_RECORD | START_FIELD | IN_FIELD | IN_QUOTED_FIELD
| QUOTE_IN_QUOTED_FIELD | EAT_CRNL | EAT_CRNL_NOP | WHITESPACE_LINE.

(** The buffers of the tokenizer, each most recent first: the
    characters of the open field, the fields of the open line, the
    finished lines. *)
Record parser := mkParser {
  word : list ascii;
  line : list string;
  lines : list (list string)
}.

Definition push_char (c : ascii) (p : parser) : parser :=
  mkParser (c :: word p) (line p) (lines p).
Definition end_field (p : parser) : parser :=
  mkParser [] (text (rev (word p)) :: line p) (lines p).
Definition end_line (p : parser) : parser :=
  mkParser (word p) [] (rev (line p) :: lines p).

(** Whether the rest of a line holds blanks only ([skip_blank_lines]
    also skips such lines). *)
Fixpoint blank_rest (l : list ascii) : bool :=
  match l with
  | [] => true
  | c :: l' =>
      if decide (c = LF ∨ c = CR) then true
      else if decide (c = space ∨ c = tab) then blank_rest l'
      else false
  end.

Definition start_field (c : ascii) (p : parser) : state * parser :=
  if decide (c = LF) then (START_RECORD, end_line (end_field p))
  else if decide (c = CR) then (EAT_CRNL, end_field p)
  else if decide (c = quote) then (IN_QUOTED_FIELD, p)
  else if decide (c = comma) then (START_FIELD, end_field p)
  else (IN_FIELD, push_char c p).

Definition start_record (c : ascii) (rest : list ascii) (p : parser)
  : state * parser :=
  if decide (c = LF) then (START_RECORD, p)
  else if decide (c = CR) then (EAT_CRNL_NOP, p)
  else if decide (c = space ∨ c = tab) then
    if blank_rest rest then (WHITESPACE_LINE, p) else start_field c p
  else start_field c p.

(** One character of input; [rest] is the input after it. *)
Definition step (st : state) (c : ascii) (rest : list ascii) (p : parser)
  : state * parser :=
  match st with
  | START_RECORD => start_record c rest p
  | START_FIELD => start_field c p
  | IN_FIELD =>
      if decide (c = LF) then (START_RECORD, end_line (end_field p))
      else if decide (c = CR) then (EAT_CRNL, end_field p)
      else if decide (c = comma) then (START_FIELD, end_field p)
      else (IN_FIELD, push_char c p)
  | IN_QUOTED_FIELD =>
      if decide (c = quote) then (QUOTE_IN_QUOTED_FIELD, p)
      else (IN_QUOTED_FIELD, push_char c p)
  | QUOTE_IN_QUOTED_FIELD =>
      if decide (c = quote) then (IN_QUOTED_FIELD, push_char c p)
      else if decide (c = comma) then (START_FIELD, end_field p)
      else if decide (c = LF) then (START_RECORD, end_line (end_field p))
      else if decide (c = CR) then (EAT_CRNL, end_field p)
      else (IN_FIELD, push_char c p)
  | EAT_CRNL =>
      if decide (c = LF) then (START_RECORD, end_line p)
      else if decide (c = comma) then (START_FIELD, end_field (end_line p))
      else start_record c rest (end_line p)
  | EAT_CRNL_NOP =>
      if decide (c = LF ∨ c = CR) then (START_RECORD, p)
      else start_record c rest p
  | WHITESPACE_LINE =>
      if decide (c = LF) then (START_RECORD, p)
      else if decide (c = CR) then (EAT_CRNL_NOP, p)
      else (WHITESPACE_LINE, p)
  end.

(** At the end of the input an open field and line are closed; the end
    of the input inside a quoted field is a [ParserError]. *)
Definition handle_eof (st : state) (p : parser) : option parser :=
  match st with
  | START_RECORD | WHITESPACE_LINE | EAT_CRNL_NOP => Some p
  | IN_QUOTED_FIELD => None
  | START_FIELD | IN_FIELD | QUOTE_IN_QUOTED_FIELD =>
      Some (end_line (end_field p))
  | EAT_CRNL => Some (end_line p)
  end.

Fixpoint tokenize_from (st : state) (p : parser) (input : list ascii)
  : option parser :=
  match input with
  | [] => handle_eof st p
  | c :: rest => let '(st', p') := step st c rest p in tokenize_from st' p' rest
  end.

Definition tokenize (input : list ascii) : option (list (list string)) :=
  p ← tokenize_from START_RECORD (mkParser [] [] []) input;
  Some (rev (lines p)).

(** The texts [read_csv] reads as a missing value. *)
Definition na_values : list string :=
  [ ""; "#N/A"; "#N/A N/A"; "#NA"; "-1.#IND"; "-1.#QNAN"; "-NaN"; "-nan";
    "1.#IND"; "1.#QNAN"; "<NA>"; "N/A"; "NA"; "NULL"; "NaN"; "None";
    "n/a"; "nan"; "null" ]%string.

Definition convert (f : string) : cell :=
  if decide (f ∈ na_values) then NaN else Str f.

(** A data line shorter than the header is filled with missing values. *)
Definition pad (n : nat) (r : list cell) : list cell :=
  r ++ replicate (n - length r) NaN.

(** A header field left empty is labelled by its position. *)
Definition header_label (i : nat) (f : string) : string :=
  if decide (f = ""%string) then ("Unnamed: " ++ pretty i)%string else f.

(** [pd.read_csv(path, encoding='ISO-8859-1')] on the bytes of the file:
    the first line that is not blank is the header, the other lines are
    the rows.  No input line at all is an [EmptyDataError] and a data
    line longer than the header a [ParserError] (or an implicit index,
    which is not modelled): [None].  Two things [read_csv] does are left
    out: it renames a repeated header label ([x], [x.1], ...), so the
    model is exact for headers of distinct labels; and it infers column
    types, here every cell read is a text or missing, and only the
    columns that [load_data] coerces get another kind. *)
Definition read_csv (b : list byte) : option DataFrame :=
  ls ← tokenize (decode_latin1 b);
  match ls with
  | [] => None
  | header :: data =>
      let n := length header in
      if forallb (fun l => length l <=? n) data then
        Some (mkFrame (imap header_label header)
                      ((fun l => pad n (convert <$> l)) <$> data))
      else None
  end.

(** The writer of Python's [csv] module with [QUOTE_MINIMAL] and the
    line terminator [\n]: a field is quoted when it holds the delimiter,
    the quote character or a character of the line terminator, and a
    quote inside it is doubled. *)
Definition needs_quote (f : list ascii) : bool :=
  existsb (fun c => bool_decide (c = comma ∨ c = quote ∨ c = LF)) f.

(** A field as it stands inside quotes: every quote doubled. *)
Definition escaped (f : list ascii) : list ascii :=
  mbind (M := list) (fun c => if decide (c = quote) then [quote; quote] else [c]) f.

Definition write_field (f : list ascii) : list ascii :=
  if needs_quote f then quote :: escaped f ++ [quote] else f.

Fixpoint join_fields (fs : list (list ascii)) : list ascii :=
  match fs with
  | [] => []
  | [f] => write_field f
  | f :: fs' => write_field f ++ comma :: join_fields fs'
  end.

(** A line of one empty field is written as a pair of quotes. *)
Definition write_row (fs : list (list ascii)) : list ascii :=
  match fs with
  | [[]] => [quote; quote; LF]
  | _ => join_fields fs ++ [LF]
  end.

(** The buffers after the characters [f] were pushed. *)
Definition pushed (f : list ascii) (p : parser) : parser :=
  mkParser (rev f ++ word p) (line p) (lines p).

Definition digit (n : nat) : ascii := chr (48 + n mod 10).

(** A date without time of day is written [YYYY-MM-DD]. *)
Definition format_date (d : date) : list ascii :=
  [ digit (year d / 1000); digit (year d / 100); digit (year d / 10);
    digit (year d); chr 45; digit (month d / 10); digit (month d);
    chr 45; digit (day d / 10); digit (day d) ].

End Csv.

(** ** Coercions and the loader *)

(** The columns [load_data] requires to be present in a retained row. *)
Definition critical : list string :=
  [ "Sales"; "Profit"; "Region"; "Segment"; "Category"; "SubCategory";
    "CustomerName" ]%string.

(** The label of the stray column that [load_data] drops, as the code
    points of the literal in the source. *)
Definition stray_column : string :=
  Py.text (Py.chr <$> [232; 174; 176; 229; 189; 147; 230; 149; 176]).

(** [.str.strip().str.replace(' ', '_').str.replace('.', '', regex=False)] *)
Definition clean_label (s : string) : string :=
  Py.replace (Py.chr 46) [] (Py.replace (Py.chr 32) [Py.chr 95] (Py.strip s)).

Section Pandas.

(** The parsers of pandas are taken as they are: [parse_dates] reads a
    whole column of texts (the format may be inferred from the column),
    [parse_number] reads one text, and both answer [None] for a text
    they cannot read.  [float_repr] is the text [to_csv] writes for a
    number. *)
Variable parse_dates : list (option string) → list (option date).
Variable parse_number : string → option Q.
Variable float_repr : Q → string.

(** [pd.to_datetime(s, errors='coerce')].  A cell that is a date already
    is kept; only texts and missing values reach this function. *)
Definition to_datetime (s : Series) : Series :=
  zip_with
    (fun c p => match c with Date d => Date d | _ => from_option Date NaN p end)
    s (parse_dates (text_of <$> s)).

(** [pd.to_numeric(s, errors='coerce')] *)
Definition to_numeric (s : Series) : Series :=
  (fun c => match c with
            | Str t => from_option Num NaN (parse_number t)
            | Num q => Num q
            | _ => NaN
            end) <$> s.

(** [load_data] up to the coercions, before the rows with missing values
    are dropped. *)
Definition coerced (file : list byte) : option DataFrame :=
  df ← Csv.read_csv file;
  let df := mkFrame (clean_label <$> columns df) (rows df) in
  let df := drop_column stray_column df in
  s ← getitem df "OrderDate"; df ← setitem df "OrderDate" (to_datetime s);
  s ← getitem df "ShipDate"; df ← setitem df "ShipDate" (to_datetime s);
  s ← getitem df "Sales"; df ← setitem df "Sales" (to_numeric s);
  s ← getitem df "Profit"; setitem df "Profit" (to_numeric s).

Definition load_data (file : list byte) : option DataFrame :=
  df ← coerced file; dropna critical df.

(** [df.to_csv(index=False)]: the header line, then a line per row; a
    missing value is written as the empty field. *)
Definition format_cell (c : cell) : list ascii :=
  match c with
  | NaN => []
  | Str t => Py.chars t
  | Num q => Py.chars (float_repr q)
  | Date d => Csv.format_date d
  end.

Definition to_csv (df : DataFrame) : list ascii :=
  Csv.write_row (Py.chars <$> columns df)
    ++ mbind (M := list) (fun r => Csv.write_row (format_cell <$> r)) (rows df).

End Pandas.

(** ** Filtering *)

Record selection := mkSelection {
  regions : list cell;
  categories : list cell;
  subcategories : list cell
}.

(** The options of the three selectors, which are also their defaults:
    [sorted(df[name].unique())]. *)
Definition options (df : DataFrame) : option selection :=
  r ← getitem df "Region" ≫= (sorted ∘ unique);
  c ← getitem df "Category" ≫= (sorted ∘ unique);
  s ← getitem df "SubCategory" ≫= (sorted ∘ unique);
  Some (mkSelection r c s).

(** [df[df['Region'].isin(..) & df['Category'].isin(..) & df['SubCategory'].isin(..)]] *)
Definition filter_frame (df : DataFrame) (sel : selection) : option DataFrame :=
  r ← getitem df "Region";
  c ← getitem df "Category";
  s ← getitem df "SubCategory";
  Some (getitem_mask df
          (zip_with andb
             (zip_with andb (isin r (regions sel)) (isin c (categories sel)))
             (isin s (subcategories sel)))).

(** ** Aggregations *)

(** The values of a numeric column: a number, or missing. *)
Definition as_number (c : cell) : option (option Q) :=
  match c with NaN => Some None | Num q => Some (Some q) | _ => None end.

(** The values of a text column: a text, or missing. *)
Definition as_text (c : cell) : option (option string) :=
  match c with NaN => Some None | Str t => Some (Some t) | _ => None end.

Definition Qsum (l : list Q) : Q := foldl Qplus 0%Q l.

(** [s.sum()]: missing values are skipped and the empty sum is zero.  A
    column that is not numeric is outside the model. *)
Definition sum_series (s : Series) : option Q :=
  vs ← mapM as_number s; Some (Qsum (omap id vs)).

(** [s.nunique()]: the number of distinct values that are not missing. *)
Definition nunique (s : Series) : nat :=
  length (unique (List.filter (fun c => negb (isna c)) s)).

(** The keys of [groupby]: the distinct keys that are not missing, in
    ascending order ([sort=True], [dropna=True]). *)
Definition group_keys (ks : list (option string)) : list string :=
  stable_sort String.leb (unique (omap id ks)).

(** The values of the rows of one group, in row order, missing values
    skipped. *)
Definition group_values (k : string) (ks : list (option string))
    (vs : list (option Q)) : list Q :=
  omap id (select ((fun k' => bool_decide (k' = Some k)) <$> ks) vs).

(** [df.groupby(key)[col].sum()] *)
Definition groupby_sum (df : DataFrame) (key col : string)
  : option (list (string * Q)) :=
  ks ← getitem df key ≫= mapM as_text;
  vs ← getitem df col ≫= mapM as_number;
  Some ((fun k => (k, Qsum (group_values k ks vs))) <$> group_keys ks).

(** [.sort_values(ascending=False)]: pandas reverses the values, sorts
    them in ascending order and reverses the outcome.  The ascending sort
    is taken to be stable, as the sort of numpy is on a short array; on a
    long array the order among equal values is the sort's own. *)
Definition sort_values_desc (l : list (string * Q)) : list (string * Q) :=
  rev (stable_sort (fun a b => Qle_bool a.2 b.2) (rev l)).

Definition top_customers (df : DataFrame) : option (list (string * Q)) :=
  g ← groupby_sum df "CustomerName" "Sales";
  Some (take 5 (sort_values_desc g)).

Definition segment_sales (df : DataFrame) : option (list (string * Q)) :=
  groupby_sum df "Segment" "Sales".

Definition region_sales (df : DataFrame) : option (list (string * Q)) :=
  sort_values_desc <$> groupby_sum df "Region" "Sales".

Definition category_sales (df : DataFrame) : option (list (string * Q)) :=
  sort_values_desc <$> groupby_sum df "Category" "Sales".

Definition subcategory_profit (df : DataFrame) : option (list (string * Q)) :=
  g ← groupby_sum df "SubCategory" "Profit";
  Some (take 10 (sort_values_desc g)).

(** The text of a monthly period, [YYYY-MM]. *)
Definition period_str (d : date) : string :=
  Py.text [ Csv.digit (year d / 1000); Csv.digit (year d / 100);
            Csv.digit (year d / 10); Csv.digit (year d); Py.chr 45;
            Csv.digit (month d / 10); Csv.digit (month d) ].

(** [s.dt.to_period('M').astype(str)]: the accessor [.dt] exists on a
    column of dates only; the missing date becomes the text [NaT]. *)
Definition month_cell (c : cell) : option cell :=
  match c with
  | Date d => Some (Str (period_str d))
  | NaN => Some (Str "NaT")
  | _ => None
  end.

Definition month_series (s : Series) : option Series := mapM month_cell s.

(** [df.groupby('Month')[['Sales', 'Profit']].sum().reset_index()] *)
Definition monthly (df : DataFrame) : option (list (string * Q * Q)) :=
  ks ← getitem df "Month" ≫= mapM as_text;
  s ← getitem df "Sales" ≫= mapM as_number;
  p ← getitem df "Profit" ≫= mapM as_number;
  Some ((fun k => (k, Qsum (group_values k ks s), Qsum (group_values k ks p)))
          <$> group_keys ks).

(** ** The session: a store of frames *)

(** The frames of a run live in a store, addressed by identity: [df] and
    [df_filtered] name two objects, and the assignment of the [Month]
    column updates the object that [df_filtered] names. *)
Abbreviation loc := nat (only parsing).
Abbreviation store := (gmap nat DataFrame) (only parsing).

(** Computations that read and update the store and may raise. *)
Definition M (A : Type) : Type := store → option (A * store).

#[global] Instance M_ret : MRet M := fun A a σ => Some (a, σ).
#[global] Instance M_bind : MBind M := fun A B f m σ =>
  match m σ with
  | Some (a, σ') => f a σ'
  | None => None
  end.

Definition lift {A} (o : option A) : M A := fun σ => (fun a => (a, σ)) <$> o.
Definition read (l : loc) : M DataFrame := fun σ => (fun d => (d, σ)) <$> σ !! l.
Definition alloc (d : DataFrame) : M loc :=
  fun σ => let l := fresh (dom σ) in Some (l, <[l:=d]> σ).
Definition write (l : loc) (d : DataFrame) : M unit :=
  fun σ => match σ !! l with
           | Some _ => Some ((), <[l:=d]> σ)
           | None => None
           end.

(** [obj[name] = s], in place. *)
Definition setitem_inplace (l : loc) (name : string) (s : Series) : M unit :=
  d ← read l; d' ← lift (setitem d name s); write l d'.

(** What one run of the script shows. *)
Record view := mkView {
  total_sales : Q;
  total_profit : Q;
  total_orders : nat;
  v_top_customers : list (string * Q);
  v_segment_sales : list (string * Q);
  v_monthly : list (string * Q * Q);
  v_region_sales : list (string * Q);
  v_category_sales : list (string * Q);
  v_subcategory_profit : list (string * Q);
  download : list byte
}.

Section Script.
Variable float_repr : Q → string.

(** The script from the sidebar on.  [df] names the loaded table;
    [choose] is the user's answer to the three selectors, given the
    options they offer (the identity when the defaults are left). *)
Definition script (df : loc) (choose : selection → selection) : M view :=
  d ← read df;
  opts ← lift (options d);
  let sel := choose opts in
  sub ← lift (filter_frame d sel);
  df_filtered ← alloc sub;
  f ← read df_filtered;
  sales ← lift (getitem f "Sales" ≫= sum_series);
  profit ← lift (getitem f "Profit" ≫= sum_series);
  orders ← lift (nunique <$> getitem f "OrderID");
  top ← lift (top_customers f);
  seg ← lift (segment_sales f);
  m ← lift (getitem f "OrderDate" ≫= month_series);
  _ ← setitem_inplace df_filtered "Month" m;
  f ← read df_filtered;
  mon ← lift (monthly f);
  reg ← lift (region_sales f);
  cat ← lift (category_sales f);
  subc ← lift (subcategory_profit f);
  mret (mkView sales profit orders top seg mon reg cat subc
          (Py.encode_utf8 (to_csv float_repr f))).

(** A session: the script runs from the top once for every interaction
    of the user, each time on the table that the cached [load_data]
    returned. *)
Fixpoint session (df : loc) (choices : list (selection → selection))
  : M (list view) :=
  match choices with
  | [] => mret []
  | choose :: rest =>
      v ← script df choose; vs ← session df rest; mret (v :: vs)
  end.

(** [df_filtered['Month'] = df_filtered['OrderDate'].dt.to_period('M').astype(str)],
    as a function of the frame. *)
Definition with_month (sub : DataFrame) : option DataFrame :=
  m ← getitem sub "OrderDate" ≫= month_series;
  setitem sub "Month" m.

(** The frame [df_filtered] names when the download is built: the
    filtered rows with the [Month] column. *)
Definition exported (d : DataFrame) (sel : selection) : option DataFrame :=
  sub ← filter_frame d sel; with_month sub.

End Script.

(** ** Sample parsers

    Readers of plain calendar dates [YYYY-MM-DD] and of unsigned whole
    numbers, and the matching writer, to run the model on examples. *)
Module Sample.

Definition digit_val (c : ascii) : option nat :=
  let n := Py.ord c in
  if (48 <=? n) && (n <=? 57) then Some (n - 48) else None.

Definition number (l : list ascii) : option nat :=
  match l with
  | [] => None
  | _ => foldl (fun acc c => a ← acc; v ← digit_val c; Some (10 * a + v)) (Some 0) l
  end.

Definition iso_date (t : string) : option date :=
  match Py.chars t with
  | [y1; y2; y3; y4; s1; m1; m2; s2; d1; d2] =>
      if decide (s1 = Py.chr 45 ∧ s2 = Py.chr 45) then
        y ← number [y1; y2; y3; y4];
        m ← number [m1; m2];
        d ← number [d1; d2];
        Some (mkDate y m d)
      else None
  | _ => None
  end.

Definition parse_dates (l : list (option string)) : list (option date) :=
  (fun o => o ≫= iso_date) <$> l.

Definition parse_number (t : string) : option Q :=
  (fun n => inject_Z (Z.of_nat n)) <$> number (Py.chars t).

Definition float_repr (q : Q) : string := pretty (Z.to_nat (Qnum q)).

Definition bytes (t : string) : list byte := byte_of_ascii <$> Py.chars t.

Definition load : list byte → option DataFrame :=
  load_data parse_dates parse_number.

(** A small source file: the second order has two lines, one date is
    not a date, one amount is not a number and one region is missing. *)
Definition file : list byte := bytes
"Order.ID,Order.Date,Ship.Date,Sales,Profit,Region,Segment,Category,Sub.Category,Customer.Name
o1,2020-01-15,2020-01-17,100,5,East,Consumer,Tech,Phones,A
o2,2020-01-28,2020-01-30,50,2,West,Consumer,Tech,Phones,B
o1,soon,2020-02-17,30,1,East,Corporate,Office,Paper,A
o3,2020-02-15,2020-02-17,n/a,1,East,Corporate,Office,Paper,A
o4,2020-02-15,2020-02-17,7,1,,Corporate,Office,Paper,A
".

Definition row1 : list cell :=
  [ Str "o1"; Date (mkDate 2020 1 15); Date (mkDate 2020 1 17); Num 100;
    Num 5; Str "East"; Str "Consumer"; Str "Tech"; Str "Phones"; Str "A" ].
Definition row2 : list cell :=
  [ Str "o2"; Date (mkDate 2020 1 28); Date (mkDate 2020 1 30); Num 50;
    Num 2; Str "West"; Str "Consumer"; Str "Tech"; Str "Phones"; Str "B" ].
Definition row3 : list cell :=
  [ Str "o1"; NaN; Date (mkDate 2020 2 17); Num 30;
    Num 1; Str "East"; Str "Corporate"; Str "Office"; Str "Paper"; Str "A" ].

(** The table [load] makes of [file]. *)
Definition table : DataFrame :=
  mkFrame [ "OrderID"; "OrderDate"; "ShipDate"; "Sales"; "Profit"; "Region";
            "Segment"; "Category"; "SubCategory"; "CustomerName" ]%string
          [ row1; row2; row3 ].

(** A selection that keeps the records of the region East. *)
Definition east : selection :=
  mkSelection [Str "East"] [Str "Tech"; Str "Office"] [Str "Phones"; Str "Paper"].

(** The selection that keeps every record of the one-region tables
    below. *)
Definition everything : selection :=
  mkSelection [Str "East"] [Str "Tech"] [Str "Phones"].

(** One record whose customer name ends in the letter e with an acute
    accent, the byte 233 of ISO-8859-1. *)
Definition accent_file : list byte :=
  bytes "OrderID,OrderDate,ShipDate,Sales,Profit,Region,Segment,Category,SubCategory,CustomerName
o1,2020-01-15,2020-01-17,50,5,East,Consumer,Tech,Phones,Jos"
  ++ [Byte.xe9; Byte.x0a].

Definition accent_name : string := "Jos" ++ String (Py.chr 233) "".

Definition accent_table : DataFrame :=
  mkFrame [ "OrderID"; "OrderDate"; "ShipDate"; "Sales"; "Profit"; "Region";
            "Segment"; "Category"; "SubCategory"; "CustomerName" ]%string
          [ [ Str "o1"; Date (mkDate 2020 1 15); Date (mkDate 2020 1 17);
              Num 50; Num 5; Str "East"; Str "Consumer"; Str "Tech";
              Str "Phones"; Str accent_name ] ].

(** [accent_table] as it is exported: with its month column. *)
Definition accent_export : DataFrame :=
  mkFrame [ "OrderID"; "OrderDate"; "ShipDate"; "Sales"; "Profit"; "Region";
            "Segment"; "Category"; "SubCategory"; "CustomerName"; "Month" ]%string
          [ [ Str "o1"; Date (mkDate 2020 1 15); Date (mkDate 2020 1 17);
              Num 50; Num 5; Str "East"; Str "Consumer"; Str "Tech";
              Str "Phones"; Str accent_name; Str "2020-01" ] ].

(** What loading the export of [accent_export] yields: the accented
    letter has become two characters, with the codes 195 and 169. *)
Definition accent_reloaded : DataFrame :=
  mkFrame [ "OrderID"; "OrderDate"; "ShipDate"; "Sales"; "Profit"; "Region";
            "Segment"; "Category"; "SubCategory"; "CustomerName"; "Month" ]%string
          [ [ Str "o1"; Date (mkDate 2020 1 15); Date (mkDate 2020 1 17);
              Num 50; Num 5; Str "East"; Str "Consumer"; Str "Tech";
              Str "Phones";
              Str ("Jos" ++ String (Py.chr 195) (String (Py.chr 169) ""));
              Str "2020-01" ] ].

(** Four customers, two ties: "B" before "A" with 50 each, "C" before
    "D" with 30 each. *)
Definition ties_file : list byte := bytes
"OrderID,OrderDate,ShipDate,Sales,Profit,Region,Segment,Category,SubCategory,CustomerName
o1,2020-01-15,2020-01-17,50,5,East,Consumer,Tech,Phones,B
o2,2020-01-28,2020-01-30,50,2,East,Consumer,Tech,Phones,A
o3,2020-02-15,2020-02-17,30,5,East,Consumer,Tech,Phones,C
o4,2020-02-28,2020-03-01,30,2,East,Consumer,Tech,Phones,D
".

Definition ties_table : DataFrame :=
  mkFrame [ "OrderID"; "OrderDate"; "ShipDate"; "Sales"; "Profit"; "Region";
            "Segment"; "Category"; "SubCategory"; "CustomerName" ]%string
          [ [ Str "o1"; Date (mkDate 2020 1 15); Date (mkDate 2020 1 17);
              Num 50; Num 5; Str "East"; Str "Consumer"; Str "Tech";
              Str "Phones"; Str "B" ];
            [ Str "o2"; Date (mkDate 2020 1 28); Date (mkDate 2020 1 30);
              Num 50; Num 2; Str "East"; Str "Consumer"; Str "Tech";
              Str "Phones"; Str "A" ];
            [ Str "o3"; Date (mkDate 2020 2 15); Date (mkDate 2020 2 17);
              Num 30; Num 5; Str "East"; Str "Consumer"; Str "Tech";
              Str "Phones"; Str "C" ];
            [ Str "o4"; Date (mkDate 2020 2 28); Date (mkDate 2020 3 1);
              Num 30; Num 2; Str "East"; Str "Consumer"; Str "Tech";
              Str "Phones"; Str "D" ] ].

End Sample.

(** ** Column kinds

    What the loader establishes about the cells of a table, column by
    column: a text column holds texts that [read_csv] does not read as
    missing, a date column dates, a number column numbers; any column may
    hold the missing value. *)

Inductive kind := KText | KDate | KNum.

Definition has_kind (k : kind) (c : cell) : bool :=
  match k, c with
  | _, NaN => true
  | KText, Str t => bool_decide (t ∉ Csv.na_values)
  | KDate, Date _ => true
  | KNum, Num _ => true
  | _, _ => false
  end.

Definition schema := string → kind.

Definition with_kind (name : string) (k : kind) (sch : schema) : schema :=
  fun n => if decide (n = name) then k else sch n.

(** Every row has one cell per column, of the kind of the column. *)
Definition typed (sch : schema) (df : DataFrame) : Prop :=
  Forall (fun r => Forall2 (fun n c => has_kind (sch n) c) (columns df) r)
         (rows df).

(** The kinds of the columns of a loaded table. *)
Definition loaded_schema : schema :=
  with_kind "Profit" KNum
    (with_kind "Sales" KNum
       (with_kind "ShipDate" KDate
          (with_kind "OrderDate" KDate (fun _ => KText)))).

(** The labels the script looks up in a loaded table. *)
Definition loaded_labels : list string :=
  ["OrderDate"; "ShipDate"]%string ++ critical.

(** The cell of row [r] under [name] is one of [vals]. *)
Definition in_selection (df : DataFrame) (name : string) (vals : list cell)
    (r : list cell) : Prop :=
  ∃ c, at_col df name r = Some c ∧ c ∈ vals.

(** ** Orders *)

(** Text [a] comes before text [b], by code points. *)
Definition before (a b : string) : Prop := String.compare a b = Lt.

(** Entry [a] of a descending ranking goes before entry [b]: its value is
    larger, or the values are equal and its label comes first. *)
Definition ranks_before (a b : string * Q) : Prop :=
  (b.2 < a.2)%Q ∨ ((a.2 == b.2)%Q ∧ before a.1 b.1).

(** The order of the outcome of a stable sort by [leb], for an input
    ordered by [K]: ascending, and by [K] among equals. *)
Definition sorted_then {A} (leb : A → A → bool) (K : relation A) : relation A :=
  fun a b => leb a b = true ∧ (leb b a = true → K a b).

(** ** Reading the aggregations row by row *)

(** The numbers of column [col] in the rows [rs], in order; a cell that
    is not a number is skipped. *)
Definition numbers (df : DataFrame) (col : string) (rs : list (list cell))
  : list Q :=
  omap (fun r => match at_col df col r with Some (Num q) => Some q | _ => None end) rs.

(** The rows whose cell under [key] is the text [k]. *)
Definition rows_where (df : DataFrame) (key k : string) : list (list cell) :=
  List.filter (fun r => bool_decide (at_col df key r = Some (Str k))) (rows df).

(** The rows whose cell under [key] is one of the texts [ks]. *)
Definition rows_among (df : DataFrame) (key : string) (ks : list string)
  : list (list cell) :=
  List.filter
    (fun r => existsb (fun k => bool_decide (at_col df key r = Some (Str k))) ks)
    (rows df).

(** Date [d1] lies in an earlier calendar month than [d2]. *)
Definition earlier_month (d1 d2 : date) : Prop :=
  year d1 < year d2 ∨ (year d1 = year d2 ∧ month d1 < month d2).

(** The dates a pandas timestamp can hold have a year of four digits
    (1677 to 2262) and a month from 1 to 12. *)
Definition timestamp (d : date) : Prop :=
  1677 ≤ year d ≤ 2262 ∧ 1 ≤ month d ≤ 12.

(** The source table has at most one column labelled [name]. *)
Definition at_most_one (name : string) (df : DataFrame) : Prop :=
  length (positions name (columns df) 0) ≤ 1.

(** ** The tie rule as the specification words it

    Groups in the order in which their key first occurs, then the stable
    descending sort: among equal sums the key met first comes first. *)
Definition groupby_sum_first_seen (df : DataFrame) (key col : string)
  : option (list (string * Q)) :=
  ks ← getitem df key ≫= mapM as_text;
  vs ← getitem df col ≫= mapM as_number;
  Some ((fun k => (k, Qsum (group_values k ks vs))) <$> unique (omap id ks)).

Definition top_customers_first_seen (df : DataFrame)
  : option (list (string * Q)) :=
  g ← groupby_sum_first_seen df "CustomerName" "Sales";
  Some (take 5 (sort_values_desc g)).

(** ** Sample subsets *)
Module Scenario.

Definition frame (rs : list (list cell)) : DataFrame :=
  mkFrame ["CustomerName"; "Sales"]%string rs.

(** The three records of the specification's scenario. *)
Definition three : DataFrame :=
  frame [ [Str "A"; Num 100]; [Str "B"; Num 50]; [Str "A"; Num 30] ].

(** Two records of January 2020, on the 15th and on the 28th. *)
Definition january (s1 p1 s2 p2 : Q) : DataFrame :=
  mkFrame ["OrderDate"; "Sales"; "Profit"]%string
          [ [Date (mkDate 2020 1 15); Num s1; Num p1];
            [Date (mkDate 2020 1 28); Num s2; Num p2] ].

End Scenario.

(** ** The export read back *)

(** A text of ASCII characters without a carriage return. *)
Definition plain (l : list ascii) : bool :=
  forallb (fun c => Py.isascii c && negb (bool_decide (c = Csv.CR))) l.

(** A frame whose labels and written cells are plain. *)
Definition plain_frame (float_repr : Q → string) (df : DataFrame) : bool :=
  forallb (fun n => plain (Py.chars n)) (columns df)
  && forallb (forallb (fun c => plain (format_cell float_repr c))) (rows df).

(** What [read_csv] makes of a written cell. *)
Definition reread (float_repr : Q → string) (c : cell) : cell :=
  Csv.convert (Py.text (format_cell float_repr c)).

(** The dates of the two date columns are read back from what [to_csv]
    wrote for them. *)
Definition dates_read_back (parse_dates : list (option string) → list (option date))
    (float_repr : Q → string) (df : DataFrame) : bool :=
  forallb
    (fun name =>
       match getitem df name with
       | Some s => bool_decide (to_datetime parse_dates (reread float_repr <$> s) = s)
       | None => true
       end)
    ["OrderDate"; "ShipDate"]%string.

(** The numbers of the two number columns are read back from what
    [to_csv] wrote for them. *)
Definition numbers_read_back (parse_number : string → option Q)
    (float_repr : Q → string) (df : DataFrame) : bool :=
  forallb
    (fun name =>
       match getitem df name with
       | Some s => bool_decide (to_numeric parse_number (reread float_repr <$> s) = s)
       | None => true
       end)
    ["Sales"; "Profit"]%string.

(** The labels are not empty and the loader leaves them as they are. *)
Definition stable_labels (df : DataFrame) : bool :=
  forallb (fun n => bool_decide (clean_label n = n ∧ n ≠ ""%string)) (columns df).

(** A row read back from the export, with the cells at the positions
    [idx] put back as they were in the exported row [r]. *)
Definition restored (float_repr : Q → string) (idx : list nat) (r : list cell)
  : list cell :=
  foldr (fun i acc => <[i := r !!! i]> acc) (reread float_repr <$> r) idx.

(** ** The round trip as the specification words it *)

(** Loading the exported bytes of [e] yields [e]. *)
Definition round_trip (parse_dates : list (option string) → list (option date))
    (parse_number : string → option Q) (float_repr : Q → string)
    (e : DataFrame) : Prop :=
  load_data parse_dates parse_number (Py.encode_utf8 (to_csv float_repr e)) = Some e.

(** ** The KPI texts *)

(** The nearest whole number, a tie going to the even one: the rounding
    of Python's number formatting. *)
Definition round_half_even (q : Q) : Z :=
  let f := (Qnum q / Zpos (Qden q))%Z in
  let r := (Qnum q mod Zpos (Qden q))%Z in
  match (2 * r ?= Zpos (Qden q))%Z with
  | Lt => f
  | Gt => (f + 1)%Z
  | Eq => if Z.even f then f else (f + 1)%Z
  end.

(** The option [,] of a format: a comma after every third digit, counted
    from the right; the digits come least significant first. *)
Fixpoint group3_rev (ds : list ascii) : list ascii :=
  match ds with
  | a :: b :: c :: rest =>
      match rest with
      | [] => ds
      | _ :: _ => a :: b :: c :: Csv.comma :: group3_rev rest
      end
  | _ => ds
  end.

Definition group3 (ds : list ascii) : list ascii := rev (group3_rev (rev ds)).

(** [format(x, ',.2f')]: the sign of a negative number, the whole part
    in groups of three digits, a period and two decimals; the number is
    rounded to the nearest hundredth.  A negative number that rounds to
    zero keeps its sign. *)
Definition format_2f (q : Q) : list ascii :=
  let a := if Qlt_le_dec q 0 then (- q)%Q else q in
  let cents := Z.to_N (round_half_even (a * 100)) in
  (if Qlt_le_dec q 0 then [Py.chr 45] else [])
  ++ group3 (Py.chars (pretty (cents / 100)%N))
  ++ [ Py.chr 46; pretty_N_char (cents mod 100 / 10);
       pretty_N_char (cents mod 100 mod 10) ].

(** [f"${x:,.2f}"], the text of the Sales and Profit KPIs. *)
Definition kpi_text (q : Q) : string := Py.text (Py.chr 36 :: format_2f q).

(** The amount a KPI text shows, in hundredths: the text without the
    dollar sign, the commas and the period, read as a whole number. *)
Definition read_digit (c : ascii) : option N :=
  let n := N_of_ascii c in
  if ((48 <=? n) && (n <=? 57))%N then Some (n - 48)%N else None.

Definition read_step (acc : option N) (c : ascii) : option N :=
  a ← acc; v ← read_digit c; Some (10 * a + v)%N.

Definition read_digits (l : list ascii) : option N := foldl read_step (Some 0%N) l.

Definition read_cents (s : string) : option Z :=
  match Py.chars s with
  | d :: rest =>
      if decide (d = Py.chr 36) then
        let '(neg, body) :=
          match rest with
          | m :: b => if decide (m = Py.chr 45) then (true, b) else (false, rest)
          | [] => (false, [])
          end in
        n ← read_digits
               (List.filter (fun c => bool_decide (c ≠ Csv.comma ∧ c ≠ Py.chr 46)) body);
        Some (if neg : bool then (- Z.of_N n)%Z else Z.of_N n)
      else None
  | [] => None
  end.

(** * Facts about the frame operations *)

Lemma positions_spec name cols k j :
  j ∈ positions name cols k ↔ k ≤ j ∧ cols !! (j - k) = Some name.
Proof.
  revert k. induction cols as [|c cs IH]; intros k; simpl.
  - rewrite elem_of_nil. split; [done|]. intros [_ Hl]. by rewrite lookup_nil in Hl.
  - destruct (decide (c = name)) as [->|Hne].
    + rewrite elem_of_cons, IH. split.
      * intros [->|[Hk Hl]].
        -- split; [lia|]. by replace (k - k) with 0 by lia.
        -- split; [lia|]. replace (j - k) with (S (j - S k)) by lia. done.
      * intros [Hk Hl]. destruct (decide (j = k)) as [->|Hjk]; [by left|right].
        split; [lia|]. replace (j - k) with (S (j - S k)) in Hl by lia. done.
    + rewrite IH. split.
      * intros [Hk Hl]. split; [lia|].
        replace (j - k) with (S (j - S k)) by lia. done.
      * intros [Hk Hl]. destruct (decide (j = k)) as [->|Hjk].
        -- replace (k - k) with 0 in Hl by lia. simpl in Hl. congruence.
        -- split; [lia|]. replace (j - k) with (S (j - S k)) in Hl by lia. done.
Qed.

Lemma positions_lookup name cols i :
  i ∈ positions name cols 0 ↔ cols !! i = Some name.
Proof. rewrite positions_spec. replace (i - 0) with i by lia. naive_solver lia. Qed.

Lemma positions_nil name cols : positions name cols 0 = [] ↔ name ∉ cols.
Proof.
  split.
  - intros Hp [i Hi]%list_elem_of_lookup. apply positions_lookup in Hi.
    rewrite Hp in Hi. by apply elem_of_nil in Hi.
  - intros Hn. destruct (positions name cols 0) as [|i l] eqn:E; [done|].
    exfalso. apply Hn. apply list_elem_of_lookup. exists i.
    apply positions_lookup. rewrite E. by left.
Qed.

Lemma get_loc_Some name cols i :
  get_loc name cols = Some i → cols !! i = Some name.
Proof.
  unfold get_loc. destruct (positions name cols 0) as [|j [|? ?]] eqn:E; try done.
  intros [= ->]. apply positions_lookup. rewrite E. by left.
Qed.

Lemma get_loc_unique name cols i j :
  get_loc name cols = Some i → cols !! j = Some name → j = i.
Proof.
  unfold get_loc. destruct (positions name cols 0) as [|k [|? ?]] eqn:E; try done.
  intros [= ->] Hj%positions_lookup. rewrite E in Hj.
  by apply list_elem_of_singleton in Hj.
Qed.

Lemma get_loc_positions name cols i :
  get_loc name cols = Some i → positions name cols 0 = [i].
Proof.
  unfold get_loc. destruct (positions name cols 0) as [|k [|? ?]]; naive_solver.
Qed.

Lemma select_fmap {A} (f : A → bool) (l : list A) :
  select (f <$> l) l = List.filter f l.
Proof. induction l as [|x l IH]; csimpl; [done|]. by rewrite IH. Qed.

Lemma elem_of_List_filter {A} (f : A → bool) (l : list A) x :
  x ∈ List.filter f l ↔ x ∈ l ∧ f x = true.
Proof. rewrite !list_elem_of_In. apply filter_In. Qed.

Lemma zip_with_andb_fmap {A} (f g : A → bool) (l : list A) :
  zip_with andb (f <$> l) (g <$> l) = (fun x => f x && g x) <$> l.
Proof. induction l; csimpl; [done|]. by f_equal. Qed.

Lemma isin_fmap {A} (f : A → cell) (l : list A) vs :
  isin (f <$> l) vs = (fun x => bool_decide (f x ∈ vs)) <$> l.
Proof. unfold isin. by rewrite <-list_fmap_compose. Qed.

Lemma at_col_getitem df name r c :
  at_col df name r = Some c ↔ ∃ i, get_loc name (columns df) = Some i ∧ c = r !!! i.
Proof.
  unfold at_col. destruct (get_loc name (columns df)); simpl; naive_solver.
Qed.

(** * The kinds of the columns *)

Lemma Forall2_const_l {A B} (P : B → Prop) (l : list A) (k : list B) :
  Forall2 (fun _ y => P y) l k ↔ length l = length k ∧ Forall P k.
Proof.
  split.
  - induction 1 as [|???? ? ? [? ?]]; simpl; [by split|]. split; [lia|]. by constructor.
  - intros [Hlen HP]. revert l Hlen. induction HP; intros [|a l'] Hlen; simplify_eq/=;
      constructor; auto.
Qed.

Lemma Forall2_select {A B} (P : A → B → Prop) m l k :
  Forall2 P l k → Forall2 P (select m l) (select m k).
Proof.
  intros H. revert m. induction H; intros [|[] m]; simpl; try constructor; auto.
Qed.

Lemma Forall_select {A} (P : A → Prop) m l :
  Forall P l → Forall P (select m l).
Proof.
  intros H. revert m. induction H; intros [|[] m]; simpl; try constructor; auto.
Qed.

Lemma typed_mask sch df m : typed sch df → typed sch (getitem_mask df m).
Proof. unfold typed. simpl. apply Forall_select. Qed.

Lemma convert_kind f : has_kind KText (Csv.convert f).
Proof.
  unfold Csv.convert. destruct (decide (f ∈ Csv.na_values)); simpl; [done|].
  by apply bool_decide_pack.
Qed.

Lemma read_csv_typed b df :
  Csv.read_csv b = Some df → typed (fun _ => KText) df.
Proof.
  unfold Csv.read_csv. intros H.
  destruct (Csv.tokenize _) as [[|header data]|]; simpl in H; try done.
  destruct (forallb _ data) eqn:Hlen; [|done]. simplify_eq.
  unfold typed. simpl. apply Forall_fmap, Forall_forall. intros l Hl. simpl.
  rewrite forallb_forall in Hlen. specialize (Hlen l).
  rewrite <-list_elem_of_In in Hlen. specialize (Hlen Hl).
  apply Nat.leb_le in Hlen.
  apply Forall2_const_l. unfold Csv.pad. split.
  - rewrite length_imap, length_app, length_fmap, length_replicate. lia.
  - apply Forall_app. split.
    + apply Forall_fmap, Forall_forall. intros f _. apply convert_kind.
    + by apply Forall_replicate.
Qed.

Lemma typed_const_columns k cols cols' rws :
  length cols = length cols' →
  typed (fun _ => k) (mkFrame cols rws) → typed (fun _ => k) (mkFrame cols' rws).
Proof.
  unfold typed. simpl. intros Hlen Ht. eapply Forall_impl; [exact Ht|]. intros r.
  rewrite !Forall2_const_l. intros [? ?]. split; [congruence|done].
Qed.

Lemma typed_drop_column sch name df :
  typed sch df → typed sch (drop_column name df).
Proof.
  unfold typed, drop_column. simpl. intros H.
  apply Forall_fmap. eapply Forall_impl; [exact H|]. intros r Hr. simpl.
  by apply Forall2_select.
Qed.

Lemma length_foldr_insert {A} (c : A) ps r :
  length (foldr (fun i r' => <[i:=c]> r') r ps) = length r.
Proof. induction ps; simpl; [done|]. by rewrite length_insert. Qed.

Lemma lookup_foldr_insert {A} (c : A) ps r j :
  foldr (fun i r' => <[i:=c]> r') r ps !! j =
  if decide (j ∈ ps ∧ j < length r) then Some c else r !! j.
Proof.
  induction ps as [|p ps IH]; simpl.
  - done.
  - destruct (decide (p = j)) as [->|Hne].
    + destruct (decide (j < length r)) as [Hlt|Hge].
      * rewrite list_lookup_insert_eq by (by rewrite length_foldr_insert).
        rewrite decide_True; [done|]. split; [by left|done].
      * rewrite list_insert_ge by (rewrite length_foldr_insert; lia).
        rewrite IH. rewrite !decide_False by naive_solver. done.
    + rewrite list_lookup_insert_ne by done. rewrite IH.
      apply decide_ext. rewrite elem_of_cons. naive_solver.
Qed.

(** Changing the kind of a label matters at that label only. *)
Lemma Forall2_with_kind sch name k cols r :
  Forall2 (fun n c => n = name ∨ has_kind (sch n) c) cols r →
  Forall2 (fun n c => n = name → has_kind k c) cols r →
  Forall2 (fun n c => has_kind (with_kind name k sch n) c) cols r.
Proof.
  intros H1 H2. induction H1; inversion H2; subst; constructor; auto.
  unfold with_kind. case_decide; naive_solver.
Qed.

Lemma setitem_typed sch df name k s df' :
  typed sch df → Forall (fun c => has_kind k c) s →
  setitem df name s = Some df' → typed (with_kind name k sch) df'.
Proof.
  unfold setitem, typed. intros Ht Hs H. case_decide as Hlen; [|done].
  destruct (positions name (columns df) 0) as [|p ps] eqn:Hp.
  - apply positions_nil in Hp. simplify_eq. simpl.
    eapply Forall_zip_with_fst; [exact Ht|].
    eapply Forall_impl; [exact Hs|]. intros c Hc r Hr. simpl in *.
    apply Forall2_with_kind.
    + apply Forall2_app; [|by repeat constructor; left].
      eapply Forall2_impl; [exact Hr|]. auto.
    + apply Forall2_app; [|by repeat constructor].
      apply Forall2_same_length_lookup. split; [by eapply Forall2_length|].
      intros i n c' Hn _ ->. exfalso. apply Hp. by eapply list_elem_of_lookup_2.
  - assert (Hps : ∀ i, i ∈ p :: ps ↔ columns df !! i = Some name).
    { intros i. rewrite <-Hp. apply positions_lookup. }
    clear Hp. simplify_eq. set (qs := p :: ps) in *. clearbody qs.
    rename Hps into Hqs. cbn [rows columns].
    eapply Forall_zip_with_fst; [exact Ht|].
    eapply Forall_impl; [exact Hs|]. intros c Hc r Hr. cbv beta in *.
    pose proof (Forall2_length _ _ _ Hr) as Hl.
    rewrite Forall2_same_length_lookup in Hr. destruct Hr as [_ Hr].
    apply Forall2_with_kind; apply Forall2_same_length_lookup;
      (split; [by rewrite length_foldr_insert|]);
      intros i n c'; rewrite lookup_foldr_insert; intros Hn Hc'.
    + case_decide as Hd.
      * left. destruct Hd as [Hd _]. apply Hqs in Hd. congruence.
      * right. eauto.
    + intros ->. apply lookup_lt_Some in Hn as Hlt.
      rewrite decide_True in Hc' by (split; [by apply Hqs | lia]).
      by simplify_eq.
Qed.

Lemma to_datetime_kind pd s : Forall (fun c => has_kind KDate c) (to_datetime pd s).
Proof.
  unfold to_datetime. generalize (pd (text_of <$> s)). intros l. revert l.
  induction s as [|c s IH]; intros [|o l]; simpl; try constructor; auto.
  destruct c; try done; destruct o; done.
Qed.

Lemma to_numeric_kind pn s : Forall (fun c => has_kind KNum c) (to_numeric pn s).
Proof.
  unfold to_numeric. apply Forall_fmap, Forall_forall. intros c _. simpl.
  destruct c; try done. by destruct (pn s0).
Qed.

(** * The loader *)

Lemma setitem_columns df name s df' i :
  get_loc name (columns df) = Some i → setitem df name s = Some df' →
  columns df' = columns df.
Proof.
  intros Hi%get_loc_positions. unfold setitem. rewrite Hi.
  case_decide; [|done]. by intros [= <-].
Qed.

Lemma dropna_Some names df df' :
  dropna names df = Some df' →
  ∃ idx, Forall2 (fun n i => get_loc n (columns df) = Some i) names idx ∧
    df' = mkFrame (columns df)
            (List.filter (fun r => forallb (fun i => negb (isna (r !!! i))) idx)
                         (rows df)).
Proof.
  unfold dropna. destruct (mapM _ names) as [idx|] eqn:Hidx; [|done].
  simpl. intros [= <-]. exists idx. split; [by apply mapM_Some|].
  unfold getitem_mask. by rewrite select_fmap.
Qed.

Lemma dropna_columns names df df' :
  dropna names df = Some df' → columns df' = columns df.
Proof. by intros (idx & _ & ->)%dropna_Some. Qed.

Lemma dropna_present names df df' r name :
  dropna names df = Some df' → r ∈ rows df' → name ∈ names →
  ∃ c, at_col df' name r = Some c ∧ c ≠ NaN.
Proof.
  intros (idx & Hidx & ->)%dropna_Some Hr Hn. simpl in *.
  apply elem_of_List_filter in Hr as [_ Hr].
  apply list_elem_of_lookup in Hn as [j Hj].
  destruct (Forall2_lookup_l _ _ _ _ _ Hidx Hj) as (i & Hi & Hloc).
  exists (r !!! i). unfold at_col. simpl. rewrite Hloc. split; [done|].
  rewrite forallb_forall in Hr. specialize (Hr i).
  rewrite <-list_elem_of_In in Hr.
  specialize (Hr (list_elem_of_lookup_2 _ _ _ Hi)).
  intros Heq. rewrite Heq in Hr. done.
Qed.

Lemma dropna_retains names df df' r :
  dropna names df = Some df' → r ∈ rows df →
  (∀ name, name ∈ names → ∃ c, at_col df name r = Some c ∧ c ≠ NaN) →
  r ∈ rows df'.
Proof.
  intros (idx & Hidx & ->)%dropna_Some Hr Hn. simpl.
  apply elem_of_List_filter. split; [done|].
  apply forallb_forall. intros i Hi%list_elem_of_In.
  apply list_elem_of_lookup in Hi as [j Hj].
  destruct (Forall2_lookup_r _ _ _ _ _ Hidx Hj) as (n & Hn' & Hloc).
  destruct (Hn n (list_elem_of_lookup_2 _ _ _ Hn')) as (c & Hc & Hne).
  unfold at_col in Hc. rewrite Hloc in Hc. simpl in Hc. simplify_eq.
  by destruct (r !!! i).
Qed.

Lemma typed_dropna sch names df df' :
  typed sch df → dropna names df = Some df' → typed sch df'.
Proof.
  unfold dropna. destruct (mapM _ names); [|done]. simpl.
  intros Ht [= <-]. by apply typed_mask.
Qed.

Lemma typed_ext sch sch' df :
  (∀ n, sch n = sch' n) → typed sch df → typed sch' df.
Proof.
  unfold typed. intros Hs Ht. eapply Forall_impl; [exact Ht|]. intros r Hr.
  eapply Forall2_impl; [exact Hr|]. intros n c. simpl. by rewrite Hs.
Qed.

(** The stages of [coerced], named. *)
Lemma coerced_Some pd pn file df :
  coerced pd pn file = Some df →
  typed loaded_schema df ∧
  Forall (fun n => is_Some (get_loc n (columns df)))
         ["OrderDate"; "ShipDate"; "Sales"; "Profit"]%string.
Proof.
  unfold coerced. intros H.
  destruct (Csv.read_csv file) as [d0|] eqn:H0; [|done]. simpl in H.
  apply read_csv_typed in H0.
  set (d1 := drop_column stray_column (mkFrame (clean_label <$> columns d0) (rows d0))) in *.
  assert (H1 : typed (fun _ => KText) d1).
  { apply typed_drop_column. destruct d0 as [c0 r0]. simpl.
    eapply typed_const_columns; [|exact H0]. by rewrite length_fmap. }
  clearbody d1. clear H0 d0.
  unfold getitem in H.
  destruct (get_loc "OrderDate" (columns d1)) as [i1|] eqn:L1; [|done]. simpl in H.
  destruct (setitem d1 "OrderDate" _) as [d2|] eqn:S1; [|done]. simpl in H.
  destruct (get_loc "ShipDate" (columns d2)) as [i2|] eqn:L2; [|done]. simpl in H.
  destruct (setitem d2 "ShipDate" _) as [d3|] eqn:S2; [|done]. simpl in H.
  destruct (get_loc "Sales" (columns d3)) as [i3|] eqn:L3; [|done]. simpl in H.
  destruct (setitem d3 "Sales" _) as [d4|] eqn:S3; [|done]. simpl in H.
  destruct (get_loc "Profit" (columns d4)) as [i4|] eqn:L4; [|done]. simpl in H.
  pose proof (setitem_columns _ _ _ _ _ L1 S1) as C1.
  pose proof (setitem_columns _ _ _ _ _ L2 S2) as C2.
  pose proof (setitem_columns _ _ _ _ _ L3 S3) as C3.
  pose proof (setitem_columns _ _ _ _ _ L4 H) as C4.
  split.
  - eapply setitem_typed; [|apply to_numeric_kind|exact H].
    eapply setitem_typed; [|apply to_numeric_kind|exact S3].
    eapply setitem_typed; [|apply to_datetime_kind|exact S2].
    eapply setitem_typed; [|apply to_datetime_kind|exact S1]. done.
  - rewrite C4. repeat apply Forall_cons_2; [| | | |apply Forall_nil_2].
    + rewrite C3, C2, C1, L1. done.
    + rewrite C3, C2, L2. done.
    + rewrite C3, L3. done.
    + rewrite L4. done.
Qed.

Lemma load_data_Some pd pn file df :
  load_data pd pn file = Some df →
  ∃ dfc, coerced pd pn file = Some dfc ∧ dropna critical dfc = Some df.
Proof.
  unfold load_data. destruct (coerced pd pn file) as [dfc|]; [|done].
  simpl. eauto.
Qed.

Lemma load_data_typed pd pn file df :
  load_data pd pn file = Some df → typed loaded_schema df.
Proof.
  intros (dfc & Hc & Hd)%load_data_Some.
  eapply typed_dropna; [|exact Hd]. by apply coerced_Some in Hc as [? _].
Qed.

Lemma load_data_labels pd pn file df name :
  load_data pd pn file = Some df → name ∈ loaded_labels →
  is_Some (get_loc name (columns df)).
Proof.
  intros (dfc & Hc & Hd)%load_data_Some Hn.
  rewrite (dropna_columns _ _ _ Hd).
  apply coerced_Some in Hc as [_ Hc].
  apply dropna_Some in Hd as (idx & Hidx & _).
  unfold loaded_labels in Hn. apply elem_of_app in Hn as [Hn|Hn].
  - rewrite Forall_forall in Hc. apply Hc.
    set_solver.
  - apply list_elem_of_lookup in Hn as [j Hj].
    destruct (Forall2_lookup_l _ _ _ _ _ Hidx Hj) as (i & _ & ->). done.
Qed.

(** In a typed row, the cell under a label has the kind of the label. *)
Lemma typed_at_col sch df r name c :
  typed sch df → r ∈ rows df → at_col df name r = Some c →
  has_kind (sch name) c.
Proof.
  unfold typed. rewrite Forall_forall. intros Ht Hr Hc.
  specialize (Ht r Hr). apply at_col_getitem in Hc as (i & Hi & ->).
  apply get_loc_Some in Hi.
  destruct (Forall2_lookup_l _ _ _ _ _ Ht Hi) as (c & Hc & Hk).
  by rewrite (list_lookup_total_correct _ _ _ Hc).
Qed.

(** * Sorting and distinct values *)

Lemma insert_sorted_perm {A} (leb : A → A → bool) x l :
  insert_sorted leb x l ≡ₚ x :: l.
Proof.
  induction l as [|y l IH]; simpl; [done|].
  destruct (leb x y); [done|]. rewrite IH. apply Permutation_swap.
Qed.

Lemma stable_sort_perm {A} (leb : A → A → bool) l : stable_sort leb l ≡ₚ l.
Proof.
  induction l as [|x l IH]; simpl; [done|].
  by rewrite insert_sorted_perm, IH.
Qed.

Lemma elem_of_stable_sort {A} (leb : A → A → bool) l x :
  x ∈ stable_sort leb l ↔ x ∈ l.
Proof. by rewrite stable_sort_perm. Qed.

Lemma elem_of_unique {A} `{EqDecision A} (l : list A) x : x ∈ unique l ↔ x ∈ l.
Proof.
  induction l as [|y l IH]; simpl; [done|].
  rewrite !elem_of_cons, elem_of_List_filter, IH, bool_decide_eq_true.
  destruct (decide (x = y)); naive_solver.
Qed.

Lemma NoDup_List_filter {A} (f : A → bool) l : NoDup l → NoDup (List.filter f l).
Proof.
  induction 1 as [|x l Hx Hl IH]; simpl; [constructor|].
  destruct (f x); [|done]. constructor; [|done].
  rewrite elem_of_List_filter. naive_solver.
Qed.

Lemma NoDup_unique {A} `{EqDecision A} (l : list A) : NoDup (unique l).
Proof.
  induction l as [|y l IH]; simpl; constructor.
  - rewrite elem_of_List_filter, bool_decide_eq_true. naive_solver.
  - by apply NoDup_List_filter.
Qed.

Lemma List_filter_all {A} (f : A → bool) l :
  (∀ x, x ∈ l → f x = true) → List.filter f l = l.
Proof.
  induction l as [|x l IH]; simpl; [done|]. intros H.
  rewrite (H x) by (by left). f_equal. apply IH. intros y Hy. apply H. by right.
Qed.

Lemma List_filter_none {A} (f : A → bool) l :
  (∀ x, x ∈ l → f x = false) → List.filter f l = [].
Proof.
  induction l as [|x l IH]; simpl; [done|]. intros H.
  rewrite (H x) by (by left). apply IH. intros y Hy. apply H. by right.
Qed.

(** [sorted] succeeds on texts and keeps the values. *)
Lemma sorted_texts l :
  Forall (fun c => ∃ t, c = Str t) l →
  ∃ l', sorted l = Some l' ∧ ∀ c, c ∈ l' ↔ c ∈ l.
Proof.
  intros Hl. unfold sorted.
  assert (Hm : mapM text_of l = Some (omap text_of l)
               ∧ Str <$> omap text_of l = l).
  { split.
    - apply mapM_Some. induction Hl as [|c l [t ->] Hl IH]; by constructor.
    - induction Hl as [|c l [t ->] Hl IH]; [done|]. csimpl. by f_equal. }
  destruct Hm as [-> Hm]. simpl. eexists. split; [done|]. intros c.
  rewrite <-Hm at 2. rewrite !list_elem_of_fmap.
  by setoid_rewrite elem_of_stable_sort.
Qed.

(** * Filtering *)

Lemma filter_frame_Some df sel sub :
  filter_frame df sel = Some sub →
  ∃ i j k,
    get_loc "Region" (columns df) = Some i ∧
    get_loc "Category" (columns df) = Some j ∧
    get_loc "SubCategory" (columns df) = Some k ∧
    sub = mkFrame (columns df)
      (List.filter (fun r => bool_decide (r !!! i ∈ regions sel)
                             && bool_decide (r !!! j ∈ categories sel)
                             && bool_decide (r !!! k ∈ subcategories sel))
                   (rows df)).
Proof.
  unfold filter_frame, getitem.
  destruct (get_loc "Region" _) as [i|]; [|done]. simpl.
  destruct (get_loc "Category" _) as [j|]; [|done]. simpl.
  destruct (get_loc "SubCategory" _) as [k|]; [|done]. simpl.
  intros [= <-]. exists i, j, k. repeat split. unfold getitem_mask. f_equal.
  rewrite !isin_fmap, !zip_with_andb_fmap. apply select_fmap.
Qed.

Lemma filter_frame_total df sel :
  is_Some (get_loc "Region" (columns df)) →
  is_Some (get_loc "Category" (columns df)) →
  is_Some (get_loc "SubCategory" (columns df)) →
  is_Some (filter_frame df sel).
Proof.
  unfold filter_frame, getitem. intros [i ->] [j ->] [k ->]. simpl. eauto.
Qed.

Lemma filter_frame_columns df sel sub :
  filter_frame df sel = Some sub → columns sub = columns df.
Proof. by intros (i & j & k & _ & _ & _ & ->)%filter_frame_Some. Qed.

Lemma filter_frame_in df sel sub r :
  filter_frame df sel = Some sub →
  r ∈ rows sub ↔
    r ∈ rows df ∧ in_selection df "Region" (regions sel) r
    ∧ in_selection df "Category" (categories sel) r
    ∧ in_selection df "SubCategory" (subcategories sel) r.
Proof.
  intros (i & j & k & Hi & Hj & Hk & ->)%filter_frame_Some. simpl.
  rewrite elem_of_List_filter, !andb_true_iff, !bool_decide_eq_true.
  unfold in_selection, at_col. rewrite Hi, Hj, Hk. simpl. naive_solver.
Qed.

Lemma typed_filter_frame sch df sel sub :
  typed sch df → filter_frame df sel = Some sub → typed sch sub.
Proof.
  unfold filter_frame. intros Ht H.
  destruct (getitem df "Region"); [|done]. simpl in H.
  destruct (getitem df "Category"); [|done]. simpl in H.
  destruct (getitem df "SubCategory"); [|done]. simpl in H.
  simplify_eq. by apply typed_mask.
Qed.

(** * The cleaned table and the filter *)

Lemma loaded_present pd pn file df r name :
  load_data pd pn file = Some df → r ∈ rows df → name ∈ critical →
  ∃ c, at_col df name r = Some c ∧ c ≠ NaN ∧ has_kind (loaded_schema name) c.
Proof.
  intros Hl Hr Hn. pose proof (load_data_typed _ _ _ _ Hl) as Ht.
  apply load_data_Some in Hl as (dfc & _ & Hd).
  destruct (dropna_present _ _ _ _ _ Hd Hr Hn) as (c & Hc & Hne).
  exists c. repeat split; [done..|]. by eapply typed_at_col.
Qed.

Lemma loaded_text pd pn file df r name :
  load_data pd pn file = Some df → r ∈ rows df →
  name ∈ ["Region"; "Segment"; "Category"; "SubCategory"; "CustomerName"]%string →
  ∃ t, at_col df name r = Some (Str t).
Proof.
  intros Hl Hr Hn.
  destruct (loaded_present _ _ _ _ r name Hl Hr) as (c & Hc & Hne & Hk).
  { unfold critical. set_solver. }
  assert (loaded_schema name = KText) as Hs.
  { repeat (apply elem_of_cons in Hn as [->|Hn]; [done|]). by apply elem_of_nil in Hn. }
  rewrite Hs in Hk. destruct c; try done. eauto.
Qed.

Lemma loaded_number pd pn file df r name :
  load_data pd pn file = Some df → r ∈ rows df →
  name ∈ ["Sales"; "Profit"]%string →
  ∃ q, at_col df name r = Some (Num q).
Proof.
  intros Hl Hr Hn.
  destruct (loaded_present _ _ _ _ r name Hl Hr) as (c & Hc & Hne & Hk).
  { unfold critical. set_solver. }
  assert (loaded_schema name = KNum) as Hs.
  { repeat (apply elem_of_cons in Hn as [->|Hn]; [done|]). by apply elem_of_nil in Hn. }
  rewrite Hs in Hk. destruct c; try done. eauto.
Qed.

(** C2.  Every record that [load_data] retains has a value in each of the
    seven mandatory columns: a number for Sales and Profit, a text for
    Region, Segment, Category, SubCategory and CustomerName; none of them
    is missing. *)
Theorem load_data_no_missing pd pn file df r :
  load_data pd pn file = Some df → r ∈ rows df →
  (∀ name, name ∈ critical → ∃ c, at_col df name r = Some c ∧ isna c = false)
  ∧ (∀ name, name ∈ ["Sales"; "Profit"]%string → ∃ q, at_col df name r = Some (Num q))
  ∧ (∀ name, name ∈ ["Region"; "Segment"; "Category"; "SubCategory";
                     "CustomerName"]%string → ∃ t, at_col df name r = Some (Str t)).
Proof.
  intros Hl Hr. split; [|split]; intros name Hn.
  - destruct (loaded_present _ _ _ _ r name Hl Hr Hn) as (c & Hc & Hne & _).
    exists c. split; [done|]. by destruct c.
  - by eapply loaded_number.
  - by eapply loaded_text.
Qed.

Lemma load_data_no_missing_witness :
  Sample.load Sample.file = Some Sample.table
  ∧ ∀ name, name ∈ critical →
      ∃ c, at_col Sample.table name Sample.row3 = Some c ∧ isna c = false.
Proof.
  split; [vm_compute; reflexivity|].
  apply (load_data_no_missing Sample.parse_dates Sample.parse_number
           Sample.file Sample.table Sample.row3).
  - vm_compute; reflexivity.
  - apply (list_elem_of_lookup_2 _ 2). reflexivity.
Defined.

(** C1.  On a cleaned table the filter returns the records whose Region,
    Category and SubCategory are all among the selected values, and no
    other record: the rows of the subset are the rows of the table that
    pass the three tests, in the order of the table.  When one of the
    three selections is empty, no record is returned, whatever the other
    two are. *)
Theorem filter_frame_conjunction pd pn file df sel :
  load_data pd pn file = Some df →
  ∃ sub, filter_frame df sel = Some sub
    ∧ columns sub = columns df
    ∧ (∃ keep : list cell → bool,
         rows sub = List.filter keep (rows df)
         ∧ ∀ r, keep r = true ↔
             in_selection df "Region" (regions sel) r
             ∧ in_selection df "Category" (categories sel) r
             ∧ in_selection df "SubCategory" (subcategories sel) r)
    ∧ (∀ r, r ∈ rows sub ↔
         r ∈ rows df ∧ in_selection df "Region" (regions sel) r
         ∧ in_selection df "Category" (categories sel) r
         ∧ in_selection df "SubCategory" (subcategories sel) r)
    ∧ (regions sel = [] ∨ categories sel = [] ∨ subcategories sel = [] →
       rows sub = []).
Proof.
  intros Hl.
  destruct (filter_frame_total df sel) as [sub Hsub];
    try (eapply load_data_labels; [exact Hl|unfold loaded_labels, critical; set_solver]).
  exists sub. split; [done|]. split; [by eapply filter_frame_columns|].
  split.
  { destruct (filter_frame_Some _ _ _ Hsub) as (i & j & k & Hi & Hj & Hk & ->).
    eexists. split; [reflexivity|]. intros r.
    rewrite !andb_true_iff, !bool_decide_eq_true.
    unfold in_selection, at_col. rewrite Hi, Hj, Hk. simpl. naive_solver. }
  split; [intros r; by apply filter_frame_in|].
  intros Hempty. destruct (rows sub) as [|r rs] eqn:Hrows; [done|]. exfalso.
  assert (Hr : r ∈ rows sub) by (rewrite Hrows; by left).
  apply (filter_frame_in _ _ _ _ Hsub) in Hr
    as (_ & (a & _ & Ha) & (b & _ & Hb) & (c & _ & Hc)).
  destruct Hempty as [H|[H|H]]; rewrite H in *; by eapply elem_of_nil.
Qed.

Lemma filter_frame_conjunction_witness :
  ∃ sub, filter_frame Sample.table Sample.east = Some sub
    ∧ columns sub = columns Sample.table
    ∧ (∃ keep : list cell → bool,
         rows sub = List.filter keep (rows Sample.table)
         ∧ ∀ r, keep r = true ↔
             in_selection Sample.table "Region" (regions Sample.east) r
             ∧ in_selection Sample.table "Category" (categories Sample.east) r
             ∧ in_selection Sample.table "SubCategory" (subcategories Sample.east) r)
    ∧ (∀ r, r ∈ rows sub ↔
         r ∈ rows Sample.table
         ∧ in_selection Sample.table "Region" (regions Sample.east) r
         ∧ in_selection Sample.table "Category" (categories Sample.east) r
         ∧ in_selection Sample.table "SubCategory" (subcategories Sample.east) r)
    ∧ (regions Sample.east = [] ∨ categories Sample.east = []
       ∨ subcategories Sample.east = [] → rows sub = []).
Proof.
  apply (filter_frame_conjunction Sample.parse_dates Sample.parse_number Sample.file).
  vm_compute; reflexivity.
Defined.

(** The options of a selector hold every value of its column. *)
Lemma options_column pd pn file df name :
  load_data pd pn file = Some df →
  name ∈ ["Region"; "Category"; "SubCategory"]%string →
  ∃ i l, get_loc name (columns df) = Some i
    ∧ getitem df name ≫= (sorted ∘ unique) = Some l
    ∧ ∀ r, r ∈ rows df → r !!! i ∈ l.
Proof.
  intros Hl Hn.
  destruct (load_data_labels _ _ _ _ name Hl) as [i Hi].
  { unfold loaded_labels, critical. set_solver. }
  unfold getitem. rewrite Hi. simpl.
  destruct (sorted_texts (unique ((fun r => r !!! i) <$> rows df))) as (l & Hs & Hin).
  { apply Forall_forall. intros c [r [-> Hr]]%elem_of_unique%list_elem_of_fmap.
    destruct (loaded_text _ _ _ _ r name Hl Hr) as (t & Ht); [set_solver|].
    apply at_col_getitem in Ht as (i' & Hi' & Ht). exists t. congruence. }
  exists i, l. repeat split; [done|]. intros r Hr.
  apply Hin, elem_of_unique, list_elem_of_fmap. eauto.
Qed.

Lemma options_total pd pn file df :
  load_data pd pn file = Some df → is_Some (options df).
Proof.
  intros Hl.
  destruct (options_column _ _ _ _ "Region" Hl) as (i & lr & _ & Hr & _); [set_solver|].
  destruct (options_column _ _ _ _ "Category" Hl) as (j & lc & _ & Hc & _); [set_solver|].
  destruct (options_column _ _ _ _ "SubCategory" Hl) as (k & ls & _ & Hs & _); [set_solver|].
  unfold options. rewrite Hr, Hc, Hs. by eexists.
Qed.

(** C7.  With the default selection, for each of the three dimensions all
    the values seen in the cleaned table, the filter returns the cleaned
    table itself: the same records in the same order. *)
Theorem filter_default_identity pd pn file df :
  load_data pd pn file = Some df →
  ∃ sel, options df = Some sel ∧ filter_frame df sel = Some df.
Proof.
  intros Hl.
  destruct (options_column _ _ _ _ "Region" Hl) as (i & lr & Hi & Hr & Hri); [set_solver|].
  destruct (options_column _ _ _ _ "Category" Hl) as (j & lc & Hj & Hc & Hcj); [set_solver|].
  destruct (options_column _ _ _ _ "SubCategory" Hl) as (k & ls & Hk & Hs & Hsk); [set_solver|].
  exists (mkSelection lr lc ls). unfold options. rewrite Hr, Hc, Hs. split; [done|].
  destruct (filter_frame_total df (mkSelection lr lc ls)) as [sub Hsub]; [by eexists..|].
  rewrite Hsub. f_equal.
  apply filter_frame_Some in Hsub as (i' & j' & k' & Hi' & Hj' & Hk' & ->).
  destruct df as [cols rws]. simpl in *. f_equal. simplify_eq.
  apply List_filter_all. intros r Hin.
  rewrite !andb_true_iff, !bool_decide_eq_true. auto.
Qed.

Lemma filter_default_identity_witness :
  ∃ sel, options Sample.table = Some sel
         ∧ filter_frame Sample.table sel = Some Sample.table.
Proof.
  apply (filter_default_identity Sample.parse_dates Sample.parse_number Sample.file).
  vm_compute; reflexivity.
Defined.

(** * Orders and stable sorting *)

Lemma before_trans a b c : before a b → before b c → before a c.
Proof.
  unfold before. intros H1 H2. apply String_as_OT.cmp_lt.
  eapply String_as_OT.lt_trans; apply String_as_OT.cmp_lt; eassumption.
Qed.

Lemma before_irrefl a : ¬ before a a.
Proof.
  unfold before. intros H.
  assert (String.compare a a = Eq) as He by (by apply String_as_OT.cmp_eq).
  congruence.
Qed.

Lemma leb_before a b : String.leb a b = true ↔ before a b ∨ a = b.
Proof.
  unfold String.leb, before.
  destruct (String.compare a b) eqn:E.
  - apply String_as_OT.cmp_eq in E. naive_solver.
  - naive_solver.
  - split; [done|]. intros [?| ->]; [done|].
    assert (String.compare b b = Eq) as He by (by apply String_as_OT.cmp_eq).
    congruence.
Qed.

Section StableSort.
Context {A : Type} (leb : A → A → bool).
Hypothesis leb_total : ∀ a b, leb a b = true ∨ leb b a = true.
Hypothesis leb_trans : ∀ a b c, leb a b = true → leb b c = true → leb a c = true.

Lemma insert_sorted_then K x l :
  StronglySorted (sorted_then leb K) l → Forall (K x) l →
  StronglySorted (sorted_then leb K) (insert_sorted leb x l).
Proof using leb_total leb_trans.
  induction l as [|y l IH]; simpl; intros Hs Hk.
  - repeat constructor.
  - apply StronglySorted_inv in Hs as [Hs Hy].
    apply Forall_cons in Hk as [Hxy Hk].
    destruct (leb x y) eqn:E.
    + constructor; [by constructor|].
      constructor; [by split|].
      rewrite Forall_forall in Hy, Hk |- *. intros z Hz.
      destruct (Hy z Hz) as [Hyz _]. split; [by eapply leb_trans|auto].
    + constructor; [by apply IH|].
      rewrite Forall_forall in Hy |- *. intros z.
      rewrite insert_sorted_perm, elem_of_cons. intros [->|Hz]; [|auto].
      split; [|congruence]. destruct (leb_total x y); congruence.
Qed.

Lemma stable_sort_then K l :
  StronglySorted K l → StronglySorted (sorted_then leb K) (stable_sort leb l).
Proof using leb_total leb_trans.
  induction 1 as [|x l Hs IH Hx]; simpl; [constructor|].
  apply insert_sorted_then; [done|].
  rewrite Forall_forall in Hx |- *. intros z. rewrite stable_sort_perm. auto.
Qed.
End StableSort.

Lemma StronglySorted_rev {A} (R : relation A) l :
  StronglySorted R l → StronglySorted (flip R) (rev l).
Proof.
  induction 1 as [|x l Hs IH Hx]; simpl; [constructor|].
  apply StronglySorted_app_2; [|done|repeat constructor].
  intros a b Ha ->%list_elem_of_singleton. rewrite Forall_forall in Hx.
  apply Hx. by rewrite (Permutation_rev l).
Qed.

Lemma StronglySorted_impl {A} (R R' : relation A) l :
  (∀ a b, R a b → R' a b) → StronglySorted R l → StronglySorted R' l.
Proof.
  intros HR. induction 1 as [|x l Hs IH Hx]; constructor; [done|].
  eapply Forall_impl; [exact Hx|]. auto.
Qed.

Lemma NoDup_StronglySorted {A} (l : list A) : NoDup l → StronglySorted (≠) l.
Proof.
  induction 1 as [|x l Hx Hl IH]; constructor; [done|].
  apply Forall_forall. intros y Hy ->. done.
Qed.

(** The keys of the groups are in strictly ascending order. *)
Lemma group_keys_sorted ks : StronglySorted before (group_keys ks).
Proof.
  unfold group_keys.
  eapply StronglySorted_impl;
    [|apply (stable_sort_then String.leb String.leb_total) with (K := (≠))].
  - intros a b [Hab Hne]. apply leb_before in Hab as [?| ->]; [done|].
    exfalso. apply Hne; [|done]. apply leb_before. by right.
  - intros a b c [Hab| ->]%leb_before [Hbc| ->]%leb_before; apply leb_before;
      eauto using before_trans.
  - apply NoDup_StronglySorted, NoDup_unique.
Qed.

Lemma elem_of_group_keys ks k : k ∈ group_keys ks ↔ Some k ∈ ks.
Proof.
  unfold group_keys. rewrite elem_of_stable_sort, elem_of_unique, list_elem_of_omap.
  split; [intros (o & Ho & Hk); by simplify_eq/=|]. intros H. exists (Some k). done.
Qed.

Lemma Qle_bool_total a b : Qle_bool a b = true ∨ Qle_bool b a = true.
Proof. rewrite !Qle_bool_iff. destruct (Qlt_le_dec a b); [left|right]; lra. Qed.

Lemma Qle_bool_trans a b c :
  Qle_bool a b = true → Qle_bool b c = true → Qle_bool a c = true.
Proof. rewrite !Qle_bool_iff. lra. Qed.

(** [sort_values_desc] ranks the groups of a [groupby]: larger values
    first, and among equal values the smaller label first. *)
Lemma sort_values_desc_ranked (l : list (string * Q)) :
  StronglySorted (fun a b => before a.1 b.1) l →
  StronglySorted ranks_before (sort_values_desc l).
Proof.
  intros Hl. unfold sort_values_desc.
  apply StronglySorted_rev in Hl.
  apply (stable_sort_then (fun a b : string * Q => Qle_bool a.2 b.2)) in Hl;
    [|intros; apply Qle_bool_total|intros ???; apply Qle_bool_trans].
  apply StronglySorted_rev in Hl.
  eapply StronglySorted_impl; [|exact Hl].
  intros a b [Hba Hk]. unfold flip, ranks_before in *.
  rewrite Qle_bool_iff in Hba, Hk.
  destruct (Qlt_le_dec b.2 a.2) as [Hlt|Hle]; [by left|right].
  split; [lra|]. by apply Hk.
Qed.

Lemma sort_values_desc_perm l : sort_values_desc l ≡ₚ l.
Proof.
  unfold sort_values_desc.
  by rewrite <-Permutation_rev, stable_sort_perm, <-Permutation_rev.
Qed.

(** * Sums *)

Lemma foldl_Qplus a l : (foldl Qplus a l == a + Qsum l)%Q.
Proof.
  unfold Qsum. revert a. induction l as [|x l IH]; intros a; simpl; [lra|].
  rewrite (IH (a + x)%Q), (IH (0 + x)%Q). lra.
Qed.

Lemma Qsum_cons x l : (Qsum (x :: l) == x + Qsum l)%Q.
Proof. unfold Qsum at 1. simpl. rewrite foldl_Qplus. lra. Qed.

Lemma Qsum_nil : Qsum [] = 0%Q.
Proof. done. Qed.

Lemma Qsum_app l k : (Qsum (l ++ k) == Qsum l + Qsum k)%Q.
Proof.
  induction l as [|x l IH]; simpl; [rewrite Qsum_nil; lra|].
  rewrite !Qsum_cons, IH. lra.
Qed.

Lemma Qsum_nonneg l : Forall (fun q => (0 <= q)%Q) l → (0 <= Qsum l)%Q.
Proof.
  induction 1 as [|x l Hx Hl IH]; [by rewrite Qsum_nil|].
  rewrite Qsum_cons. lra.
Qed.

(** * Group by *)

Lemma select_fmap_fmap {A B} (p : A → bool) (g : A → B) (l : list A) :
  select (p <$> l) (g <$> l) = g <$> List.filter p l.
Proof.
  induction l as [|x l IH]; csimpl; [done|].
  destruct (p x); csimpl; by rewrite IH.
Qed.

Lemma mapM_fmap_Some {A B C} (f : B → option C) (h : A → B) (l : list A) ks d :
  mapM f (h <$> l) = Some ks → ks = (fun x => default d (f (h x))) <$> l.
Proof.
  intros H%mapM_Some. apply Forall2_fmap_l in H.
  induction H as [|x k l ks Hx H IH]; csimpl; [done|].
  rewrite Hx. simpl. by f_equal.
Qed.

Lemma omap_id_fmap {A B} (f : A → option B) (l : list A) :
  omap id (f <$> l) = omap f l.
Proof. induction l as [|x l IH]; csimpl; [done|]. by rewrite IH. Qed.

Lemma omap_ext_all {A B} (f g : A → option B) (l : list A) :
  (∀ x, f x = g x) → omap f l = omap g l.
Proof. intros H. induction l as [|x l IH]; csimpl; [done|]. by rewrite H, IH. Qed.

Lemma as_text_key c k :
  default None (as_text c) = Some k ↔ c = Str k.
Proof. destruct c; simpl; naive_solver. Qed.

Lemma group_values_rows df key col i j ks vs k :
  get_loc key (columns df) = Some i → get_loc col (columns df) = Some j →
  mapM as_text ((fun r => r !!! i) <$> rows df) = Some ks →
  mapM as_number ((fun r => r !!! j) <$> rows df) = Some vs →
  group_values k ks vs = numbers df col (rows_where df key k).
Proof.
  intros Hi Hj Hks Hvs.
  apply (mapM_fmap_Some _ _ _ _ None) in Hks, Hvs. subst ks vs.
  unfold group_values, numbers, rows_where.
  rewrite <-list_fmap_compose, select_fmap_fmap, omap_id_fmap.
  rewrite (filter_ext _ (fun r => bool_decide (at_col df key r = Some (Str k)))).
  - apply omap_ext_all. intros r. unfold at_col. rewrite Hj. simpl.
    by destruct (r !!! j).
  - intros r. simpl. apply bool_decide_ext. unfold at_col. rewrite Hi. simpl.
    rewrite as_text_key. split; [by intros ->|by intros [= ->]].
Qed.

Lemma groupby_sum_Some df key col g :
  groupby_sum df key col = Some g →
  ∃ ks, g = (fun k => (k, Qsum (numbers df col (rows_where df key k)))) <$> ks
    ∧ StronglySorted before ks
    ∧ ∀ k, k ∈ ks ↔ ∃ r, r ∈ rows df ∧ at_col df key r = Some (Str k).
Proof.
  unfold groupby_sum, getitem. intros H.
  destruct (get_loc key (columns df)) as [i|] eqn:Hi; [|done]. simpl in H.
  destruct (mapM as_text _) as [ks|] eqn:Hks; [|done]. simpl in H.
  destruct (get_loc col (columns df)) as [j|] eqn:Hj; [|done]. simpl in H.
  destruct (mapM as_number _) as [vs|] eqn:Hvs; [|done]. simpl in H.
  simplify_eq. exists (group_keys ks). split; [|split].
  - apply list_fmap_ext. intros _ k _. f_equal. f_equal.
    by eapply group_values_rows.
  - apply group_keys_sorted.
  - intros k. rewrite elem_of_group_keys.
    apply (mapM_fmap_Some _ _ _ _ None) in Hks. subst ks.
    rewrite list_elem_of_fmap. unfold at_col. rewrite Hi. simpl.
    split; intros (r & H1 & H2); exists r.
    + symmetry in H1. apply (proj1 (as_text_key _ _)) in H1. by rewrite H1.
    + split; [|done]. injection H2 as ->. done.
Qed.

Lemma groupby_sum_total sch df key col :
  typed sch df → sch key = KText → sch col = KNum →
  is_Some (get_loc key (columns df)) → is_Some (get_loc col (columns df)) →
  is_Some (groupby_sum df key col).
Proof.
  intros Ht Hk Hc [i Hi] [j Hj]. unfold groupby_sum, getitem. rewrite Hi, Hj. simpl.
  destruct (mapM_is_Some_2 as_text ((fun r => r !!! i) <$> rows df)) as [ks ->].
  { apply Forall_fmap, Forall_forall. intros r Hr. simpl.
    assert (has_kind KText (r !!! i)) as Hkind.
    { rewrite <-Hk. eapply typed_at_col; [done..|]. unfold at_col. by rewrite Hi. }
    by destruct (r !!! i). }
  simpl.
  destruct (mapM_is_Some_2 as_number ((fun r => r !!! j) <$> rows df)) as [vs ->].
  { apply Forall_fmap, Forall_forall. intros r Hr. simpl.
    assert (has_kind KNum (r !!! j)) as Hkind.
    { rewrite <-Hc. eapply typed_at_col; [done..|]. unfold at_col. by rewrite Hj. }
    by destruct (r !!! j). }
  simpl. eauto.
Qed.

(** The ranking of the groups: ordered by [ranks_before], one entry per
    key that occurs, with the sum of the rows of the key. *)
Lemma groupby_ranking df key col g :
  groupby_sum df key col = Some g →
  StronglySorted ranks_before (sort_values_desc g)
  ∧ NoDup (sort_values_desc g).*1
  ∧ ∀ k v, (k, v) ∈ sort_values_desc g ↔
      (∃ r, r ∈ rows df ∧ at_col df key r = Some (Str k))
      ∧ v = Qsum (numbers df col (rows_where df key k)).
Proof.
  intros (ks & -> & Hs & Hks)%groupby_sum_Some. split; [|split].
  - apply sort_values_desc_ranked.
    eapply StronglySorted_fmap; [|exact Hs]. done.
  - rewrite sort_values_desc_perm, <-list_fmap_compose.
    rewrite (list_fmap_ext _ id ks) by done. rewrite list_fmap_id.
    clear Hks. induction Hs as [|k ks Hs IH Hk]; constructor; [|done].
    intros Hin. rewrite Forall_forall in Hk. by apply Hk, before_irrefl in Hin.
  - intros k v. rewrite sort_values_desc_perm, list_elem_of_fmap, <-Hks.
    split; [intros (k' & [= -> ->] & Hin); done|].
    intros [Hin ->]. eauto.
Qed.

(** * The filtered subset *)

Lemma subset_typed pd pn file df sel sub :
  load_data pd pn file = Some df → filter_frame df sel = Some sub →
  typed loaded_schema sub.
Proof.
  intros Hl Hf. eapply typed_filter_frame; [|exact Hf]. by eapply load_data_typed.
Qed.

Lemma subset_labels pd pn file df sel sub name :
  load_data pd pn file = Some df → filter_frame df sel = Some sub →
  name ∈ loaded_labels → is_Some (get_loc name (columns sub)).
Proof.
  intros Hl Hf Hn. rewrite (filter_frame_columns _ _ _ Hf).
  by eapply load_data_labels.
Qed.

Lemma subset_groupby pd pn file df sel sub key col :
  load_data pd pn file = Some df → filter_frame df sel = Some sub →
  key ∈ ["Region"; "Segment"; "Category"; "SubCategory"; "CustomerName"]%string →
  col ∈ ["Sales"; "Profit"]%string →
  is_Some (groupby_sum sub key col).
Proof.
  intros Hl Hf Hk Hc.
  eapply groupby_sum_total; [by eapply subset_typed| | |
    eapply subset_labels; [done..|] | eapply subset_labels; [done..|] ].
  - repeat (apply elem_of_cons in Hk as [->|Hk]; [done|]). by apply elem_of_nil in Hk.
  - repeat (apply elem_of_cons in Hc as [->|Hc]; [done|]). by apply elem_of_nil in Hc.
  - unfold loaded_labels, critical. set_solver.
  - unfold loaded_labels, critical. set_solver.
Qed.

(** * The top customers *)




(** * Sums over groups *)

Lemma numbers_cons df col r rs :
  numbers df col (r :: rs) =
  match at_col df col r with
  | Some (Num q) => q :: numbers df col rs
  | _ => numbers df col rs
  end.
Proof. unfold numbers. csimpl. destruct (at_col df col r) as [[]|]; done. Qed.

Lemma Qsum_numbers_split df col (p q : list cell → bool) l :
  (∀ r, r ∈ l → p r = true → q r = true → False) →
  (Qsum (numbers df col (List.filter (fun r => p r || q r) l))
   == Qsum (numbers df col (List.filter p l))
      + Qsum (numbers df col (List.filter q l)))%Q.
Proof.
  induction l as [|r l IH]; intros Hd; simpl; [rewrite !Qsum_nil; lra|].
  assert (IH' := IH (fun r' Hr' => Hd r' (list_elem_of_further _ _ _ Hr'))).
  specialize (Hd r (list_elem_of_here _ _)).
  destruct (p r), (q r); simpl; rewrite ?numbers_cons;
    try (exfalso; by apply Hd);
    destruct (at_col df col r) as [[]|]; rewrite ?Qsum_cons, ?IH'; lra.
Qed.

Lemma Qsum_numbers_filter_le df col (p : list cell → bool) l :
  (∀ r q, r ∈ l → at_col df col r = Some (Num q) → (0 <= q)%Q) →
  (Qsum (numbers df col (List.filter p l)) <= Qsum (numbers df col l))%Q.
Proof.
  induction l as [|r l IH]; intros Hpos; simpl; [lra|].
  assert (IH' := IH (fun r' q Hr' => Hpos r' q (list_elem_of_further _ _ _ Hr'))).
  specialize (Hpos r). 
  destruct (p r); rewrite ?numbers_cons;
    destruct (at_col df col r) as [[| |q|]|]; rewrite ?Qsum_cons; try lra.
  specialize (Hpos q (list_elem_of_here _ _) eq_refl). lra.
Qed.

(** The sums of distinct groups add up to the sum over their rows. *)
Lemma numbers_among df key col ks :
  NoDup ks →
  (Qsum ((fun k => Qsum (numbers df col (rows_where df key k))) <$> ks)
   == Qsum (numbers df col (rows_among df key ks)))%Q.
Proof.
  induction 1 as [|k ks Hk Hks IH]; csimpl.
  - unfold rows_among. rewrite List_filter_none by done. done.
  - rewrite Qsum_cons, IH. unfold rows_among, rows_where. simpl.
    rewrite Qsum_numbers_split; [lra|].
    intros r _ Hp%bool_decide_eq_true (k' & Hk'%list_elem_of_In & Hq)%existsb_exists.
    apply bool_decide_eq_true in Hq. congruence.
Qed.

Lemma sum_series_numbers df col j total :
  get_loc col (columns df) = Some j →
  sum_series ((fun r => r !!! j) <$> rows df) = Some total →
  total = Qsum (numbers df col (rows df)).
Proof.
  intros Hj. unfold sum_series.
  destruct (mapM as_number _) as [vs|] eqn:Hvs; [|done]. simpl. intros [= <-].
  apply (mapM_fmap_Some _ _ _ _ None) in Hvs. subst vs.
  rewrite omap_id_fmap. f_equal. apply omap_ext_all. intros r.
  unfold at_col. rewrite Hj. simpl. by destruct (r !!! j).
Qed.

Lemma sum_series_total sch df col :
  typed sch df → sch col = KNum → is_Some (get_loc col (columns df)) →
  is_Some (getitem df col ≫= sum_series).
Proof.
  intros Ht Hc [j Hj]. unfold getitem, sum_series. rewrite Hj. simpl.
  destruct (mapM_is_Some_2 as_number ((fun r => r !!! j) <$> rows df)) as [vs ->];
    [|simpl; eauto].
  apply Forall_fmap, Forall_forall. intros r Hr. simpl.
  assert (has_kind KNum (r !!! j)) as Hkind.
  { rewrite <-Hc. eapply typed_at_col; [done..|]. unfold at_col. by rewrite Hj. }
  by destruct (r !!! j).
Qed.

Lemma fmap_snd_by_fst {A B} (F : A → B) (l : list (A * B)) :
  Forall (fun p => p.2 = F p.1) l → l.*2 = F <$> l.*1.
Proof. induction 1 as [|[a b] l Hp Hl IH]; csimpl; [done|]. simpl in Hp. congruence. Qed.



(** * Assigning a column *)

Lemma positions_app name l1 l2 k :
  positions name (l1 ++ l2) k = positions name l1 k ++ positions name l2 (k + length l1).
Proof.
  revert k. induction l1 as [|c l1 IH]; intros k; simpl.
  - by rewrite Nat.add_0_r.
  - rewrite IH. replace (S k + length l1) with (k + S (length l1)) by lia.
    by destruct (decide (c = name)).
Qed.

Lemma get_loc_app_ne name m cols :
  name ≠ m → get_loc name (cols ++ [m]) = get_loc name cols.
Proof.
  intros Hne. unfold get_loc. rewrite positions_app. simpl.
  rewrite decide_False by done. by rewrite app_nil_r.
Qed.

Lemma get_loc_app_new m cols :
  m ∉ cols → get_loc m (cols ++ [m]) = Some (length cols).
Proof.
  intros Hn%positions_nil. unfold get_loc. rewrite positions_app, Hn. simpl.
  by rewrite decide_True.
Qed.

Lemma typed_row_length sch df r :
  typed sch df → r ∈ rows df → length r = length (columns df).
Proof.
  unfold typed. rewrite Forall_forall. intros Ht Hr.
  symmetry. eapply Forall2_length, Ht, Hr.
Qed.

(** After [df[name] = s] the column [name] holds [s] and the other
    columns are as they were. *)
Lemma setitem_rows sch df name s e :
  typed sch df → at_most_one name df → setitem df name s = Some e →
  is_Some (get_loc name (columns e))
  ∧ (∀ n, n ≠ name → get_loc n (columns e) = get_loc n (columns df))
  ∧ Forall2 (fun r' rc => at_col e name r' = Some rc.2
                          ∧ ∀ n, n ≠ name → at_col e n r' = at_col df n rc.1)
            (rows e) (zip (rows df) s).
Proof.
  intros Ht Hone. unfold setitem. case_decide as Hlen; [|done].
  unfold at_most_one in Hone.
  destruct (positions name (columns df) 0) as [|p [|? ?]] eqn:Hp;
    [| |simpl in Hone; lia]; intros [= <-].
  - apply positions_nil in Hp. unfold at_col. simpl.
    rewrite (get_loc_app_new _ _ Hp). split; [by eexists|].
    split; [intros n Hn; by apply get_loc_app_ne|].
    apply Forall2_same_length_lookup. split.
    { by rewrite length_zip_with, length_zip, Hlen, !Nat.min_id. }
    intros i r' [r c]. rewrite lookup_zip_with, lookup_zip_Some. simpl.
    intros Hr' [Hr Hc]. rewrite Hr, Hc in Hr'. simpl in Hr'. simplify_eq.
    pose proof (typed_row_length _ _ r Ht (list_elem_of_lookup_2 _ _ _ Hr)) as Hl.
    split.
    + simpl. f_equal. apply list_lookup_total_correct.
      rewrite lookup_app_r by lia. by rewrite Hl, Nat.sub_diag.
    + intros n Hn. rewrite (get_loc_app_ne _ _ _ Hn).
      destruct (get_loc n (columns df)) as [j|] eqn:Hj; [|done]. simpl. f_equal.
      apply get_loc_Some, lookup_lt_Some in Hj.
      rewrite !list_lookup_total_alt, lookup_app_l by lia. done.
  - assert (Hloc : get_loc name (columns df) = Some p).
    { unfold get_loc. by rewrite Hp. }
    unfold at_col. simpl. rewrite Hloc. split; [by eexists|]. split; [done|].
    apply Forall2_same_length_lookup. split.
    { by rewrite length_zip_with, length_zip, Hlen, !Nat.min_id. }
    intros i r' [r c]. rewrite lookup_zip_with, lookup_zip_Some. simpl.
    intros Hr' [Hr Hc]. rewrite Hr, Hc in Hr'. simpl in Hr'. simplify_eq.
    pose proof (typed_row_length _ _ r Ht (list_elem_of_lookup_2 _ _ _ Hr)) as Hl.
    pose proof (lookup_lt_Some _ _ _ (get_loc_Some _ _ _ Hloc)) as Hlt.
    split.
    + simpl. f_equal. apply list_lookup_total_correct.
      apply list_lookup_insert_eq. lia.
    + intros n Hn.
      destruct (get_loc n (columns df)) as [j|] eqn:Hj; [|done]. simpl. f_equal.
      rewrite !list_lookup_total_alt, list_lookup_insert_ne; [done|].
      intros ->. apply get_loc_Some in Hj, Hloc. congruence.
Qed.

(** * The month column *)

Lemma na_values_no_dash :
  Forall (fun t => String.get 4 t ≠ Some (Py.chr 45)) Csv.na_values.
Proof. repeat constructor; intros H; vm_compute in H; discriminate H. Qed.

Lemma period_str_not_na d : period_str d ∉ Csv.na_values.
Proof.
  intros H. pose proof na_values_no_dash as HF. rewrite Forall_forall in HF.
  by apply (HF _ H).
Qed.

Lemma NaT_not_na : "NaT"%string ∉ Csv.na_values.
Proof.
  intros H. unfold Csv.na_values in H.
  repeat (apply elem_of_cons in H as [H|H]; [discriminate H|]).
  by apply elem_of_nil in H.
Qed.

Lemma month_cell_kind c m : month_cell c = Some m → has_kind KText m.
Proof.
  destruct c; simpl; intros [= <-]; cbn [has_kind]; apply bool_decide_pack.
  - apply NaT_not_na.
  - apply period_str_not_na.
Qed.

Lemma month_series_kind s m :
  month_series s = Some m → Forall (fun c => has_kind KText c) m.
Proof.
  intros H%mapM_Some. induction H; constructor; eauto using month_cell_kind.
Qed.

Lemma month_series_column sch df i :
  typed sch df → sch "OrderDate" = KDate →
  get_loc "OrderDate" (columns df) = Some i →
  ∃ m, month_series ((fun r => r !!! i) <$> rows df) = Some m
     ∧ m = (fun r => default NaN (month_cell (r !!! i))) <$> rows df
     ∧ Forall (fun r => is_Some (month_cell (r !!! i))) (rows df).
Proof.
  intros Ht Hk Hi.
  assert (HF : Forall (fun r => is_Some (month_cell (r !!! i))) (rows df)).
  { apply Forall_forall. intros r Hr.
    assert (has_kind KDate (r !!! i)) as Hkind.
    { rewrite <-Hk. eapply typed_at_col; [done..|]. unfold at_col. by rewrite Hi. }
    by destruct (r !!! i). }
  destruct (mapM_is_Some_2 month_cell ((fun r => r !!! i) <$> rows df)) as [m Hm].
  { by apply Forall_fmap. }
  exists m. split; [done|]. split; [|done].
  by apply (mapM_fmap_Some _ _ _ _ NaN) in Hm.
Qed.

Lemma loaded_schema_month n : with_kind "Month" KText loaded_schema n = loaded_schema n.
Proof. unfold with_kind. case_decide; [by subst|done]. Qed.

(** The frame that [df_filtered] names once the month column is set. *)
Lemma exported_Some pd pn file df sel sub :
  load_data pd pn file = Some df → filter_frame df sel = Some sub →
  at_most_one "Month" df →
  ∃ e, exported df sel = Some e
    ∧ typed loaded_schema e
    ∧ (∀ name, name ∈ loaded_labels → is_Some (get_loc name (columns e)))
    ∧ is_Some (get_loc "Month" (columns e))
    ∧ (∀ n, n ≠ "Month"%string → get_loc n (columns e) = get_loc n (columns sub))
    ∧ Forall2 (fun r' r => at_col e "Month" r' = at_col sub "OrderDate" r ≫= month_cell
                           ∧ ∀ n, n ≠ "Month"%string → at_col e n r' = at_col sub n r)
              (rows e) (rows sub).
Proof.
  intros Hl Hf Hone.
  pose proof (subset_typed _ _ _ _ _ _ Hl Hf) as Ht.
  destruct (subset_labels _ _ _ _ _ _ "OrderDate" Hl Hf) as [i Hi].
  { unfold loaded_labels. set_solver. }
  destruct (month_series_column _ _ _ Ht eq_refl Hi) as (m & Hm & Hmeq & Hsome).
  unfold exported. rewrite Hf. simpl. unfold with_month, getitem. rewrite Hi. simpl.
  rewrite Hm. simpl.
  destruct (setitem sub "Month" m) as [e|] eqn:He.
  2:{ unfold setitem in He. rewrite decide_True in He.
      - by destruct (positions _ _ _).
      - subst m. by rewrite length_fmap. }
  assert (Hone' : at_most_one "Month" sub).
  { unfold at_most_one. by rewrite (filter_frame_columns _ _ _ Hf). }
  destruct (setitem_rows _ _ _ _ _ Ht Hone' He) as (Hmonth & Hother & Hrows).
  exists e. split; [done|]. split; [|split; [|split; [done|split; [done|]]]].
  - eapply typed_ext; [apply loaded_schema_month|].
    eapply setitem_typed; [exact Ht| |exact He]. by eapply month_series_kind.
  - intros name Hn. rewrite Hother.
    + by eapply subset_labels.
    + intros ->. unfold loaded_labels, critical in Hn. set_solver.
  - apply Forall2_same_length_lookup. split.
    { apply Forall2_length in Hrows. rewrite Hrows, length_zip. subst m.
      rewrite length_fmap. lia. }
    intros k r' r Hr' Hr.
    assert (Hz : zip (rows sub) m !! k = Some (r, default NaN (month_cell (r !!! i)))).
    { apply lookup_zip_Some. split; [done|]. subst m.
      by rewrite list_lookup_fmap, Hr. }
    destruct (Forall2_lookup_lr _ _ _ _ _ _ Hrows Hr' Hz) as [H1 H2].
    split; [|done]. rewrite H1. simpl. unfold at_col. rewrite Hi. simpl.
    rewrite Forall_forall in Hsome.
    by destruct (Hsome r (list_elem_of_lookup_2 _ _ _ Hr)) as [c ->].
Qed.

Lemma exported_month pd pn file df sel sub e r :
  load_data pd pn file = Some df → filter_frame df sel = Some sub →
  at_most_one "Month" df → exported df sel = Some e → r ∈ rows e →
  at_col e "Month" r = at_col e "OrderDate" r ≫= month_cell.
Proof.
  intros Hl Hf Hone He Hr.
  destruct (exported_Some _ _ _ _ _ _ Hl Hf Hone) as (e' & He' & _ & _ & _ & _ & Hrows).
  simplify_eq. apply list_elem_of_lookup in Hr as [k Hk].
  destruct (Forall2_lookup_l _ _ _ _ _ Hrows Hk) as (r0 & _ & H1 & H2).
  rewrite H1, H2; done.
Qed.

(** * The order of the month texts *)

Lemma digit_code x : N_of_ascii (Csv.digit x) = N.of_nat (48 + x mod 10).
Proof.
  unfold Csv.digit, Py.chr, ascii_of_nat. apply N_ascii_embedding.
  pose proof (Nat.mod_upper_bound x 10). lia.
Qed.

Lemma digit_compare x y :
  Ascii.compare (Csv.digit x) (Csv.digit y) = Nat.compare (x mod 10) (y mod 10).
Proof.
  unfold Ascii.compare. rewrite !digit_code.
  destruct (Nat.compare_spec (x mod 10) (y mod 10));
    [apply N.compare_eq_iff|apply N.compare_lt_iff|apply N.compare_gt_iff]; lia.
Qed.

Lemma period_str_before_NaT d : before (period_str d) "NaT".
Proof.
  unfold before, period_str. cbn [Py.text string_of_list_ascii String.compare].
  assert (Ascii.compare (Csv.digit (year d / 1000)) "N" = Lt) as ->; [|done].
  unfold Ascii.compare. rewrite digit_code. apply N.compare_lt_iff.
  pose proof (Nat.mod_upper_bound (year d / 1000) 10).
  change (N_of_ascii "N") with 78%N. lia.
Qed.

Lemma digits4 y :
  y ≤ 2262 →
  y = 1000 * (y / 1000 mod 10) + 100 * (y / 100 mod 10) + 10 * (y / 10 mod 10)
      + y mod 10.
Proof.
  intros Hy.
  assert (y / 1000 < 10) as H4 by (apply Nat.Div0.div_lt_upper_bound; lia).
  rewrite (Nat.mod_small (y / 1000) 10) by exact H4.
  replace (y / 1000) with (y / 10 / 10 / 10)
    by (rewrite !Nat.Div0.div_div; reflexivity).
  replace (y / 100) with (y / 10 / 10) by (rewrite !Nat.Div0.div_div; reflexivity).
  pose proof (Nat.div_mod_eq y 10) as H1.
  pose proof (Nat.div_mod_eq (y / 10) 10) as H2.
  pose proof (Nat.div_mod_eq (y / 10 / 10) 10) as H3.
  lia.
Qed.

Lemma digits2 m : m ≤ 12 → m = 10 * (m / 10 mod 10) + m mod 10.
Proof.
  intros Hm.
  assert (m / 10 < 10) as H4 by (apply Nat.Div0.div_lt_upper_bound; lia).
  rewrite (Nat.mod_small (m / 10) 10) by exact H4.
  pose proof (Nat.div_mod_eq m 10) as H1. lia.
Qed.

(** On timestamps the order of the month texts is the order of the
    months. *)
Lemma period_str_compare d1 d2 :
  timestamp d1 → timestamp d2 →
  match String.compare (period_str d1) (period_str d2) with
  | Lt => earlier_month d1 d2
  | Eq => year d1 = year d2 ∧ month d1 = month d2
  | Gt => earlier_month d2 d1
  end.
Proof.
  intros [[_ Hy1] [_ Hm1]] [[_ Hy2] [_ Hm2]]. unfold period_str, earlier_month.
  cbn [Py.text string_of_list_ascii String.compare].
  rewrite !digit_compare.
  change (Ascii.compare (Py.chr 45) (Py.chr 45)) with Eq. cbv iota.
  apply digits4 in Hy1, Hy2. apply digits2 in Hm1, Hm2.
  revert Hy1 Hy2 Hm1 Hm2.
  generalize (year d1) (year d2) (month d1) (month d2). intros y1 y2 m1 m2.
  pose proof (Nat.mod_upper_bound (y1 / 1000) 10).
  pose proof (Nat.mod_upper_bound (y1 / 100) 10).
  pose proof (Nat.mod_upper_bound (y1 / 10) 10).
  pose proof (Nat.mod_upper_bound y1 10).
  pose proof (Nat.mod_upper_bound (y2 / 1000) 10).
  pose proof (Nat.mod_upper_bound (y2 / 100) 10).
  pose proof (Nat.mod_upper_bound (y2 / 10) 10).
  pose proof (Nat.mod_upper_bound y2 10).
  pose proof (Nat.mod_upper_bound (m1 / 10) 10).
  pose proof (Nat.mod_upper_bound m1 10).
  pose proof (Nat.mod_upper_bound (m2 / 10) 10).
  pose proof (Nat.mod_upper_bound m2 10).
  generalize dependent ((y1 / 1000) mod 10). generalize dependent ((y1 / 100) mod 10).
  generalize dependent ((y1 / 10) mod 10). generalize dependent (y1 mod 10).
  generalize dependent ((y2 / 1000) mod 10). generalize dependent ((y2 / 100) mod 10).
  generalize dependent ((y2 / 10) mod 10). generalize dependent (y2 mod 10).
  generalize dependent ((m1 / 10) mod 10). generalize dependent (m1 mod 10).
  generalize dependent ((m2 / 10) mod 10). generalize dependent (m2 mod 10).
  intros.
  repeat match goal with
         | |- context [Nat.compare ?a ?b] =>
             destruct (Nat.compare_spec a b); cbv iota
         end; lia.
Qed.

Lemma period_str_order d1 d2 :
  timestamp d1 → timestamp d2 →
  (before (period_str d1) (period_str d2) ↔ earlier_month d1 d2)
  ∧ (period_str d1 = period_str d2 ↔ year d1 = year d2 ∧ month d1 = month d2).
Proof.
  intros T1 T2. unfold before.
  pose proof (period_str_compare d1 d2 T1 T2) as H12.
  pose proof (period_str_compare d2 d1 T2 T1) as H21.
  rewrite (String.compare_antisym (period_str d2) (period_str d1)) in H21.
  pose proof (String_as_OT.cmp_eq (period_str d1) (period_str d2)) as Heq.
  unfold String_as_OT.cmp in Heq.
  destruct (String.compare (period_str d1) (period_str d2)) eqn:E;
    simpl in H21; unfold earlier_month in *.
  - split; split; try done; try lia. intros _. by apply Heq.
  - split; split; try done; try lia. intros Hs. apply Heq in Hs. done.
  - split; split; try done; try lia. intros Hs. apply Heq in Hs. done.
Qed.

(** * The monthly series *)

Lemma text_column sch df name :
  typed sch df → sch name = KText → is_Some (get_loc name (columns df)) →
  is_Some (getitem df name ≫= mapM as_text).
Proof.
  intros Ht Hk [i Hi]. unfold getitem. rewrite Hi. simpl.
  apply mapM_is_Some_2, Forall_fmap, Forall_forall. intros r Hr. simpl.
  assert (has_kind KText (r !!! i)) as Hkind.
  { rewrite <-Hk. eapply typed_at_col; [done..|]. unfold at_col. by rewrite Hi. }
  by destruct (r !!! i).
Qed.

Lemma number_column sch df name :
  typed sch df → sch name = KNum → is_Some (get_loc name (columns df)) →
  is_Some (getitem df name ≫= mapM as_number).
Proof.
  intros Ht Hk [i Hi]. unfold getitem. rewrite Hi. simpl.
  apply mapM_is_Some_2, Forall_fmap, Forall_forall. intros r Hr. simpl.
  assert (has_kind KNum (r !!! i)) as Hkind.
  { rewrite <-Hk. eapply typed_at_col; [done..|]. unfold at_col. by rewrite Hi. }
  by destruct (r !!! i).
Qed.

Lemma monthly_Some e res :
  monthly e = Some res →
  ∃ ks,
    res = (fun k => (k, Qsum (numbers e "Sales" (rows_where e "Month" k)),
                     Qsum (numbers e "Profit" (rows_where e "Month" k)))) <$> ks
    ∧ StronglySorted before ks
    ∧ ∀ k, k ∈ ks ↔ ∃ r, r ∈ rows e ∧ at_col e "Month" r = Some (Str k).
Proof.
  unfold monthly, getitem. intros H.
  destruct (get_loc "Month" (columns e)) as [i|] eqn:Hi; [|done]. simpl in H.
  destruct (mapM as_text _) as [ks|] eqn:Hks; [|done]. simpl in H.
  destruct (get_loc "Sales" (columns e)) as [j|] eqn:Hj; [|done]. simpl in H.
  destruct (mapM as_number _) as [vs|] eqn:Hvs; [|done]. simpl in H.
  destruct (get_loc "Profit" (columns e)) as [j'|] eqn:Hj'; [|done]. simpl in H.
  destruct (mapM as_number _) as [ps|] eqn:Hps in H; [|done]. simpl in H.
  simplify_eq. exists (group_keys ks). split; [|split].
  - apply list_fmap_ext. intros _ k _. f_equal; [f_equal|]; f_equal;
      by eapply group_values_rows.
  - apply group_keys_sorted.
  - intros k. rewrite elem_of_group_keys.
    apply (mapM_fmap_Some _ _ _ _ None) in Hks. subst ks.
    rewrite list_elem_of_fmap. unfold at_col. rewrite Hi. simpl.
    split; intros (r & H1 & H2); exists r.
    + symmetry in H1. apply (proj1 (as_text_key _ _)) in H1. by rewrite H1.
    + split; [|done]. injection H2 as ->. done.
Qed.

Lemma monthly_total sch e :
  typed sch e → sch "Month" = KText → sch "Sales" = KNum → sch "Profit" = KNum →
  is_Some (get_loc "Month" (columns e)) → is_Some (get_loc "Sales" (columns e)) →
  is_Some (get_loc "Profit" (columns e)) →
  is_Some (monthly e).
Proof.
  intros Ht H1 H2 H3 L1 L2 L3. unfold monthly.
  destruct (text_column _ _ "Month" Ht H1 L1) as [ks ->]. simpl.
  destruct (number_column _ _ "Sales" Ht H2 L2) as [vs ->]. simpl.
  destruct (number_column _ _ "Profit" Ht H3 L3) as [ps ->]. simpl. eauto.
Qed.

Lemma exported_monthly pd pn file df sel sub :
  load_data pd pn file = Some df → filter_frame df sel = Some sub →
  at_most_one "Month" df →
  ∃ e res, exported df sel = Some e ∧ monthly e = Some res.
Proof.
  intros Hl Hf Hone.
  destruct (exported_Some _ _ _ _ _ _ Hl Hf Hone) as (e & He & Ht & Hlab & Hm & _).
  destruct (monthly_total loaded_schema e) as [res Hres]; try done;
    try (apply Hlab; unfold loaded_labels, critical; set_solver).
  eauto.
Qed.

Lemma monthly_sorted ks (F : string → string * Q * Q) :
  (∀ k, (F k).1.1 = k) → StronglySorted before ks →
  StronglySorted (fun a b => before a.1.1 b.1.1) (F <$> ks)
  ∧ NoDup (F <$> ks).*1.*1.
Proof.
  intros HF Hs. split.
  - eapply StronglySorted_fmap; [|exact Hs]. intros a b. by rewrite !HF.
  - rewrite <-!list_fmap_compose. rewrite (list_fmap_ext _ id ks)
      by (intros; simpl; apply HF).
    rewrite list_fmap_id. induction Hs as [|k ks' Hs IH Hk]; constructor; [|done].
    intros Hin. rewrite Forall_forall in Hk. by apply Hk, before_irrefl in Hin.
Qed.



(** * Records without a date *)

Lemma to_datetime_unparsed pd (s : list cell) i t :
  s !! i = Some (Str t) → pd (text_of <$> s) !! i = Some None →
  (to_datetime pd s : list cell) !! i = Some NaN.
Proof.
  intros Hs Hp. unfold to_datetime. rewrite lookup_zip_with, Hs. simpl.
  by rewrite Hp.
Qed.

Lemma month_cell_NaT c : month_cell c = Some (Str "NaT") ↔ c = NaN.
Proof.
  destruct c; simpl; split; done.
Qed.

(** C10.  A record whose OrderDate could not be read, and whose seven
    mandatory fields are present, stays in the cleaned table with the
    missing date; in the monthly series the records without a date make
    one bucket of their own, labelled NaT, and every bucket of a month
    comes before it. *)
Theorem unparsed_date_bucket pd pn file dfc df sel sub :
  coerced pd pn file = Some dfc → load_data pd pn file = Some df →
  filter_frame df sel = Some sub → at_most_one "Month" df →
  (∀ (s : list cell) i t,
     s !! i = Some (Str t) → pd (text_of <$> s) !! i = Some None →
     (to_datetime pd s : list cell) !! i = Some NaN)
  ∧ (∀ r, r ∈ rows dfc → at_col dfc "OrderDate" r = Some NaN →
       (∀ name, name ∈ critical → ∃ c, at_col dfc name r = Some c ∧ c ≠ NaN) →
       r ∈ rows df ∧ at_col df "OrderDate" r = Some NaN)
  ∧ ∃ e res,
      exported df sel = Some e ∧ monthly e = Some res
      ∧ (∀ r, r ∈ rows e →
           (at_col e "Month" r = Some (Str "NaT") ↔ at_col e "OrderDate" r = Some NaN))
      ∧ (∀ s p, ("NaT"%string, s, p) ∈ res ↔
           (∃ r, r ∈ rows e ∧ at_col e "OrderDate" r = Some NaN)
           ∧ s = Qsum (numbers e "Sales" (rows_where e "Month" "NaT"))
           ∧ p = Qsum (numbers e "Profit" (rows_where e "Month" "NaT")))
      ∧ NoDup res.*1.*1
      ∧ StronglySorted (fun a b => before a.1.1 b.1.1) res
      ∧ (∀ k s p, (k, s, p) ∈ res →
           k = "NaT"%string ∨ ∃ d, k = period_str d ∧ before k "NaT").
Proof.
  intros Hc Hl Hf Hone. split; [apply to_datetime_unparsed|]. split.
  { intros r Hr Hd Hcrit.
    apply load_data_Some in Hl as (dfc' & Hc' & Hdrop). simplify_eq.
    split; [by eapply dropna_retains|].
    unfold at_col in *. by rewrite (dropna_columns _ _ _ Hdrop). }
  destruct (exported_Some _ _ _ _ _ _ Hl Hf Hone)
    as (e & He & Ht & Hlab & Hm & _ & _).
  destruct (exported_monthly _ _ _ _ _ _ Hl Hf Hone) as (e' & res & He' & Hres).
  simplify_eq. exists e, res. split; [done|]. split; [done|].
  assert (Hmonth : ∀ r, r ∈ rows e →
            at_col e "Month" r = at_col e "OrderDate" r ≫= month_cell).
  { intros r Hr. by eapply exported_month. }
  assert (HNaT : ∀ r, r ∈ rows e →
            (at_col e "Month" r = Some (Str "NaT") ↔ at_col e "OrderDate" r = Some NaN)).
  { intros r Hr. rewrite (Hmonth r Hr).
    destruct (at_col e "OrderDate" r) as [c|]; simpl; [|done].
    rewrite month_cell_NaT. split; congruence. }
  split; [done|].
  apply monthly_Some in Hres as (ks & -> & Hs & Hks).
  destruct (monthly_sorted ks
    (fun k => (k, Qsum (numbers e "Sales" (rows_where e "Month" k)),
               Qsum (numbers e "Profit" (rows_where e "Month" k)))))
    as [Hsorted Hnd]; [done..|].
  split; [|split; [done|split; [done|]]].
  - intros s p. rewrite list_elem_of_fmap. split.
    + intros (k & [= <- -> ->] & [r [Hr Hk]]%Hks). split; [|done].
      exists r. split; [done|]. by apply HNaT.
    + intros ((r & Hr & Hd) & -> & ->). exists "NaT"%string. split; [done|].
      apply Hks. exists r. split; [done|]. by apply HNaT.
  - intros k s p (k' & [= -> -> ->] & [r [Hr Hk]]%Hks)%list_elem_of_fmap.
    rewrite (Hmonth r Hr) in Hk.
    destruct (at_col e "OrderDate" r) as [[| | |d]|]; simplify_eq/=; [by left|right].
    exists d. split; [done|]. apply period_str_before_NaT.
Qed.

Lemma unparsed_date_bucket_witness :
  ∃ e res,
    exported Sample.table Sample.east = Some e ∧ monthly e = Some res
    ∧ Sample.row3 ∈ rows Sample.table
    ∧ ("NaT"%string, 30%Q, 1%Q) ∈ res.
Proof.
  destruct (unparsed_date_bucket Sample.parse_dates Sample.parse_number Sample.file
              (mkFrame (columns Sample.table)
                 [ Sample.row1; Sample.row2; Sample.row3;
                   [ Str "o3"; Date (mkDate 2020 2 15); Date (mkDate 2020 2 17);
                     NaN; Num 1; Str "East"; Str "Corporate"; Str "Office";
                     Str "Paper"; Str "A" ];
                   [ Str "o4"; Date (mkDate 2020 2 15); Date (mkDate 2020 2 17);
                     Num 7; Num 1; NaN; Str "Corporate"; Str "Office";
                     Str "Paper"; Str "A" ] ])
              Sample.table Sample.east
              (mkFrame (columns Sample.table) [Sample.row1; Sample.row3]))
    as (_ & Hkept & e & res & He & Hres & _ & Hbucket & _).
  - vm_compute; reflexivity.
  - vm_compute; reflexivity.
  - vm_compute; reflexivity.
  - unfold at_most_one. vm_compute. lia.
  - exists e, res. split; [done|]. split; [done|]. split.
    + apply (Hkept Sample.row3).
      * apply (list_elem_of_lookup_2 _ 2). reflexivity.
      * reflexivity.
      * intros name Hn. unfold critical in Hn.
        repeat (apply elem_of_cons in Hn as [->|Hn]; [by eexists|]).
        by apply elem_of_nil in Hn.
    + vm_compute in He. injection He as <-. vm_compute in Hres. injection Hres as <-.
      apply (list_elem_of_lookup_2 _ 1). reflexivity.
Defined.

(** * The script and the store *)

Lemma run_bind {A B} (m : M A) (f : A → M B) σ a σ1 :
  m σ = Some (a, σ1) → (m ≫= f) σ = f a σ1.
Proof. unfold mbind, M_bind. by intros ->. Qed.

Lemma run_lift {A} (o : option A) a σ : o = Some a → lift o σ = Some (a, σ).
Proof. by intros ->. Qed.

Lemma run_read l d (σ : store) : σ !! l = Some d → read l σ = Some (d, σ).
Proof. unfold read. by intros ->. Qed.

Lemma run_setitem_inplace l name s d d' (σ : store) :
  σ !! l = Some d → setitem d name s = Some d' →
  setitem_inplace l name s σ = Some ((), <[l:=d']> σ).
Proof.
  intros Hl Hs. unfold setitem_inplace.
  rewrite (run_bind _ _ _ _ _ (run_read _ _ _ Hl)).
  rewrite (run_bind _ _ _ _ _ (run_lift _ _ _ Hs)).
  unfold write. by rewrite Hl.
Qed.

Lemma with_month_Some sub e :
  with_month sub = Some e →
  ∃ m, getitem sub "OrderDate" ≫= month_series = Some m ∧ setitem sub "Month" m = Some e.
Proof.
  unfold with_month. destruct (getitem sub "OrderDate" ≫= month_series); [|done].
  simpl. eauto.
Qed.

Lemma exported_groupby pd pn file df sel sub e key col :
  load_data pd pn file = Some df → filter_frame df sel = Some sub →
  at_most_one "Month" df → exported df sel = Some e →
  key ∈ ["Region"; "Segment"; "Category"; "SubCategory"; "CustomerName"]%string →
  col ∈ ["Sales"; "Profit"]%string →
  is_Some (groupby_sum e key col).
Proof.
  intros Hl Hf Hone He Hk Hc.
  destruct (exported_Some _ _ _ _ _ _ Hl Hf Hone) as (e' & He' & Ht & Hlab & _).
  simplify_eq.
  eapply groupby_sum_total; [done| | |apply Hlab|apply Hlab].
  - repeat (apply elem_of_cons in Hk as [->|Hk]; [done|]). by apply elem_of_nil in Hk.
  - repeat (apply elem_of_cons in Hc as [->|Hc]; [done|]). by apply elem_of_nil in Hc.
  - unfold loaded_labels, critical. set_solver.
  - unfold loaded_labels, critical. set_solver.
Qed.

(** One run of the script on a loaded table: every step succeeds, the
    filtered frame is a new object and the month column is set on it. *)
Lemma script_runs frepr pd pn file df (σ : store) l choose :
  load_data pd pn file = Some df → σ !! l = Some df →
  is_Some (get_loc "OrderID" (columns df)) → at_most_one "Month" df →
  ∃ opts sub e sales profit orders top seg mon reg cat subc,
    options df = Some opts
    ∧ filter_frame df (choose opts) = Some sub
    ∧ exported df (choose opts) = Some e
    ∧ getitem sub "Sales" ≫= sum_series = Some sales
    ∧ getitem sub "Profit" ≫= sum_series = Some profit
    ∧ nunique <$> getitem sub "OrderID" = Some orders
    ∧ top_customers sub = Some top
    ∧ segment_sales sub = Some seg
    ∧ monthly e = Some mon
    ∧ region_sales e = Some reg
    ∧ category_sales e = Some cat
    ∧ subcategory_profit e = Some subc
    ∧ script frepr l choose σ
      = Some (mkView sales profit orders top seg mon reg cat subc
                (Py.encode_utf8 (to_csv frepr e)),
              <[fresh (dom σ) := e]> (<[fresh (dom σ) := sub]> σ)).
Proof.
  intros Hl Hσ [o Ho] Hone.
  destruct (options_total _ _ _ _ Hl) as [opts Hopts].
  destruct (filter_frame_total df (choose opts)) as [sub Hf];
    try (eapply load_data_labels; [exact Hl|unfold loaded_labels, critical; set_solver]).
  pose proof (subset_typed _ _ _ _ _ _ Hl Hf) as Ht.
  destruct (exported_Some _ _ _ _ _ _ Hl Hf Hone) as (e & He & Hte & Hlab & Hm & _).
  destruct (sum_series_total loaded_schema sub "Sales") as [sales Hsales];
    [done|done|eapply subset_labels; [done..|unfold loaded_labels, critical; set_solver]|].
  destruct (sum_series_total loaded_schema sub "Profit") as [profit Hprofit];
    [done|done|eapply subset_labels; [done..|unfold loaded_labels, critical; set_solver]|].
  assert (Horders : nunique <$> getitem sub "OrderID"
                    = Some (nunique ((fun r => r !!! o) <$> rows sub))).
  { unfold getitem. by rewrite (filter_frame_columns _ _ _ Hf), Ho. }
  destruct (subset_groupby _ _ _ _ _ _ "CustomerName" "Sales" Hl Hf) as [g1 Hg1];
    [set_solver..|].
  destruct (subset_groupby _ _ _ _ _ _ "Segment" "Sales" Hl Hf) as [g2 Hg2];
    [set_solver..|].
  destruct (exported_monthly _ _ _ _ _ _ Hl Hf Hone) as (e' & mon & He' & Hmon).
  simplify_eq.
  destruct (exported_groupby _ _ _ _ _ _ _ "Region" "Sales" Hl Hf Hone He) as [g3 Hg3];
    [set_solver..|].
  destruct (exported_groupby _ _ _ _ _ _ _ "Category" "Sales" Hl Hf Hone He) as [g4 Hg4];
    [set_solver..|].
  destruct (exported_groupby _ _ _ _ _ _ _ "SubCategory" "Profit" Hl Hf Hone He)
    as [g5 Hg5]; [set_solver..|].
  assert (Htop : top_customers sub = Some (take 5 (sort_values_desc g1))).
  { unfold top_customers. by rewrite Hg1. }
  assert (Hreg : region_sales e = Some (sort_values_desc g3)).
  { unfold region_sales. by rewrite Hg3. }
  assert (Hcat : category_sales e = Some (sort_values_desc g4)).
  { unfold category_sales. by rewrite Hg4. }
  assert (Hsubc : subcategory_profit e = Some (take 10 (sort_values_desc g5))).
  { unfold subcategory_profit. by rewrite Hg5. }
  do 12 eexists. repeat (split; [eassumption|]).
  pose proof He as He2. unfold exported in He2. rewrite Hf in He2. simpl in He2.
  apply with_month_Some in He2 as (m & Hmser & Hset).
  unfold script.
  rewrite (run_bind _ _ _ _ _ (run_read _ _ _ Hσ)).
  rewrite (run_bind _ _ _ _ _ (run_lift _ _ _ Hopts)). cbv zeta.
  rewrite (run_bind _ _ _ _ _ (run_lift _ _ _ Hf)).
  unfold alloc at 1. unfold mbind at 1, M_bind at 1.
  set (l2 := fresh (dom σ)). set (σ1 := <[l2:=sub]> σ).
  assert (Hσ1 : σ1 !! l2 = Some sub) by apply lookup_insert_eq.
  rewrite (run_bind _ _ _ _ _ (run_read _ _ _ Hσ1)).
  rewrite (run_bind _ _ _ _ _ (run_lift _ _ _ Hsales)).
  rewrite (run_bind _ _ _ _ _ (run_lift _ _ _ Hprofit)).
  rewrite (run_bind _ _ _ _ _ (run_lift _ _ _ Horders)).
  rewrite (run_bind _ _ _ _ _ (run_lift _ _ _ Htop)).
  rewrite (run_bind _ _ _ _ _ (run_lift _ _ _ Hg2)).
  rewrite (run_bind _ _ _ _ _ (run_lift _ _ _ Hmser)).
  rewrite (run_bind _ _ _ _ _ (run_setitem_inplace _ _ _ _ _ _ Hσ1 Hset)).
  set (σ2 := <[l2:=e]> σ1).
  assert (Hσ2 : σ2 !! l2 = Some e) by apply lookup_insert_eq.
  rewrite (run_bind _ _ _ _ _ (run_read _ _ _ Hσ2)).
  rewrite (run_bind _ _ _ _ _ (run_lift _ _ _ Hmon)).
  rewrite (run_bind _ _ _ _ _ (run_lift _ _ _ Hreg)).
  rewrite (run_bind _ _ _ _ _ (run_lift _ _ _ Hcat)).
  rewrite (run_bind _ _ _ _ _ (run_lift _ _ _ Hsubc)).
  done.
Qed.

(** * The loaded table is never written *)

Lemma script_keeps frepr pd pn file df (σ : store) l choose :
  load_data pd pn file = Some df → σ !! l = Some df →
  is_Some (get_loc "OrderID" (columns df)) → at_most_one "Month" df →
  ∃ v σ', script frepr l choose σ = Some (v, σ')
    ∧ ∀ l', l' ∈ dom σ → σ' !! l' = σ !! l'.
Proof.
  intros Hl Hσ Ho Hone.
  destruct (script_runs frepr _ _ _ _ σ l choose Hl Hσ Ho Hone)
    as (opts & sub & e & sales & profit & orders & top & seg & mon & reg & cat
        & subc & _ & _ & _ & _ & _ & _ & _ & _ & _ & _ & _ & _ & Hrun).
  eexists _, _. split; [exact Hrun|].
  intros l' Hl'.
  assert (l' ≠ fresh (dom σ)) as Hne.
  { intros ->. by apply is_fresh in Hl'. }
  by rewrite !lookup_insert_ne.
Qed.

(** C9.  Through a whole session, one run of the script per interaction
    of the user, the store holds the loaded table unchanged at its place:
    the same columns, rows and values.  Each run filters into a new frame
    and sets the month column on that frame. *)
Theorem session_keeps_table frepr pd pn file df choices (σ : store) l :
  load_data pd pn file = Some df → σ !! l = Some df →
  is_Some (get_loc "OrderID" (columns df)) → at_most_one "Month" df →
  ∃ vs σ', session frepr l choices σ = Some (vs, σ')
    ∧ length vs = length choices
    ∧ σ' !! l = Some df
    ∧ ∀ l', l' ∈ dom σ → σ' !! l' = σ !! l'.
Proof.
  intros Hl Hσ Ho Hone. revert σ Hσ.
  induction choices as [|choose rest IH]; intros σ Hσ; simpl.
  - exists [], σ. done.
  - destruct (script_keeps frepr _ _ _ _ σ l choose Hl Hσ Ho Hone)
      as (v & σ1 & Hrun & Hkeep).
    assert (Hdom : l ∈ dom σ) by (apply elem_of_dom; eauto).
    assert (Hσ1 : σ1 !! l = Some df) by (by rewrite Hkeep).
    destruct (IH σ1 Hσ1) as (vs & σ2 & Hrest & Hlen & Hσ2 & Hkeep2).
    exists (v :: vs), σ2.
    rewrite (run_bind _ _ _ _ _ Hrun), (run_bind _ _ _ _ _ Hrest).
    split; [done|]. split; [simpl; by rewrite Hlen|]. split; [done|].
    intros l' Hl'. rewrite Hkeep2, Hkeep; [done..|].
    apply elem_of_dom. rewrite Hkeep by done. by apply elem_of_dom.
Qed.

Lemma session_keeps_table_witness :
  ∃ vs σ',
    session Sample.float_repr 0 [id; fun _ => Sample.east] {[ 0 := Sample.table ]}
    = Some (vs, σ')
    ∧ length vs = 2
    ∧ σ' !! 0 = Some Sample.table
    ∧ ∀ l', l' ∈ dom ({[ 0 := Sample.table ]} : store) →
            σ' !! l' = ({[ 0 := Sample.table ]} : store) !! l'.
Proof.
  apply (session_keeps_table Sample.float_repr Sample.parse_dates Sample.parse_number
           Sample.file Sample.table [id; fun _ => Sample.east]).
  - vm_compute; reflexivity.
  - apply lookup_singleton_eq.
  - vm_compute. by eexists.
  - unfold at_most_one. vm_compute. lia.
Defined.

(** * The empty subset *)

Lemma groupby_sum_empty df key col g :
  rows df = [] → groupby_sum df key col = Some g → g = [].
Proof.
  intros Hr (ks & -> & _ & Hks)%groupby_sum_Some.
  destruct ks as [|k ks]; [done|]. exfalso.
  destruct (proj1 (Hks k)) as (r & Hin & _); [by left|].
  rewrite Hr in Hin. by apply elem_of_nil in Hin.
Qed.

Lemma monthly_empty e res : rows e = [] → monthly e = Some res → res = [].
Proof.
  intros Hr (ks & -> & _ & Hks)%monthly_Some.
  destruct ks as [|k ks]; [done|]. exfalso.
  destruct (proj1 (Hks k)) as (r & Hin & _); [by left|].
  rewrite Hr in Hin. by apply elem_of_nil in Hin.
Qed.

Lemma sum_series_empty df col total :
  rows df = [] → getitem df col ≫= sum_series = Some total → total = 0%Q.
Proof.
  intros Hr. unfold getitem.
  destruct (get_loc col (columns df)) as [j|] eqn:Hj; [|done]. simpl.
  intros Ht%(sum_series_numbers _ _ _ _ Hj). by rewrite Ht, Hr.
Qed.

(** C6.  When the filter leaves no record, the script still runs to its
    end: the three headline numbers are 0, every aggregation is the empty
    sequence, and the download holds the header line only. *)
Theorem empty_subset_view frepr pd pn file df (σ : store) l choose opts sub :
  load_data pd pn file = Some df → σ !! l = Some df →
  is_Some (get_loc "OrderID" (columns df)) → at_most_one "Month" df →
  options df = Some opts → filter_frame df (choose opts) = Some sub →
  rows sub = [] →
  ∃ e σ',
    exported df (choose opts) = Some e ∧ rows e = []
    ∧ script frepr l choose σ
      = Some (mkView 0 0 0 [] [] [] [] [] []
                (Py.encode_utf8 (Csv.write_row (Py.chars <$> columns e))),
              σ').
Proof.
  intros Hl Hσ Ho Hone Hopts Hf Hempty.
  destruct (script_runs frepr _ _ _ _ σ l choose Hl Hσ Ho Hone)
    as (opts' & sub' & e & sales & profit & orders & top & seg & mon & reg & cat
        & subc & Hopts' & Hf' & He & Hsales & Hprofit & Horders & Htop & Hseg
        & Hmon & Hreg & Hcat & Hsubc & Hrun).
  simplify_eq.
  assert (Hrows : rows e = []).
  { destruct (exported_Some _ _ _ _ _ _ Hl Hf Hone) as (e' & He' & _ & _ & _ & _ & HF).
    simplify_eq. rewrite Hempty in HF. by apply Forall2_nil_inv_r in HF. }
  eexists e, _. split; [done|]. split; [done|]. rewrite Hrun. do 2 f_equal.
  apply sum_series_empty in Hsales, Hprofit; [|done..]. subst sales profit.
  assert (orders = 0) as ->.
  { unfold getitem in Horders. destruct (get_loc "OrderID" (columns sub)); [|done].
    simpl in Horders. rewrite Hempty in Horders. by injection Horders as <-. }
  assert (top = []) as ->.
  { unfold top_customers in Htop.
    destruct (groupby_sum sub "CustomerName" "Sales") as [g|] eqn:Hg; [|done].
    apply groupby_sum_empty in Hg as ->; [|done]. by injection Htop as <-. }
  assert (seg = []) as ->.
  { unfold segment_sales in Hseg. exact (groupby_sum_empty _ _ _ _ Hempty Hseg). }
  assert (mon = []) as -> by exact (monthly_empty _ _ Hrows Hmon).
  assert (reg = []) as ->.
  { unfold region_sales in Hreg.
    destruct (groupby_sum e "Region" "Sales") as [g|] eqn:Hg; [|done].
    apply groupby_sum_empty in Hg as ->; [|done]. by injection Hreg as <-. }
  assert (cat = []) as ->.
  { unfold category_sales in Hcat.
    destruct (groupby_sum e "Category" "Sales") as [g|] eqn:Hg; [|done].
    apply groupby_sum_empty in Hg as ->; [|done]. by injection Hcat as <-. }
  assert (subc = []) as ->.
  { unfold subcategory_profit in Hsubc.
    destruct (groupby_sum e "SubCategory" "Profit") as [g|] eqn:Hg; [|done].
    apply groupby_sum_empty in Hg as ->; [|done]. by injection Hsubc as <-. }
  f_equal. unfold to_csv. rewrite Hrows. simpl. by rewrite app_nil_r.
Qed.

Lemma empty_subset_view_witness :
  ∃ e σ',
    exported Sample.table (mkSelection [] [Str "Tech"] [Str "Phones"]) = Some e
    ∧ rows e = []
    ∧ script Sample.float_repr 0 (fun _ => mkSelection [] [Str "Tech"] [Str "Phones"])
             {[ 0 := Sample.table ]}
      = Some (mkView 0 0 0 [] [] [] [] [] []
                (Py.encode_utf8 (Csv.write_row (Py.chars <$> columns e))),
              σ').
Proof.
  apply (empty_subset_view Sample.float_repr Sample.parse_dates Sample.parse_number
           Sample.file Sample.table {[ 0 := Sample.table ]} 0
           (fun _ => mkSelection [] [Str "Tech"] [Str "Phones"])
           (mkSelection [Str "East"; Str "West"] [Str "Office"; Str "Tech"]
                        [Str "Paper"; Str "Phones"])
           (mkFrame (columns Sample.table) [])).
  - vm_compute; reflexivity.
  - apply lookup_singleton_eq.
  - vm_compute. by eexists.
  - unfold at_most_one. vm_compute. lia.
  - vm_compute; reflexivity.
  - vm_compute; reflexivity.
  - reflexivity.
Defined.

(** * Reading back what the writer wrote *)

Module CsvFacts.
Import Py Csv.

Lemma special_chars_distinct :
  comma ≠ quote ∧ comma ≠ LF ∧ comma ≠ CR ∧ quote ≠ LF ∧ quote ≠ CR ∧ LF ≠ CR
  ∧ space ≠ comma ∧ space ≠ quote ∧ space ≠ LF ∧ space ≠ CR
  ∧ tab ≠ comma ∧ tab ≠ quote ∧ tab ≠ LF ∧ tab ≠ CR.
Proof. repeat split; discriminate. Qed.

Lemma tokenize_cons st p c rest :
  tokenize_from st p (c :: rest)
  = tokenize_from (step st c rest p).1 (step st c rest p).2 rest.
Proof. simpl. by destruct (step st c rest p). Qed.

Lemma pushed_nil p : pushed [] p = p.
Proof. by destruct p. Qed.

Lemma pushed_cons c f p : pushed (c :: f) p = pushed f (push_char c p).
Proof. unfold pushed, push_char. simpl. by rewrite <-app_assoc. Qed.

Lemma escaped_cons c f :
  escaped (c :: f) = (if decide (c = quote) then [quote; quote] else [c]) ++ escaped f.
Proof. done. Qed.

Lemma needs_quote_cons c f :
  needs_quote (c :: f) = false ↔
  (c ≠ comma ∧ c ≠ quote ∧ c ≠ LF) ∧ needs_quote f = false.
Proof.
  unfold needs_quote. cbn [existsb]. rewrite orb_false_iff, bool_decide_eq_false.
  naive_solver.
Qed.

(** An unquoted field body. *)
Lemma tokenize_in_field f p rest :
  needs_quote f = false → CR ∉ f →
  tokenize_from IN_FIELD p (f ++ rest) = tokenize_from IN_FIELD (pushed f p) rest.
Proof.
  revert p. induction f as [|c f IH]; intros p Hq Hcr.
  - by rewrite pushed_nil.
  - apply needs_quote_cons in Hq as [(? & ? & ?) Hq].
    apply not_elem_of_cons in Hcr as [? Hcr].
    cbn [app]. rewrite tokenize_cons. cbn [step].
    rewrite !decide_False by done. cbn [fst snd].
    rewrite pushed_cons. by apply IH.
Qed.

(** The body of a quoted field, up to the closing quote. *)
Lemma tokenize_in_quoted f p rest :
  tokenize_from IN_QUOTED_FIELD p (escaped f ++ quote :: rest)
  = tokenize_from QUOTE_IN_QUOTED_FIELD (pushed f p) rest.
Proof.
  revert p. induction f as [|c f IH]; intros p.
  - change (escaped []) with (@nil ascii). cbn [app].
    rewrite tokenize_cons. cbn [step]. rewrite decide_True by done.
    by rewrite pushed_nil.
  - rewrite pushed_cons, escaped_cons.
    destruct (decide (c = quote)) as [->|Hc]; cbn [app].
    + rewrite tokenize_cons. cbn [step]. rewrite decide_True by done. cbn [fst snd].
      rewrite tokenize_cons. cbn [step]. rewrite decide_True by done. cbn [fst snd].
      apply IH.
    + rewrite tokenize_cons. cbn [step]. rewrite decide_False by done. apply IH.
Qed.

(** A field and the comma after it. *)
Lemma tokenize_field_comma f ln lns rest :
  CR ∉ f →
  tokenize_from START_FIELD (mkParser [] ln lns) (write_field f ++ comma :: rest)
  = tokenize_from START_FIELD (mkParser [] (text f :: ln) lns) rest.
Proof.
  intros Hcr. destruct special_chars_distinct as (?&?&?&?&?&?&_). unfold write_field.
  destruct (needs_quote f) eqn:Hq.
  - cbn [app]. rewrite tokenize_cons. cbn [step]. unfold start_field.
    rewrite decide_False, decide_False, decide_True by done. cbn [fst snd].
    rewrite <-app_assoc. cbn [app]. rewrite tokenize_in_quoted.
    rewrite tokenize_cons. cbn [step].
    rewrite decide_False, decide_True by done. cbn [fst snd].
    unfold end_field, pushed. cbn [word line lines].
    by rewrite app_nil_r, rev_involutive.
  - destruct f as [|c f]; cbn [app].
    + rewrite tokenize_cons. cbn [step]. unfold start_field.
      rewrite decide_False, decide_False, decide_False, decide_True by done.
      done.
    + apply needs_quote_cons in Hq as [(? & ? & ?) Hq].
      apply not_elem_of_cons in Hcr as [? Hcr].
      rewrite tokenize_cons. cbn [step]. unfold start_field.
      rewrite !decide_False by done. cbn [fst snd].
      rewrite tokenize_in_field by done.
      rewrite tokenize_cons. cbn [step].
      rewrite decide_False, decide_False, decide_True by done. cbn [fst snd].
      unfold end_field, pushed, push_char. cbn [word line lines rev].
      by rewrite rev_app_distr, rev_involutive.
Qed.

(** The last field of a line and the line feed after it. *)
Lemma tokenize_field_LF f ln lns rest :
  CR ∉ f →
  tokenize_from START_FIELD (mkParser [] ln lns) (write_field f ++ LF :: rest)
  = tokenize_from START_RECORD (mkParser [] [] (rev (text f :: ln) :: lns)) rest.
Proof.
  intros Hcr. destruct special_chars_distinct as (?&?&?&?&?&?&_). unfold write_field.
  destruct (needs_quote f) eqn:Hq.
  - cbn [app]. rewrite tokenize_cons. cbn [step]. unfold start_field.
    rewrite decide_False, decide_False, decide_True by done. cbn [fst snd].
    rewrite <-app_assoc. cbn [app]. rewrite tokenize_in_quoted.
    rewrite tokenize_cons. cbn [step].
    rewrite decide_False, decide_False, decide_True by done. cbn [fst snd].
    unfold end_line, end_field, pushed. cbn [word line lines].
    by rewrite app_nil_r, rev_involutive.
  - destruct f as [|c f]; cbn [app].
    + rewrite tokenize_cons. cbn [step]. unfold start_field.
      rewrite decide_True by done. done.
    + apply needs_quote_cons in Hq as [(? & ? & ?) Hq].
      apply not_elem_of_cons in Hcr as [? Hcr].
      rewrite tokenize_cons. cbn [step]. unfold start_field.
      rewrite !decide_False by done. cbn [fst snd].
      rewrite tokenize_in_field by done.
      rewrite tokenize_cons. cbn [step].
      rewrite decide_True by done. cbn [fst snd].
      unfold end_line, end_field, pushed, push_char. cbn [word line lines rev].
      by rewrite rev_app_distr, rev_involutive.
Qed.

(** A whole line, read from the start of a field. *)
Lemma tokenize_fields fs ln lns rest :
  fs ≠ [] → Forall (fun f => CR ∉ f) fs →
  tokenize_from START_FIELD (mkParser [] ln lns) (join_fields fs ++ LF :: rest)
  = tokenize_from START_RECORD
      (mkParser [] [] (rev (rev (text <$> fs) ++ ln) :: lns)) rest.
Proof.
  intros Hne HF. revert ln. induction HF as [|f fs Hf HF IH]; intros ln; [done|].
  destruct fs as [|f' fs].
  - cbn [join_fields]. rewrite tokenize_field_LF by done. done.
  - change (join_fields (f :: f' :: fs))
      with (write_field f ++ comma :: join_fields (f' :: fs)).
    rewrite <-app_assoc. cbn [app]. rewrite tokenize_field_comma by done.
    rewrite IH by done. csimpl. by rewrite <-!app_assoc.
Qed.

End CsvFacts.

(** * Reading back a written table *)

Module ExportFacts.
Import Py Csv CsvFacts.

Lemma blank_rest_comma f more :
  needs_quote f = false → CR ∉ f → blank_rest (f ++ comma :: more) = false.
Proof.
  destruct special_chars_distinct as (?&?&?&?&?&?&?&?&?&?&?&?&?&?).
  induction f as [|c f IH]; intros Hq Hcr; cbn [app blank_rest].
  - rewrite !decide_False by naive_solver. done.
  - apply needs_quote_cons in Hq as [(? & ? & ?) Hq].
    apply not_elem_of_cons in Hcr as [? Hcr].
    rewrite decide_False by naive_solver.
    case_decide; [by apply IH|done].
Qed.

(** At the start of a line of two fields or more the tokenizer goes on
    as at the start of a field: the line is not blank. *)
Lemma tokenize_line_start f fs p rest :
  fs ≠ [] → CR ∉ f →
  tokenize_from START_RECORD p (join_fields (f :: fs) ++ LF :: rest)
  = tokenize_from START_FIELD p (join_fields (f :: fs) ++ LF :: rest).
Proof.
  intros Hne Hcr. destruct special_chars_distinct as (?&?&?&?&?&?&?&?&?&?&?&?&?&?).
  destruct fs as [|f' fs]; [done|].
  change (join_fields (f :: f' :: fs))
    with (write_field f ++ comma :: join_fields (f' :: fs)).
  rewrite <-app_assoc. cbn [app]. unfold write_field.
  destruct (needs_quote f) eqn:Hq.
  - cbn [app]. rewrite !tokenize_cons. cbn [step]. unfold start_record.
    rewrite !decide_False by naive_solver. done.
  - destruct f as [|c f]; cbn [app].
    + rewrite !tokenize_cons. cbn [step]. unfold start_record.
      rewrite !decide_False by naive_solver. done.
    + apply needs_quote_cons in Hq as [(? & ? & ?) Hq].
      apply not_elem_of_cons in Hcr as [? Hcr].
      rewrite !tokenize_cons. cbn [step]. unfold start_record.
      rewrite decide_False, decide_False by done.
      case_decide; [|done]. by rewrite blank_rest_comma.
Qed.

Lemma write_row_join fs : 2 ≤ length fs → write_row fs = join_fields fs ++ [LF].
Proof. destruct fs as [|f [|f' fs]]; simpl; try lia. by destruct f. Qed.

Lemma tokenize_line fs lns rest :
  2 ≤ length fs → Forall (fun f => CR ∉ f) fs →
  tokenize_from START_RECORD (mkParser [] [] lns) (write_row fs ++ rest)
  = tokenize_from START_RECORD (mkParser [] [] ((text <$> fs) :: lns)) rest.
Proof.
  intros Hlen HF. rewrite write_row_join by done. rewrite <-app_assoc. cbn [app].
  destruct fs as [|f fs]; [simpl in Hlen; lia|].
  rewrite tokenize_line_start.
  - rewrite tokenize_fields by done. by rewrite app_nil_r, rev_involutive.
  - destruct fs; [simpl in Hlen; lia|done].
  - by apply Forall_cons in HF as [? _].
Qed.

Lemma tokenize_lines (rws : list (list (list ascii))) lns :
  Forall (fun fs => 2 ≤ length fs ∧ Forall (fun f => CR ∉ f) fs) rws →
  tokenize_from START_RECORD (mkParser [] [] lns) (mbind (M := list) write_row rws)
  = Some (mkParser [] [] (rev ((fun fs : list (list ascii) => text <$> fs) <$> rws) ++ lns)).
Proof.
  intros HF. revert lns. induction HF as [|fs rws [Hlen Hcr] HF IH]; intros lns.
  - done.
  - csimpl. rewrite tokenize_line by done. rewrite IH. by rewrite <-app_assoc.
Qed.

Lemma tokenize_table (hdr : list (list ascii)) (rws : list (list (list ascii))) :
  Forall (fun fs => 2 ≤ length fs ∧ Forall (fun f => CR ∉ f) fs) (hdr :: rws) →
  tokenize (write_row hdr ++ mbind (M := list) write_row rws)
  = Some ((text <$> hdr) :: ((fun fs : list (list ascii) => text <$> fs) <$> rws)).
Proof.
  intros HF. unfold tokenize.
  change (write_row hdr ++ mbind (M := list) write_row rws)
    with (mbind (M := list) write_row (hdr :: rws)).
  rewrite tokenize_lines by done. cbn [mbind option_bind lines].
  by rewrite app_nil_r, rev_involutive.
Qed.

(** ** The two encodings agree on ASCII *)

Lemma decode_encode_ascii l :
  forallb isascii l = true → decode_latin1 (encode_utf8 l) = l.
Proof.
  induction l as [|c l IH]; [done|]. cbn [forallb]. intros [Hc Hl]%andb_true_iff.
  unfold encode_utf8, decode_latin1 in *. csimpl. unfold utf8_char at 1.
  unfold isascii in Hc. rewrite Hc. csimpl.
  by rewrite ascii_of_byte_of_ascii, IH.
Qed.

Lemma plain_ascii l : plain l = true → forallb isascii l = true ∧ CR ∉ l.
Proof.
  unfold plain. induction l as [|c l IH]; cbn [forallb].
  - split; [done|]. apply not_elem_of_nil.
  - intros [[Hc Hcr]%andb_true_iff Hl]%andb_true_iff.
    destruct (IH Hl) as [IH1 IH2]. rewrite Hc, IH1. split; [done|].
    apply not_elem_of_cons. split; [|done].
    apply negb_true_iff, bool_decide_eq_false in Hcr. congruence.
Qed.

Lemma forallb_app_true {A} (f : A → bool) l k :
  forallb f l = true → forallb f k = true → forallb f (l ++ k) = true.
Proof. intros. rewrite forallb_app. by apply andb_true_iff. Qed.

Lemma escaped_ascii f :
  forallb isascii f = true → forallb isascii (escaped f) = true.
Proof.
  induction f as [|c f IH]; [done|]. cbn [forallb]. intros [Hc Hl]%andb_true_iff.
  rewrite escaped_cons. apply forallb_app_true; [|by apply IH].
  case_decide; [done|]. cbn [forallb]. by rewrite Hc.
Qed.

Lemma write_field_ascii f :
  forallb isascii f = true → forallb isascii (write_field f) = true.
Proof.
  intros Hf. unfold write_field. destruct (needs_quote f); [|done].
  cbn [forallb]. apply andb_true_iff. split; [done|].
  apply forallb_app_true; [by apply escaped_ascii|done].
Qed.

Lemma join_fields_ascii fs :
  Forall (fun f => forallb isascii f = true) fs →
  forallb isascii (join_fields fs) = true.
Proof.
  induction 1 as [|f fs Hf HF IH]; [done|].
  destruct fs as [|f' fs]; [by apply write_field_ascii|].
  change (join_fields (f :: f' :: fs))
    with (write_field f ++ comma :: join_fields (f' :: fs)).
  apply forallb_app_true; [by apply write_field_ascii|].
  cbn [forallb]. apply andb_true_iff. split; [done|exact IH].
Qed.

Lemma write_row_ascii fs :
  Forall (fun f => forallb isascii f = true) fs →
  forallb isascii (write_row fs) = true.
Proof.
  intros HF. destruct fs as [|f [|f' fs]].
  - done.
  - destruct f; [done|]. cbn [write_row].
    apply forallb_app_true; [by apply join_fields_ascii|done].
  - rewrite write_row_join by (simpl; lia).
    apply forallb_app_true; [by apply join_fields_ascii|done].
Qed.

Lemma write_rows_ascii (rws : list (list (list ascii))) :
  Forall (Forall (fun f => forallb isascii f = true)) rws →
  forallb isascii (mbind (M := list) write_row rws) = true.
Proof.
  induction 1 as [|fs rws Hfs HF IH]; [done|]. csimpl.
  apply forallb_app_true; [by apply write_row_ascii|done].
Qed.

End ExportFacts.

(** * [read_csv] on the export *)

Module ReadBack.
Import Py Csv CsvFacts ExportFacts.

Lemma bind_fmap_list {A B C} (f : B → list C) (g : A → B) (l : list A) :
  mbind (M := list) f (g <$> l) = mbind (M := list) (fun x => f (g x)) l.
Proof. induction l as [|x l IH]; csimpl; [done|]. by rewrite IH. Qed.

Lemma imap_header_label cols :
  Forall (fun n => n ≠ ""%string) cols → imap header_label cols = cols.
Proof.
  intros HF. apply list_eq. intros i. rewrite list_lookup_imap.
  destruct (cols !! i) as [n|] eqn:Hn; [|done]. simpl. f_equal.
  unfold header_label. rewrite decide_False; [done|].
  rewrite Forall_forall in HF. apply HF. by eapply list_elem_of_lookup_2.
Qed.

Lemma text_chars s : text (chars s) = s.
Proof. apply string_of_list_ascii_of_string. Qed.

Lemma plain_frame_fields frepr e :
  plain_frame frepr e = true →
  Forall (fun n => plain (chars n) = true) (columns e)
  ∧ Forall (Forall (fun c => plain (format_cell frepr c) = true)) (rows e).
Proof.
  unfold plain_frame. intros [H1 H2]%andb_true_iff. split.
  - apply Forall_forall. intros n Hn%list_elem_of_In.
    by apply (proj1 (forallb_forall _ _) H1).
  - apply Forall_forall. intros r Hr%list_elem_of_In.
    apply Forall_forall. intros c Hc%list_elem_of_In.
    pose proof (proj1 (forallb_forall _ _) H2 r Hr) as H3.
    by apply (proj1 (forallb_forall _ _) H3).
Qed.

(** The written table is read back cell by cell. *)
Lemma read_csv_export frepr e :
  2 ≤ length (columns e) →
  Forall (fun r => length r = length (columns e)) (rows e) →
  plain_frame frepr e = true →
  Forall (fun n => n ≠ ""%string) (columns e) →
  read_csv (encode_utf8 (to_csv frepr e))
  = Some (mkFrame (columns e) ((fun r : list cell => reread frepr <$> r) <$> rows e)).
Proof.
  intros Hcols Hrows [Hpl Hpr]%plain_frame_fields Hne.
  unfold read_csv, to_csv.
  rewrite <-(bind_fmap_list write_row (fun r : list cell => format_cell frepr <$> r)).
  rewrite decode_encode_ascii.
  2:{ apply forallb_app_true.
      - apply write_row_ascii, Forall_fmap.
        eapply Forall_impl; [exact Hpl|]. intros n Hn. simpl.
        by apply plain_ascii in Hn as [? _].
      - apply write_rows_ascii, Forall_fmap.
        eapply Forall_impl; [exact Hpr|]. intros r Hr. simpl.
        apply Forall_fmap. eapply Forall_impl; [exact Hr|]. intros c Hc. simpl.
        by apply plain_ascii in Hc as [? _]. }
  rewrite tokenize_table.
  2:{ constructor.
      - rewrite length_fmap. split; [done|]. apply Forall_fmap.
        eapply Forall_impl; [exact Hpl|]. intros n Hn. simpl.
        by apply plain_ascii in Hn as [_ ?].
      - apply Forall_fmap, Forall_forall. intros r Hr. simpl.
        rewrite length_fmap. rewrite Forall_forall in Hrows, Hpr.
        rewrite (Hrows r Hr). split; [done|]. apply Forall_fmap.
        eapply Forall_impl; [exact (Hpr r Hr)|]. intros c Hc. simpl.
        by apply plain_ascii in Hc as [_ ?]. }
  cbn [mbind option_bind].
  rewrite <-list_fmap_compose.
  rewrite (list_fmap_ext (text ∘ chars) id (columns e)) by (intros; apply text_chars).
  rewrite list_fmap_id, imap_header_label by done.
  rewrite <-!list_fmap_compose.
  assert (Hall : forallb (fun l : list string => length l <=? length (columns e))
            (((fun fs : list (list ascii) => text <$> fs)
              ∘ (fun r : list cell => format_cell frepr <$> r)) <$> rows e) = true).
  { apply forallb_forall. intros l [r [-> Hr]]%list_elem_of_In%list_elem_of_fmap.
    simpl. rewrite !length_fmap. rewrite Forall_forall in Hrows.
    rewrite (Hrows r Hr). by apply Nat.leb_le. }
  rewrite Hall. f_equal. f_equal.
  apply list_fmap_ext. intros _ r Hr%list_elem_of_lookup_2. simpl.
  unfold pad. rewrite !length_fmap. rewrite Forall_forall in Hrows.
  rewrite (Hrows r Hr), Nat.sub_diag. simpl. rewrite app_nil_r.
  rewrite <-!list_fmap_compose. done.
Qed.

End ReadBack.

(** * Loading the export *)

Module Reload.
Import Py Csv CsvFacts ExportFacts ReadBack.

Lemma reread_text frepr c : has_kind KText c → reread frepr c = c.
Proof.
  destruct c as [|t| |]; simpl; try done.
  intros Ht%bool_decide_unpack. unfold reread. simpl. rewrite text_chars.
  unfold convert. by rewrite decide_False.
Qed.

Lemma select_all_true {A} (m : list bool) (l : list A) :
  Forall (fun b => b = true) m → length l ≤ length m → select m l = l.
Proof.
  intros Hm. revert l. induction Hm as [|b m -> Hm IH]; intros [|x l] Hlen;
    simpl in *; try done; try lia.
  rewrite IH; [done|lia].
Qed.

Lemma drop_column_absent name df :
  name ∉ columns df → Forall (fun r => length r = length (columns df)) (rows df) →
  drop_column name df = df.
Proof.
  intros Hn Hrows. unfold drop_column. destruct df as [cols rws]. simpl in *.
  assert (Hm : Forall (fun b => b = true) ((fun c => bool_decide (c ≠ name)) <$> cols)).
  { apply Forall_fmap, Forall_forall. intros c Hc. simpl.
    apply bool_decide_eq_true. intros ->. done. }
  f_equal.
  - apply select_all_true; [done|]. by rewrite length_fmap.
  - rewrite <-(list_fmap_id rws) at 2. apply list_fmap_ext.
    intros _ r Hr%list_elem_of_lookup_2. simpl.
    apply select_all_true; [done|]. rewrite length_fmap.
    rewrite Forall_forall in Hrows. by rewrite (Hrows r Hr).
Qed.

Lemma stray_column_not_plain : plain (chars stray_column) = false.
Proof. by vm_compute. Qed.

Lemma length_restored frepr idx r : length (restored frepr idx r) = length r.
Proof.
  unfold restored. induction idx as [|i idx IH]; simpl.
  - by rewrite length_fmap.
  - by rewrite length_insert.
Qed.

Lemma lookup_restored frepr idx r j :
  restored frepr idx r !! j =
  if decide (j ∈ idx) then r !! j else reread frepr <$> r !! j.
Proof.
  unfold restored. induction idx as [|i idx IH]; simpl.
  - by rewrite list_lookup_fmap.
  - fold (restored frepr idx r) in *.
    destruct (decide (i = j)) as [->|Hne].
    + rewrite decide_True by (by left).
      destruct (decide (j < length r)) as [Hlt|Hge].
      * rewrite list_lookup_insert_eq by (by rewrite length_restored).
        symmetry. by apply list_lookup_lookup_total_lt.
      * rewrite (lookup_ge_None_2 r) by lia.
        apply lookup_ge_None_2. rewrite length_insert, length_restored. lia.
    + rewrite list_lookup_insert_ne by done. rewrite IH.
      apply decide_ext. rewrite elem_of_cons. naive_solver.
Qed.

Lemma zip_with_fmap_both {A B C D} (f : B → C → D) (g : A → B) (h : A → C)
    (l : list A) :
  zip_with f (g <$> l) (h <$> l) = (fun x => f (g x) (h x)) <$> l.
Proof. induction l as [|x l IH]; csimpl; [done|]. by rewrite IH. Qed.

(** One coercion of the loader on the frame read back: the column read
    is the written column, and putting the exported column in its place
    restores one more position of every row. *)
Lemma reload_column frepr cols (rws : list (list cell)) idx name i :
  get_loc name cols = Some i → i ∉ idx →
  Forall (fun r => length r = length cols) rws →
  getitem (mkFrame cols (restored frepr idx <$> rws)) name
  = Some (reread frepr <$> ((fun r : list cell => r !!! i) <$> rws))
  ∧ setitem (mkFrame cols (restored frepr idx <$> rws)) name
            ((fun r : list cell => r !!! i) <$> rws)
    = Some (mkFrame cols (restored frepr (i :: idx) <$> rws)).
Proof.
  intros Hi Hidx Hrows. split.
  - unfold getitem. simpl. rewrite Hi. simpl. f_equal.
    rewrite <-!list_fmap_compose. apply list_fmap_ext.
    intros _ r Hr%list_elem_of_lookup_2. simpl.
    rewrite Forall_forall in Hrows. specialize (Hrows r Hr).
    apply get_loc_Some, lookup_lt_Some in Hi.
    apply list_lookup_total_correct.
    rewrite lookup_restored, decide_False by done.
    rewrite (list_lookup_lookup_total_lt r i) by lia. done.
  - unfold setitem. simpl. rewrite !length_fmap, decide_True by done.
    rewrite (get_loc_positions _ _ _ Hi). f_equal. f_equal.
    by rewrite zip_with_fmap_both.
Qed.

(** Once the four coerced positions are restored, a typed row is the
    exported row. *)
Lemma restored_row frepr cols idx r :
  Forall2 (fun n c => has_kind (loaded_schema n) c) cols r →
  (∀ j n, cols !! j = Some n → j ∉ idx → loaded_schema n = KText) →
  restored frepr idx r = r.
Proof.
  intros Hr Hidx. apply list_eq. intros j. rewrite lookup_restored.
  case_decide as Hj; [done|].
  destruct (r !! j) as [c|] eqn:Hc; [|done]. simpl. f_equal.
  destruct (Forall2_lookup_r _ _ _ _ _ Hr Hc) as (n & Hn & Hk).
  apply reread_text. by rewrite <-(Hidx j n Hn Hj).
Qed.

Lemma NoDup_positions name cols k :
  NoDup cols → length (positions name cols k) ≤ 1.
Proof.
  intros Hnd. revert k. induction Hnd as [|c cols Hc Hnd IH]; intros k; simpl; [lia|].
  destruct (decide (c = name)) as [->|Hne]; [|apply IH]. simpl.
  assert (positions name cols (S k) = []) as ->; [|simpl; lia].
  destruct (positions name cols (S k)) as [|j l] eqn:E; [done|]. exfalso.
  assert (j ∈ positions name cols (S k)) as Hj by (rewrite E; by left).
  apply positions_spec in Hj as [_ Hj]. apply Hc. by eapply list_elem_of_lookup_2.
Qed.

End Reload.

(** * The round trip *)

Lemma exported_parts df sel e :
  exported df sel = Some e →
  ∃ sub m, filter_frame df sel = Some sub
    ∧ getitem sub "OrderDate" ≫= month_series = Some m
    ∧ setitem sub "Month" m = Some e.
Proof.
  unfold exported. destruct (filter_frame df sel) as [sub|]; [|done]. simpl.
  intros (m & ? & ?)%with_month_Some. eauto.
Qed.

Lemma exported_at_most_one df sel e :
  exported df sel = Some e → NoDup (columns e) → at_most_one "Month" df.
Proof.
  intros (sub & m & Hf & _ & Hs)%exported_parts Hnd.
  unfold at_most_one. rewrite <-(filter_frame_columns _ _ _ Hf).
  apply Reload.NoDup_positions.
  unfold setitem in Hs. case_decide; [|done].
  destruct (positions "Month" (columns sub) 0); simplify_eq; simpl in *; [|done].
  by apply NoDup_app in Hnd as [? _].
Qed.

Lemma exported_present pd pn file df sel e r name :
  load_data pd pn file = Some df → exported df sel = Some e →
  at_most_one "Month" df → r ∈ rows e → name ∈ critical →
  ∃ c, at_col e name r = Some c ∧ c ≠ NaN.
Proof.
  intros Hl He Hone Hr Hn.
  destruct (exported_parts _ _ _ He) as (sub & m & Hf & _ & _).
  destruct (exported_Some _ _ _ _ _ _ Hl Hf Hone) as (e' & He' & _ & _ & _ & _ & Hrows).
  simplify_eq. apply list_elem_of_lookup in Hr as [k Hk].
  destruct (Forall2_lookup_l _ _ _ _ _ Hrows Hk) as (r0 & Hr0 & _ & Hother).
  rewrite Hother by (intros ->; unfold critical in Hn; set_solver).
  apply list_elem_of_lookup_2 in Hr0.
  apply (filter_frame_in _ _ _ _ Hf) in Hr0 as [Hr0 _].
  destruct (loaded_present _ _ _ _ r0 name Hl Hr0 Hn) as (c & Hc & Hne & _).
  exists c. split; [|done].
  unfold at_col in *. by rewrite (filter_frame_columns _ _ _ Hf).
Qed.

Lemma read_back_column (F : Series → Series) (names : list string) df name s :
  forallb (fun n => match getitem df n with
                    | Some s => bool_decide (F s = s)
                    | None => true
                    end) names = true →
  name ∈ names → getitem df name = Some s → F s = s.
Proof.
  intros Hall Hn%list_elem_of_In Hs.
  pose proof (proj1 (forallb_forall _ _) Hall name Hn) as H. cbv beta in H.
  rewrite Hs in H. by apply bool_decide_eq_true in H.
Qed.

Lemma dropna_all names df :
  Forall (fun n => is_Some (get_loc n (columns df))) names →
  (∀ r name, r ∈ rows df → name ∈ names → ∃ c, at_col df name r = Some c ∧ c ≠ NaN) →
  dropna names df = Some df.
Proof.
  intros Hloc Hpresent.
  destruct (mapM_is_Some_2 (fun n => get_loc n (columns df)) names) as [idx Hidx];
    [done|].
  destruct (dropna names df) as [df'|] eqn:Hd.
  2:{ unfold dropna in Hd. by rewrite Hidx in Hd. }
  f_equal. pose proof Hd as (idx' & _ & Heq)%dropna_Some.
  subst df'. destruct df as [cols rws]. simpl in *. f_equal.
  apply List_filter_all. intros r Hr.
  assert (Hin : r ∈ rows (mkFrame cols
                  (List.filter (fun r => forallb (fun i => negb (isna (r !!! i))) idx') rws))).
  { eapply dropna_retains; [exact Hd|done|]. intros name Hn. by apply Hpresent. }
  simpl in Hin. by apply elem_of_List_filter in Hin as [_ ?].
Qed.




(** * The order count *)

Lemma length_List_filter_le {A} (f : A → bool) l : length (List.filter f l) ≤ length l.
Proof. induction l as [|x l IH]; simpl; [done|]. destruct (f x); simpl; lia. Qed.

Lemma length_List_filter_eq {A} (f : A → bool) l :
  length (List.filter f l) = length l ↔ ∀ x, x ∈ l → f x = true.
Proof.
  induction l as [|x l IH]; simpl.
  - split; [|done]. intros _ x Hx. by apply elem_of_nil in Hx.
  - pose proof (length_List_filter_le f l). destruct (f x) eqn:Hfx; simpl.
    + split.
      * intros [= Hl]. intros y [->|Hy]%elem_of_cons; [done|]. by apply IH.
      * intros Hall. f_equal. apply IH. intros y Hy. apply Hall. by right.
    + split; [lia|]. intros Hall. specialize (Hall x). rewrite Hfx in Hall.
      discriminate Hall. by left.
Qed.

Lemma length_unique_le {A} `{EqDecision A} (l : list A) : length (unique l) ≤ length l.
Proof.
  induction l as [|x l IH]; simpl; [done|].
  pose proof (length_List_filter_le (fun c' => bool_decide (c' ≠ x)) (unique l)). lia.
Qed.

Lemma length_unique_eq {A} `{EqDecision A} (l : list A) :
  length (unique l) = length l ↔ NoDup l.
Proof.
  induction l as [|x l IH]; simpl.
  - split; [constructor|done].
  - pose proof (length_List_filter_le (fun c' => bool_decide (c' ≠ x)) (unique l)) as Hf.
    pose proof (length_unique_le l) as Hu. rewrite NoDup_cons, <-IH. split.
    + intros [= Hl]. assert (length (unique l) = length l) as Hul by lia.
      split; [|done]. rewrite <-Hul in Hl.
      pose proof (proj1 (length_List_filter_eq _ _) Hl) as Hall.
      intros Hx%elem_of_unique. specialize (Hall x Hx).
      by apply bool_decide_eq_true in Hall.
    + intros [Hx Hul]. f_equal. rewrite <-Hul. apply length_List_filter_eq.
      intros y Hy. apply (proj1 (elem_of_unique _ _)) in Hy.
      apply bool_decide_eq_true. intros ->. by apply Hx.
Qed.

Lemma NoDup_List_filter_inv {A} (f : A → bool) l :
  (∀ x, x ∈ l → f x = true) → NoDup (List.filter f l) → NoDup l.
Proof. intros Hall. by rewrite (List_filter_all f l). Qed.

(** X1.  The order count never exceeds the number of records of the frame,
    and equals it exactly when every record has an order identifier and
    no two records share one. *)
Theorem total_orders_bound df s :
  getitem df "OrderID" = Some s →
  nunique s ≤ length (rows df)
  ∧ (nunique s = length (rows df) ↔ NoDup s ∧ NaN ∉ s).
Proof.
  unfold getitem, nunique. destruct (get_loc _ _) as [i|]; [|done]. simpl.
  intros [= <-]. set (s := (fun r => r !!! i) <$> rows df).
  assert (length s = length (rows df)) as <- by (unfold s; by rewrite length_fmap).
  set (f := fun c => negb (isna c)).
  pose proof (length_unique_le (List.filter f s)) as Hu.
  pose proof (length_List_filter_le f s) as Hf.
  split; [lia|]. split.
  - intros Heq.
    assert (length (List.filter f s) = length s) as Hall by lia.
    assert (NoDup (List.filter f s)) as Hnd by (apply length_unique_eq; lia).
    pose proof (proj1 (length_List_filter_eq _ _) Hall) as Hall'. split.
    + by eapply NoDup_List_filter_inv.
    + intros Hin. by specialize (Hall' _ Hin).
  - intros [Hnd Hna].
    assert (List.filter f s = s) as ->.
    { apply List_filter_all. intros c Hc. unfold f. destruct c; try done. }
    by apply length_unique_eq.
Qed.

Lemma total_orders_bound_witness :
  nunique [Str "o1"; Str "o2"; Str "o1"] ≤ length (rows Sample.table)
  ∧ (nunique [Str "o1"; Str "o2"; Str "o1"] = length (rows Sample.table)
     ↔ NoDup [Str "o1"; Str "o2"; Str "o1"] ∧ NaN ∉ [Str "o1"; Str "o2"; Str "o1"]).
Proof. apply (total_orders_bound Sample.table). reflexivity. Defined.

(** * The options of the selectors *)

Lemma stable_sort_texts l :
  NoDup l → StronglySorted before (stable_sort String.leb l).
Proof.
  intros Hnd.
  eapply StronglySorted_impl;
    [|apply (stable_sort_then String.leb String.leb_total) with (K := (≠))].
  - intros a b [Hab Hne]. apply leb_before in Hab as [?| ->]; [done|].
    exfalso. apply Hne; [|done]. apply leb_before. by right.
  - intros a b c [Hab| ->]%leb_before [Hbc| ->]%leb_before; apply leb_before;
      eauto using before_trans.
  - by apply NoDup_StronglySorted.
Qed.

Lemma mapM_text_of l ts : mapM text_of l = Some ts → l = Str <$> ts.
Proof.
  intros H%mapM_Some. induction H as [|c t l ts Hc Hl IH]; [done|].
  destruct c; simplify_eq/=. by f_equal.
Qed.

Lemma sorted_unique_Some s l :
  sorted (unique s) = Some l →
  ∃ ts, l = Str <$> ts ∧ StronglySorted before ts ∧ ∀ t, t ∈ ts ↔ Str t ∈ s.
Proof.
  unfold sorted. destruct (mapM text_of (unique s)) as [ts|] eqn:Hm; [|done].
  simpl. intros [= <-]. apply mapM_text_of in Hm.
  exists (stable_sort String.leb ts). split; [done|]. split.
  - apply stable_sort_texts. pose proof (NoDup_unique s) as Hnd.
    rewrite Hm in Hnd. by apply NoDup_fmap in Hnd; [|intros ?? [=]].
  - intros t. rewrite elem_of_stable_sort, <-(elem_of_unique s), Hm.
    rewrite list_elem_of_fmap. split; [eauto|]. by intros (t' & [= ->] & ?).
Qed.

Lemma selector_column df name l :
  getitem df name ≫= (sorted ∘ unique) = Some l →
  ∃ ts, l = Str <$> ts ∧ StronglySorted before ts
    ∧ ∀ t, t ∈ ts ↔ ∃ r, r ∈ rows df ∧ at_col df name r = Some (Str t).
Proof.
  unfold getitem, at_col. destruct (get_loc name (columns df)) as [i|]; [|done].
  simpl. intros (ts & -> & Hs & Hin)%sorted_unique_Some.
  exists ts. split; [done|]. split; [done|]. intros t. rewrite Hin, list_elem_of_fmap.
  split; [intros (r & -> & Hr)|intros (r & Hr & [= <-])]; eauto.
Qed.

(** X2.  The options a selector offers, which are also its default: the
    texts of its column, each once, in ascending order. *)
Theorem options_sorted_distinct df sel :
  options df = Some sel →
  ∀ name vals,
    (name, vals) ∈ [ ("Region"%string, regions sel);
                     ("Category"%string, categories sel);
                     ("SubCategory"%string, subcategories sel) ] →
    ∃ ts, vals = Str <$> ts ∧ StronglySorted before ts
      ∧ ∀ t, t ∈ ts ↔ ∃ r, r ∈ rows df ∧ at_col df name r = Some (Str t).
Proof.
  unfold options. intros Ho name vals Hin.
  destruct (getitem df "Region" ≫= (sorted ∘ unique)) as [r|] eqn:Hr; [|done].
  destruct (getitem df "Category" ≫= (sorted ∘ unique)) as [c|] eqn:Hc; [|done].
  destruct (getitem df "SubCategory" ≫= (sorted ∘ unique)) as [s|] eqn:Hs; [|done].
  simpl in Ho. injection Ho as <-. simpl in Hin.
  repeat (apply elem_of_cons in Hin as [[= -> ->]|Hin]; [by apply selector_column|]).
  by apply elem_of_nil in Hin.
Qed.

Lemma options_sorted_distinct_witness :
  ∃ ts, [Str "East"; Str "West"] = Str <$> ts ∧ StronglySorted before ts
    ∧ ∀ t, t ∈ ts ↔ ∃ r, r ∈ rows Sample.table
                          ∧ at_col Sample.table "Region" r = Some (Str t).
Proof.
  apply (options_sorted_distinct Sample.table
           (mkSelection [Str "East"; Str "West"] [Str "Office"; Str "Tech"]
                        [Str "Paper"; Str "Phones"])).
  - vm_compute; reflexivity.
  - left.
Defined.

(** * The grouped totals *)

Lemma StronglySorted_before_NoDup ks : StronglySorted before ks → NoDup ks.
Proof.
  induction 1 as [|k ks Hs IH Hk]; constructor; [|done].
  intros Hin. rewrite Forall_forall in Hk. by apply Hk, before_irrefl in Hin.
Qed.

(** The entries of a grouping add up to the column total when every
    row belongs to one of the groups. *)
Lemma ranking_adds_up df key col (l : list (string * Q)) :
  NoDup l.*1 →
  (∀ k v, (k, v) ∈ l → v = Qsum (numbers df col (rows_where df key k))) →
  (∀ r, r ∈ rows df → ∃ k, k ∈ l.*1 ∧ at_col df key r = Some (Str k)) →
  (Qsum l.*2 == Qsum (numbers df col (rows df)))%Q.
Proof.
  intros Hnd Hval Hall.
  rewrite (fmap_snd_by_fst
             (fun k => Qsum (numbers df col (rows_where df key k))) l).
  - rewrite numbers_among by done. unfold rows_among.
    rewrite List_filter_all; [done|]. intros r Hr.
    destruct (Hall r Hr) as (k & Hk & Hat). apply existsb_exists.
    exists k. split; [by apply list_elem_of_In|]. by apply bool_decide_eq_true.
  - apply Forall_forall. intros [k v] Hkv. simpl. by apply Hval.
Qed.

Lemma groupby_sum_adds_up df key col g :
  groupby_sum df key col = Some g →
  (∀ r, r ∈ rows df → ∃ t, at_col df key r = Some (Str t)) →
  (Qsum g.*2 == Qsum (numbers df col (rows df)))%Q
  ∧ (Qsum (sort_values_desc g).*2 == Qsum (numbers df col (rows df)))%Q.
Proof.
  intros Hg Htext. split.
  - apply groupby_sum_Some in Hg as (ks & -> & Hs & Hks).
    apply (ranking_adds_up df key).
    + rewrite <-list_fmap_compose. rewrite (list_fmap_ext _ id ks) by done.
      rewrite list_fmap_id. by apply StronglySorted_before_NoDup.
    + intros k v (k' & [= -> ->] & _)%list_elem_of_fmap. done.
    + intros r Hr. destruct (Htext r Hr) as [t Ht]. exists t. split; [|done].
      rewrite <-list_fmap_compose. rewrite (list_fmap_ext _ id ks) by done.
      rewrite list_fmap_id. apply Hks. eauto.
  - apply groupby_ranking in Hg as (_ & Hnd & Hin).
    apply (ranking_adds_up df key); [done|by intros k v [_ ->]%Hin|].
    intros r Hr. destruct (Htext r Hr) as [t Ht]. exists t. split; [|done].
    apply list_elem_of_fmap. eexists (t, _). split; [done|]. apply Hin. eauto.
Qed.

Lemma numbers_Forall2 e sub col rs' rs :
  Forall2 (fun r' r => at_col e col r' = at_col sub col r) rs' rs →
  numbers e col rs' = numbers sub col rs.
Proof.
  induction 1 as [|r' r rs' rs Hr Hrs IH]; [done|].
  rewrite !numbers_cons, Hr, IH. done.
Qed.

Lemma subset_text pd pn file df sel sub r name :
  load_data pd pn file = Some df → filter_frame df sel = Some sub →
  r ∈ rows sub →
  name ∈ ["Region"; "Segment"; "Category"; "SubCategory"; "CustomerName"]%string →
  ∃ t, at_col sub name r = Some (Str t).
Proof.
  intros Hl Hf Hr Hn. unfold at_col. rewrite (filter_frame_columns _ _ _ Hf).
  apply (filter_frame_in _ _ _ _ Hf) in Hr as [Hr _].
  by eapply loaded_text.
Qed.

Lemma subset_total pd pn file df sel sub col total :
  load_data pd pn file = Some df → filter_frame df sel = Some sub →
  getitem sub col ≫= sum_series = Some total →
  total = Qsum (numbers sub col (rows sub)).
Proof.
  intros Hl Hf Ht. unfold getitem in Ht.
  destruct (get_loc col (columns sub)) as [j|] eqn:Hj; [|done].
  by eapply sum_series_numbers.
Qed.

(** The totals of a grouping of the frame with its month column are
    those of the filtered subset. *)
Lemma exported_adds_up pd pn file df sel sub e key col total g :
  load_data pd pn file = Some df → filter_frame df sel = Some sub →
  at_most_one "Month" df → exported df sel = Some e →
  key ∈ ["Region"; "Segment"; "Category"; "SubCategory"; "CustomerName"]%string →
  col ∈ ["Sales"; "Profit"]%string →
  getitem sub col ≫= sum_series = Some total →
  groupby_sum e key col = Some g →
  (Qsum g.*2 == total)%Q ∧ (Qsum (sort_values_desc g).*2 == total)%Q.
Proof.
  intros Hl Hf Hone He Hk Hc Ht Hg.
  destruct (exported_Some _ _ _ _ _ _ Hl Hf Hone)
    as (e' & He' & Hty & Hlab & _ & _ & Hrows).
  assert (e' = e) as -> by congruence.
  assert (key ≠ "Month"%string) as Hkm.
  { intros ->. set_solver. }
  assert (col ≠ "Month"%string) as Hcm.
  { intros ->. set_solver. }
  rewrite (subset_total _ _ _ _ _ _ _ _ Hl Hf Ht).
  rewrite <-(numbers_Forall2 e sub col (rows e) (rows sub)).
  - apply (groupby_sum_adds_up e key col g); [done|]. intros r' Hr'.
    apply list_elem_of_lookup in Hr' as [i Hi].
    destruct (Forall2_lookup_l _ _ _ _ _ Hrows Hi) as (r & Hr & _ & Hsame).
    rewrite (Hsame key Hkm). eapply subset_text; [done..| |done].
    by eapply list_elem_of_lookup_2.
  - eapply Forall2_impl; [exact Hrows|]. intros r' r [_ Hsame]. by apply Hsame.
Qed.





(** * The most profitable subcategories *)



(** * The monthly totals *)

Lemma exported_month_text pd pn file df sel sub e r :
  load_data pd pn file = Some df → filter_frame df sel = Some sub →
  at_most_one "Month" df → exported df sel = Some e → r ∈ rows e →
  ∃ k, at_col e "Month" r = Some (Str k).
Proof.
  intros Hl Hf Hone He Hr.
  destruct (exported_Some _ _ _ _ _ _ Hl Hf Hone)
    as (e' & He' & _ & _ & [j Hj] & _ & Hrows).
  assert (e' = e) as -> by congruence.
  apply list_elem_of_lookup in Hr as [i Hi].
  destruct (Forall2_lookup_l _ _ _ _ _ Hrows Hi) as (r0 & _ & Hm & _).
  assert (is_Some (at_col e "Month" r)) as [c Hc].
  { unfold at_col. rewrite Hj. by eexists. }
  rewrite Hc in Hm. symmetry in Hm.
  destruct (at_col sub "OrderDate" r0) as [c0|]; [|done]. simpl in Hm.
  destruct c0; simplify_eq/=; eauto.
Qed.



(** * The column labels *)

Lemma chars_text l : Py.chars (Py.text l) = l.
Proof. apply list_ascii_of_string_of_list_ascii. Qed.

Lemma length_lstrip l : length (Py.lstrip l) ≤ length l.
Proof. induction l as [|c l IH]; simpl; [done|]. destruct (Py.isspace c); simpl; lia. Qed.

Lemma lstrip_same_length l : length (Py.lstrip l) = length l → Py.lstrip l = l.
Proof.
  destruct l as [|c l]; simpl; [done|]. pose proof (length_lstrip l).
  destruct (Py.isspace c); simpl; [lia|done].
Qed.

Lemma length_rstrip l : length (Py.rstrip l) ≤ length l.
Proof.
  unfold Py.rstrip. rewrite length_rev. pose proof (length_lstrip (rev l)).
  by rewrite length_rev in *.
Qed.

Lemma rstrip_same_length l : length (Py.rstrip l) = length l → Py.rstrip l = l.
Proof.
  unfold Py.rstrip. rewrite length_rev. intros H.
  rewrite lstrip_same_length by (by rewrite length_rev). apply rev_involutive.
Qed.

(** Replacing a character by nothing, and by one character. *)
Lemma removed_length (old : ascii) l :
  length (mbind (M := list) (fun c => if decide (c = old) then [] else [c]) l)
  ≤ length l.
Proof. induction l as [|c l IH]; csimpl; [done|]. case_decide; simpl; lia. Qed.

Lemma removed_same (old : ascii) l :
  length (mbind (M := list) (fun c => if decide (c = old) then [] else [c]) l)
  = length l ↔ old ∉ l.
Proof.
  induction l as [|c l IH]; csimpl.
  - split; [|done]. intros _ H. by apply elem_of_nil in H.
  - pose proof (removed_length old l). rewrite not_elem_of_cons.
    case_decide; simpl; [split; [lia|naive_solver]|].
    rewrite <-IH. split; [intros [= ?]; split; [congruence|done]|intros [_ ?]; lia].
Qed.

Lemma removed_absent (old : ascii) l :
  old ∉ l →
  mbind (M := list) (fun c => if decide (c = old) then [] else [c]) l = l.
Proof.
  induction l as [|c l IH]; csimpl; [done|]. intros [Hc Hl]%not_elem_of_cons.
  rewrite decide_False by congruence. simpl. f_equal. by apply IH.
Qed.

Lemma substituted_length (old new : ascii) l :
  length (mbind (M := list) (fun c => if decide (c = old) then [new] else [c]) l)
  = length l.
Proof. induction l as [|c l IH]; csimpl; [done|]. case_decide; simpl; lia. Qed.

Lemma substituted_absent (old new : ascii) l :
  old ∉ l →
  mbind (M := list) (fun c => if decide (c = old) then [new] else [c]) l = l.
Proof.
  induction l as [|c l IH]; csimpl; [done|]. intros [Hc Hl]%not_elem_of_cons.
  rewrite decide_False by congruence. simpl. f_equal. by apply IH.
Qed.

Lemma clean_label_chars s :
  Py.chars (clean_label s)
  = mbind (M := list) (fun c => if decide (c = Py.chr 46) then [] else [c])
      (mbind (M := list) (fun c => if decide (c = Py.chr 32) then [Py.chr 95] else [c])
         (Py.rstrip (Py.lstrip (Py.chars s)))).
Proof. unfold clean_label, Py.replace, Py.strip. by rewrite !chars_text. Qed.

(** X7.  A cleaned label holds no space and no period.  A label is left as
    it is exactly when it holds neither and has no white space at either
    end. *)
Theorem clean_label_result s :
  ((Py.chr 32 ∉ Py.chars (clean_label s)) ∧ (Py.chr 46 ∉ Py.chars (clean_label s)))
  ∧ (clean_label s = s ↔
       (Py.chr 32 ∉ Py.chars s) ∧ (Py.chr 46 ∉ Py.chars s)
       ∧ Py.lstrip (Py.chars s) = Py.chars s
       ∧ Py.rstrip (Py.chars s) = Py.chars s).
Proof.
  assert (Hno : (Py.chr 32 ∉ Py.chars (clean_label s))
                ∧ (Py.chr 46 ∉ Py.chars (clean_label s))).
  { rewrite clean_label_chars. split.
    - intros (y & Hy & (z & Hz & _)%list_elem_of_bind)%list_elem_of_bind.
      destruct (decide (y = Py.chr 46)); [by apply elem_of_nil in Hy|].
      apply list_elem_of_singleton in Hy as <-.
      destruct (decide (z = Py.chr 32)); apply list_elem_of_singleton in Hz;
        [discriminate Hz|congruence].
    - intros (y & Hy & _)%list_elem_of_bind.
      destruct (decide (y = Py.chr 46)); [by apply elem_of_nil in Hy|].
      apply list_elem_of_singleton in Hy. congruence. }
  split; [done|]. split.
  - intros Heq. destruct Hno as [Hsp Hdot]. rewrite Heq in Hsp, Hdot.
    split; [done|]. split; [done|].
    apply (f_equal Py.chars) in Heq. rewrite clean_label_chars in Heq.
    apply (f_equal length) in Heq.
    pose proof (removed_length (Py.chr 46)
      (mbind (M := list) (fun c => if decide (c = Py.chr 32) then [Py.chr 95] else [c])
         (Py.rstrip (Py.lstrip (Py.chars s))))) as H1.
    rewrite substituted_length in H1.
    pose proof (length_rstrip (Py.lstrip (Py.chars s))) as H2.
    pose proof (length_lstrip (Py.chars s)) as H3.
    assert (Py.lstrip (Py.chars s) = Py.chars s) as Hl
      by (apply lstrip_same_length; lia).
    split; [done|]. rewrite Hl in H1, H2, Heq. apply rstrip_same_length. lia.
  - intros (Hsp & Hdot & Hl & Hr).
    assert (Py.chars (clean_label s) = Py.chars s) as Hc.
    { rewrite clean_label_chars, Hl, Hr.
      rewrite (substituted_absent _ _ _ Hsp). by apply removed_absent. }
    apply (f_equal Py.text) in Hc. unfold Py.text, Py.chars in Hc.
    by rewrite !string_of_list_ascii_of_string in Hc.
Qed.

(** * The steps of the loader *)

Lemma get_loc_at_most_one name df i :
  get_loc name (columns df) = Some i → at_most_one name df.
Proof. intros H%get_loc_positions. unfold at_most_one. by rewrite H. Qed.

Lemma length_getitem df name s : getitem df name = Some s → length s = length (rows df).
Proof.
  unfold getitem. destruct (get_loc _ _); [|done]. simpl. intros [= <-].
  by rewrite length_fmap.
Qed.

(** Assigning to a column that exists: the labels and the number of rows
    stay, the column reads as what was assigned, every other column reads
    as before. *)
Lemma setitem_keeps sch df name s e i :
  typed sch df → get_loc name (columns df) = Some i →
  setitem df name s = Some e →
  columns e = columns df ∧ length (rows e) = length (rows df)
  ∧ getitem e name = Some s
  ∧ ∀ n, n ≠ name → getitem e n = getitem df n.
Proof.
  intros Ht Hi Hs. pose proof (setitem_columns _ _ _ _ _ Hi Hs) as Hc.
  destruct (setitem_rows _ _ _ _ _ Ht (get_loc_at_most_one _ _ _ Hi) Hs)
    as (_ & Hloc & Hrows).
  assert (length s = length (rows df)) as Hlen.
  { unfold setitem in Hs. by case_decide. }
  assert (length (rows e) = length (rows df)) as Hlen'.
  { apply Forall2_length in Hrows. rewrite length_zip in Hrows. lia. }
  split; [done|]. split; [done|]. split.
  - unfold getitem. rewrite Hc, Hi. simpl. f_equal.
    apply list_eq_same_length with (length s); [done|rewrite length_fmap; lia|].
    intros j c c' Hj. rewrite list_lookup_fmap. intros Hc' Hsj.
    destruct (rows e !! j) as [r'|] eqn:Hr'; [|done]. simpl in Hc'. simplify_eq.
    destruct (Forall2_lookup_l _ _ _ _ _ Hrows Hr') as ([r c0] & Hz & Hat & _).
    apply lookup_zip_Some in Hz as [_ Hz]. simpl in *.
    unfold at_col in Hat. rewrite Hc, Hi in Hat. simpl in Hat. congruence.
  - intros n Hn. unfold getitem. rewrite (Hloc n Hn).
    destruct (get_loc n (columns df)) as [j|] eqn:Hj; [|done]. simpl. f_equal.
    apply list_eq_same_length with (length (rows df));
      [by rewrite length_fmap|by rewrite length_fmap|].
    intros k c c' Hk. rewrite !list_lookup_fmap. intros Hc1 Hc2.
    destruct (rows e !! k) as [r'|] eqn:Hr'; [|done].
    destruct (rows df !! k) as [r|] eqn:Hr; [|done]. simpl in *. simplify_eq.
    destruct (Forall2_lookup_l _ _ _ _ _ Hrows Hr') as ([r0 c0] & Hz & _ & Hsame).
    apply lookup_zip_Some in Hz as [Hz _]. simpl in *. simplify_eq.
    specialize (Hsame n Hn). unfold at_col in Hsame.
    rewrite (Hloc n Hn), Hj in Hsame. simpl in Hsame. congruence.
Qed.

(** The frame after the labels are cleaned and the stray column is
    dropped. *)
Lemma relabelled_columns raw :
  columns (drop_column stray_column (mkFrame (clean_label <$> columns raw) (rows raw)))
  = List.filter (fun n => bool_decide (n ≠ stray_column)) (clean_label <$> columns raw).
Proof. unfold drop_column. simpl. apply select_fmap. Qed.

Lemma length_to_datetime pd s :
  (∀ l, length (pd l) = length l) → length (to_datetime pd s) = length s.
Proof.
  intros Hpd. unfold to_datetime. rewrite length_zip_with, Hpd, length_fmap. lia.
Qed.

Lemma length_to_numeric pn s : length (to_numeric pn s) = length s.
Proof. unfold to_numeric. by rewrite length_fmap. Qed.

(** What the coercions of [load_data] do to the frame that was read. *)
Lemma coerced_steps pd pn file dfc :
  coerced pd pn file = Some dfc →
  ∃ raw d1,
    Csv.read_csv file = Some raw
    ∧ d1 = drop_column stray_column (mkFrame (clean_label <$> columns raw) (rows raw))
    ∧ typed (fun _ => KText) d1
    ∧ columns dfc = columns d1
    ∧ length (rows dfc) = length (rows d1)
    ∧ (∀ n, n ∉ ["OrderDate"; "ShipDate"; "Sales"; "Profit"]%string →
         getitem dfc n = getitem d1 n)
    ∧ (∃ s, getitem d1 "OrderDate" = Some s
            ∧ getitem dfc "OrderDate" = Some (to_datetime pd s))
    ∧ (∃ s, getitem d1 "ShipDate" = Some s
            ∧ getitem dfc "ShipDate" = Some (to_datetime pd s))
    ∧ (∃ s, getitem d1 "Sales" = Some s
            ∧ getitem dfc "Sales" = Some (to_numeric pn s))
    ∧ (∃ s, getitem d1 "Profit" = Some s
            ∧ getitem dfc "Profit" = Some (to_numeric pn s)).
Proof.
  unfold coerced. intros H.
  destruct (Csv.read_csv file) as [raw|] eqn:H0; [|done]. simpl in H.
  exists raw, (drop_column stray_column (mkFrame (clean_label <$> columns raw) (rows raw))).
  split; [done|]. split; [done|].
  apply read_csv_typed in H0.
  set (d1 := drop_column stray_column (mkFrame (clean_label <$> columns raw) (rows raw))) in *.
  assert (T1 : typed (fun _ => KText) d1).
  { apply typed_drop_column. destruct raw as [c0 r0]. simpl.
    eapply typed_const_columns; [|exact H0]. by rewrite length_fmap. }
  clearbody d1. clear H0 raw. split; [done|].
  destruct (getitem d1 "OrderDate") as [s1|] eqn:G1; [|done]. simpl in H.
  destruct (setitem d1 "OrderDate" _) as [d2|] eqn:S1; [|done]. simpl in H.
  destruct (getitem d2 "ShipDate") as [s2|] eqn:G2; [|done]. simpl in H.
  destruct (setitem d2 "ShipDate" _) as [d3|] eqn:S2; [|done]. simpl in H.
  destruct (getitem d3 "Sales") as [s3|] eqn:G3; [|done]. simpl in H.
  destruct (setitem d3 "Sales" _) as [d4|] eqn:S3; [|done]. simpl in H.
  destruct (getitem d4 "Profit") as [s4|] eqn:G4; [|done]. simpl in H.
  assert (∀ d n s, getitem d n = Some s → is_Some (get_loc n (columns d))) as Hloc.
  { intros d n s. unfold getitem. destruct (get_loc n (columns d)); [by eexists|done]. }
  destruct (Hloc _ _ _ G1) as [i1 L1]. destruct (Hloc _ _ _ G2) as [i2 L2].
  destruct (Hloc _ _ _ G3) as [i3 L3]. destruct (Hloc _ _ _ G4) as [i4 L4].
  pose proof (setitem_typed _ _ _ KDate _ _ T1 (to_datetime_kind pd s1) S1) as T2.
  pose proof (setitem_typed _ _ _ KDate _ _ T2 (to_datetime_kind pd s2) S2) as T3.
  pose proof (setitem_typed _ _ _ KNum _ _ T3 (to_numeric_kind pn s3) S3) as T4.
  destruct (setitem_keeps _ _ _ _ _ _ T1 L1 S1) as (C1 & N1 & E1 & O1).
  destruct (setitem_keeps _ _ _ _ _ _ T2 L2 S2) as (C2 & N2 & E2 & O2).
  destruct (setitem_keeps _ _ _ _ _ _ T3 L3 S3) as (C3 & N3 & E3 & O3).
  destruct (setitem_keeps _ _ _ _ _ _ T4 L4 H) as (C4 & N4 & E4 & O4).
  split; [congruence|]. split; [congruence|]. split.
  { intros n Hn. rewrite O4, O3, O2, O1; [done|intros ->; set_solver..]. }
  split; [exists s1; split; [done|]; by rewrite O4, O3, O2|].
  split; [exists s2; split; [by rewrite <-O1|]; by rewrite O4, O3|].
  split; [exists s3; split; [by rewrite <-O1, <-O2|]; by rewrite O4|].
  exists s4. split; [by rewrite <-O1, <-O2, <-O3|done].
Qed.

Lemma stray_not_loaded name : name ∈ loaded_labels → name ≠ stray_column.
Proof.
  unfold loaded_labels, critical. intros Hn ->.
  repeat (apply elem_of_cons in Hn as [Hn|Hn]; [by vm_compute in Hn|]).
  by apply elem_of_nil in Hn.
Qed.

(** * The table the loader returns *)

Lemma loaded_columns pd pn file df :
  load_data pd pn file = Some df →
  ∃ raw, Csv.read_csv file = Some raw
    ∧ columns df
      = List.filter (fun n => bool_decide (n ≠ stray_column))
          (clean_label <$> columns raw)
    ∧ length (rows df) ≤ length (rows raw).
Proof.
  intros (dfc & Hc & Hd)%load_data_Some.
  apply coerced_steps in Hc
    as (raw & d1 & Hraw & -> & _ & Hcols & Hlen & _).
  exists raw. split; [done|]. split.
  - by rewrite (dropna_columns _ _ _ Hd), Hcols, relabelled_columns.
  - apply dropna_Some in Hd as (idx & _ & ->). simpl.
    etrans; [apply length_List_filter_le|]. rewrite Hlen.
    unfold drop_column. simpl. by rewrite length_fmap.
Qed.

(** X8.  The columns of the loaded table are the cleaned labels of the
    header, in the order of the file, without the stray label; every row
    has one cell per column; and there is at most one row per data line. *)
Theorem load_data_frame pd pn file df :
  load_data pd pn file = Some df →
  ∃ raw, Csv.read_csv file = Some raw
    ∧ columns df
      = List.filter (fun n => bool_decide (n ≠ stray_column))
          (clean_label <$> columns raw)
    ∧ (stray_column ∉ columns df)
    ∧ Forall (fun r => length r = length (columns df)) (rows df)
    ∧ length (rows df) ≤ length (rows raw).
Proof.
  intros Hl. pose proof (load_data_typed _ _ _ _ Hl) as Ht.
  destruct (loaded_columns _ _ _ _ Hl) as (raw & Hraw & Hdf & Hlen).
  exists raw. split; [done|]. split; [done|]. split; [|split; [|done]].
  - rewrite Hdf. intros [_ Hn]%elem_of_List_filter.
    by apply bool_decide_eq_true in Hn.
  - apply Forall_forall. intros r Hr. by eapply typed_row_length.
Qed.

Lemma load_data_frame_witness :
  ∃ raw, Csv.read_csv Sample.file = Some raw
    ∧ columns Sample.table
      = List.filter (fun n => bool_decide (n ≠ stray_column))
          (clean_label <$> columns raw)
    ∧ (stray_column ∉ columns Sample.table)
    ∧ Forall (fun r => length r = length (columns Sample.table)) (rows Sample.table)
    ∧ length (rows Sample.table) ≤ length (rows raw).
Proof.
  apply (load_data_frame Sample.parse_dates Sample.parse_number). vm_compute; reflexivity.
Defined.

(** X9.  The coercions change the four coerced columns and nothing else:
    OrderDate and ShipDate hold the dates read from the texts of the file,
    Sales and Profit the numbers, and every other column reads as
    [read_csv] delivered it. *)
Theorem coercions_touch_four_columns pd pn file dfc :
  coerced pd pn file = Some dfc →
  ∃ raw, Csv.read_csv file = Some raw ∧
    let read := drop_column stray_column
                  (mkFrame (clean_label <$> columns raw) (rows raw)) in
    columns dfc = columns read
    ∧ length (rows dfc) = length (rows raw)
    ∧ (∀ n, n ∉ ["OrderDate"; "ShipDate"; "Sales"; "Profit"]%string →
         getitem dfc n = getitem read n)
    ∧ (∀ n, n ∈ ["OrderDate"; "ShipDate"]%string →
         ∃ s, getitem read n = Some s ∧ getitem dfc n = Some (to_datetime pd s))
    ∧ (∀ n, n ∈ ["Sales"; "Profit"]%string →
         ∃ s, getitem read n = Some s ∧ getitem dfc n = Some (to_numeric pn s)).
Proof.
  intros (raw & d1 & Hraw & -> & _ & Hcols & Hlen & Hother & H1 & H2 & H3 & H4)%coerced_steps.
  exists raw. split; [done|]. simpl. split; [done|]. split.
  { rewrite Hlen. unfold drop_column. simpl. by rewrite length_fmap. }
  split; [done|]. split; intros n Hn.
  - repeat (apply elem_of_cons in Hn as [->|Hn]; [done|]). by apply elem_of_nil in Hn.
  - repeat (apply elem_of_cons in Hn as [->|Hn]; [done|]). by apply elem_of_nil in Hn.
Qed.

Lemma coercions_touch_four_columns_witness :
  ∃ dfc raw, coerced Sample.parse_dates Sample.parse_number Sample.file = Some dfc
    ∧ Csv.read_csv Sample.file = Some raw
    ∧ getitem dfc "Region"
      = getitem (drop_column stray_column
                   (mkFrame (clean_label <$> columns raw) (rows raw))) "Region".
Proof.
  assert (∃ dfc, coerced Sample.parse_dates Sample.parse_number Sample.file = Some dfc)
    as [dfc Hc] by (vm_compute; eexists; reflexivity).
  destruct (coercions_touch_four_columns _ _ _ _ Hc) as (raw & Hraw & _ & _ & Hother & _).
  exists dfc, raw. split; [exact Hc|]. split; [exact Hraw|]. apply Hother.
  intros Hn. repeat (apply elem_of_cons in Hn as [Hn|Hn]; [discriminate Hn|]).
  by apply elem_of_nil in Hn.
Defined.

(** X10.  The rows of the loaded table are the coerced rows that have a value
    in each of the seven mandatory columns, in the order of the file. *)
Theorem load_data_rows pd pn file dfc df :
  coerced pd pn file = Some dfc → load_data pd pn file = Some df →
  columns df = columns dfc
  ∧ ∃ keep : list cell → bool,
      rows df = List.filter keep (rows dfc)
      ∧ ∀ r, keep r = true ↔
          ∀ name, name ∈ critical → ∃ c, at_col dfc name r = Some c ∧ c ≠ NaN.
Proof.
  intros Hc (dfc' & Hc' & Hd)%load_data_Some. assert (dfc' = dfc) as -> by congruence.
  apply dropna_Some in Hd as (idx & Hidx & ->). simpl. split; [done|].
  eexists. split; [reflexivity|]. intros r. rewrite forallb_forall. split.
  - intros Hall name Hn. apply list_elem_of_lookup in Hn as [j Hj].
    destruct (Forall2_lookup_l _ _ _ _ _ Hidx Hj) as (i & Hi & Hloc).
    exists (r !!! i). unfold at_col. rewrite Hloc. split; [done|].
    specialize (Hall i). rewrite <-list_elem_of_In in Hall.
    specialize (Hall (list_elem_of_lookup_2 _ _ _ Hi)).
    intros Heq. by rewrite Heq in Hall.
  - intros Hall i Hi. apply list_elem_of_In, list_elem_of_lookup in Hi as [j Hj].
    destruct (Forall2_lookup_r _ _ _ _ _ Hidx Hj) as (name & Hn & Hloc).
    destruct (Hall name (list_elem_of_lookup_2 _ _ _ Hn)) as (c & Hc1 & Hne).
    unfold at_col in Hc1. rewrite Hloc in Hc1. simpl in Hc1. simplify_eq.
    by destruct (r !!! i).
Qed.

Lemma load_data_rows_witness :
  ∃ dfc, coerced Sample.parse_dates Sample.parse_number Sample.file = Some dfc
    ∧ columns Sample.table = columns dfc
    ∧ ∃ keep : list cell → bool,
        rows Sample.table = List.filter keep (rows dfc)
        ∧ ∀ r, keep r = true ↔
            ∀ name, name ∈ critical → ∃ c, at_col dfc name r = Some c ∧ c ≠ NaN.
Proof.
  assert (∃ dfc, coerced Sample.parse_dates Sample.parse_number Sample.file = Some dfc)
    as [dfc Hc] by (vm_compute; eexists; reflexivity).
  exists dfc. split; [exact Hc|].
  apply (load_data_rows Sample.parse_dates Sample.parse_number Sample.file);
    [exact Hc|vm_compute; reflexivity].
Defined.

(** * When the loader succeeds *)

Lemma get_loc_NoDup name cols :
  NoDup cols → name ∈ cols → is_Some (get_loc name cols).
Proof.
  intros Hnd Hin. pose proof (Reload.NoDup_positions name cols 0 Hnd) as Hle.
  unfold get_loc. destruct (positions name cols 0) as [|i [|j l]] eqn:Hp.
  - apply positions_nil in Hp. done.
  - by eexists.
  - simpl in Hle. lia.
Qed.

Lemma get_loc_elem_of name cols : is_Some (get_loc name cols) → name ∈ cols.
Proof. intros [i Hi%get_loc_Some]. by eapply list_elem_of_lookup_2. Qed.

(** One coercion of [load_data] goes through when the column is there
    once and the coerced column has the length of the column. *)
Lemma coerce_step d name (F : Series → Series) :
  is_Some (get_loc name (columns d)) → (∀ s, length (F s) = length s) →
  ∃ s d', getitem d name = Some s ∧ setitem d name (F s) = Some d'
          ∧ columns d' = columns d.
Proof.
  intros [i Hi] HF.
  assert (getitem d name = Some ((fun r => r !!! i) <$> rows d)) as Hg.
  { unfold getitem. by rewrite Hi. }
  exists ((fun r => r !!! i) <$> rows d).
  assert (is_Some (setitem d name (F ((fun r => r !!! i) <$> rows d)))) as [d' Hs].
  { unfold setitem. rewrite decide_True by (by rewrite HF, length_fmap).
    rewrite (get_loc_positions _ _ _ Hi). by eexists. }
  exists d'. split; [done|]. split; [done|]. by eapply setitem_columns.
Qed.

(** X11.  On a file whose cleaned header labels are distinct, [load_data]
    returns a table exactly when each of the nine labels it works on is
    among them; a label that is missing is a [KeyError]. *)
Theorem load_data_succeeds pd pn file raw :
  (∀ l, length (pd l) = length l) →
  Csv.read_csv file = Some raw → NoDup (clean_label <$> columns raw) →
  is_Some (load_data pd pn file) ↔
  ∀ name, name ∈ loaded_labels → name ∈ clean_label <$> columns raw.
Proof.
  intros Hpd Hraw Hnd. split.
  - intros [df Hl] name Hn.
    pose proof (load_data_labels _ _ _ _ name Hl Hn) as Hloc%get_loc_elem_of.
    destruct (loaded_columns _ _ _ _ Hl) as (raw' & Hraw' & Hcols & _).
    assert (raw' = raw) as -> by congruence.
    rewrite Hcols in Hloc. by apply elem_of_List_filter in Hloc as [? _].
  - intros Hall.
    set (d1 := drop_column stray_column (mkFrame (clean_label <$> columns raw) (rows raw))).
    assert (∀ name, name ∈ loaded_labels → is_Some (get_loc name (columns d1))) as H1.
    { intros name Hn. unfold d1. rewrite relabelled_columns.
      apply get_loc_NoDup; [by apply NoDup_List_filter|].
      apply elem_of_List_filter. split; [by apply Hall|].
      apply bool_decide_eq_true. by apply stray_not_loaded. }
    assert (∀ s, length (to_datetime pd s) = length s) as Hdt
      by (intros s; by apply length_to_datetime).
    pose proof (length_to_numeric pn) as Hnum.
    destruct (coerce_step d1 "OrderDate" (to_datetime pd)) as (s1 & d2 & G1 & S1 & C1);
      [apply H1; unfold loaded_labels, critical; set_solver|done|].
    destruct (coerce_step d2 "ShipDate" (to_datetime pd)) as (s2 & d3 & G2 & S2 & C2);
      [rewrite C1; apply H1; unfold loaded_labels, critical; set_solver|done|].
    destruct (coerce_step d3 "Sales" (to_numeric pn)) as (s3 & d4 & G3 & S3 & C3);
      [rewrite C2, C1; apply H1; unfold loaded_labels, critical; set_solver|done|].
    destruct (coerce_step d4 "Profit" (to_numeric pn)) as (s4 & d5 & G4 & S4 & C4);
      [rewrite C3, C2, C1; apply H1; unfold loaded_labels, critical; set_solver|done|].
    assert (coerced pd pn file = Some d5) as Hc.
    { unfold coerced. rewrite Hraw. simpl. fold d1.
      rewrite G1. simpl. rewrite S1. simpl. rewrite G2. simpl. rewrite S2. simpl.
      rewrite G3. simpl. rewrite S3. simpl. rewrite G4. simpl. exact S4. }
    unfold load_data. rewrite Hc. simpl. unfold dropna.
    assert (is_Some (mapM (fun n => get_loc n (columns d5)) critical)) as [idx ->].
    { apply mapM_is_Some, Forall_forall. intros name Hn.
      rewrite C4, C3, C2, C1. apply H1. unfold loaded_labels. set_solver. }
    simpl. by eexists.
Qed.

Lemma load_data_succeeds_witness :
  ∃ raw, Csv.read_csv Sample.file = Some raw
    ∧ (is_Some (Sample.load Sample.file) ↔
       ∀ name, name ∈ loaded_labels → name ∈ clean_label <$> columns raw).
Proof.
  assert (∃ raw, Csv.read_csv Sample.file = Some raw) as [raw Hraw]
    by (vm_compute; eexists; reflexivity).
  exists raw. split; [exact Hraw|].
  apply (load_data_succeeds Sample.parse_dates Sample.parse_number Sample.file raw).
  - intros l. unfold Sample.parse_dates. by rewrite length_fmap.
  - exact Hraw.
  - vm_compute in Hraw. injection Hraw as <-. apply (bool_decide_unpack _).
    vm_compute. exact I.
Defined.

(** * The two encodings *)

Lemma length_utf8_char c :
  length (Py.utf8_char c) = if Py.isascii c then 1 else 2.
Proof. unfold Py.utf8_char, Py.isascii. by destruct (Py.ord c <? 128). Qed.

(** X12.  The export encodes a character below 128 as one byte and any other
    as two; read as ISO-8859-1, the bytes give back the text exactly when
    every character of it is below 128. *)
Theorem utf8_read_as_latin1 l :
  length (Py.encode_utf8 l)
  = length l + length (List.filter (fun c => negb (Py.isascii c)) l)
  ∧ (Py.decode_latin1 (Py.encode_utf8 l) = l ↔ forallb Py.isascii l = true).
Proof.
  assert (Hlen : length (Py.encode_utf8 l)
                 = length l + length (List.filter (fun c => negb (Py.isascii c)) l)).
  { induction l as [|c l IH]; [done|]. unfold Py.encode_utf8 in *. csimpl.
    rewrite length_app, IH, length_utf8_char. destruct (Py.isascii c); simpl; lia. }
  split; [done|]. split; [|apply ExportFacts.decode_encode_ascii].
  intros Heq. apply (f_equal length) in Heq.
  unfold Py.decode_latin1 in Heq. rewrite length_fmap, Hlen in Heq.
  assert (length (List.filter (fun c => negb (Py.isascii c)) l) = 0) as Hz by lia.
  apply forallb_forall. intros c Hc%list_elem_of_In.
  destruct (Py.isascii c) eqn:E; [done|]. exfalso.
  assert (c ∈ List.filter (fun c => negb (Py.isascii c)) l) as Hin.
  { apply elem_of_List_filter. by rewrite E. }
  destruct (List.filter _ l); [by apply elem_of_nil in Hin|done].
Qed.

(** * The tokenizer *)

Lemma tokenize_from_unquoted st p input :
  st ≠ Csv.IN_QUOTED_FIELD → Csv.quote ∉ input →
  is_Some (Csv.tokenize_from st p input).
Proof.
  revert st p. induction input as [|c rest IH]; intros st p Hst Hq.
  - simpl. destruct st; try done; by eexists.
  - apply not_elem_of_cons in Hq as [Hc Hq]. rewrite CsvFacts.tokenize_cons.
    apply IH; [|done]. clear IH.
    assert (∀ q, (Csv.start_field c q).1 ≠ Csv.IN_QUOTED_FIELD) as Hsf.
    { intros q. unfold Csv.start_field.
      repeat case_decide; simpl; congruence. }
    assert (∀ q, (Csv.start_record c rest q).1 ≠ Csv.IN_QUOTED_FIELD) as Hsr.
    { intros q. unfold Csv.start_record.
      repeat case_decide; try destruct (Csv.blank_rest rest); simpl;
        first [congruence|apply Hsf]. }
    destruct st; simpl; try done;
      first [apply Hsf|apply Hsr|repeat case_decide; simpl; first [congruence|apply Hsr]].
Qed.



(** X14.  What the writer writes, the tokenizer reads back: lines of two or
    more fields come back field by field, also when a field holds the
    delimiter, the quote character or a line feed. *)
Theorem written_lines_read_back (rws : list (list (list ascii))) :
  Forall (fun fs => 2 ≤ length fs ∧ Forall (fun f => Csv.CR ∉ f) fs) rws →
  Csv.tokenize (mbind (M := list) Csv.write_row rws)
  = Some ((fun fs : list (list ascii) => Py.text <$> fs) <$> rws).
Proof.
  intros H. unfold Csv.tokenize.
  rewrite (ExportFacts.tokenize_lines rws [] H). simpl.
  by rewrite app_nil_r, rev_involutive.
Qed.

Lemma written_lines_read_back_witness :
  Csv.tokenize (mbind (M := list) Csv.write_row
                  [ [Py.chars "Smith, J"; Py.chars "5"];
                    [Py.chars "a
b"; Py.chars "3"] ])
  = Some [ ["Smith, J"; "5"]; ["a
b"; "3"] ]%string.
Proof.
  apply (written_lines_read_back
           [ [Py.chars "Smith, J"; Py.chars "5"]; [Py.chars "a
b"; Py.chars "3"] ]).
  repeat constructor; simpl; try lia;
    intros Hn; repeat (apply elem_of_cons in Hn as [Hn|Hn]; [discriminate Hn|]);
    by apply elem_of_nil in Hn.
Defined.

(** * The frame with the month column *)

(** Assigning a column leaves the number of rows and every other column
    as they were, whether the column is new or replaces the one of that
    label. *)
Lemma setitem_others sch df name s e :
  typed sch df → at_most_one name df → setitem df name s = Some e →
  length (rows e) = length (rows df)
  ∧ ∀ n, n ≠ name → getitem e n = getitem df n.
Proof.
  intros Ht Hone Hs.
  destruct (setitem_rows _ _ _ _ _ Ht Hone Hs) as (_ & Hloc & Hrows).
  assert (length s = length (rows df)) as Hlen.
  { unfold setitem in Hs. by case_decide. }
  assert (length (rows e) = length (rows df)) as Hlen'.
  { apply Forall2_length in Hrows. rewrite length_zip in Hrows. lia. }
  split; [done|].
  intros n Hn. unfold getitem. rewrite (Hloc n Hn).
  destruct (get_loc n (columns df)) as [j|] eqn:Hj; [|done]. simpl. f_equal.
  apply list_eq_same_length with (length (rows df));
    [by rewrite length_fmap|by rewrite length_fmap|].
  intros k c c' Hk. rewrite !list_lookup_fmap. intros Hc1 Hc2.
  destruct (rows e !! k) as [r'|] eqn:Hr'; [|done].
  destruct (rows df !! k) as [r|] eqn:Hr; [|done]. simpl in *. simplify_eq.
  destruct (Forall2_lookup_l _ _ _ _ _ Hrows Hr') as ([r0 c0] & Hz & _ & Hsame).
  apply lookup_zip_Some in Hz as [Hz _]. simpl in *. simplify_eq.
  specialize (Hsame n Hn). unfold at_col in Hsame.
  rewrite (Hloc n Hn), Hj in Hsame. simpl in Hsame. congruence.
Qed.

Lemma export_frame_rows pd pn file df sel sub e :
  load_data pd pn file = Some df → filter_frame df sel = Some sub →
  at_most_one "Month" df → exported df sel = Some e →
  length (rows e) = length (rows sub)
  ∧ ∀ n, n ≠ "Month"%string → getitem e n = getitem sub n.
Proof.
  intros Hl Hf Hone He.
  apply exported_parts in He as (sub' & m & Hf' & Hm & Hs).
  assert (sub' = sub) as -> by congruence.
  pose proof (subset_typed _ _ _ _ _ _ Hl Hf) as Ht.
  assert (at_most_one "Month" sub) as Hone'.
  { unfold at_most_one. by rewrite (filter_frame_columns _ _ _ Hf). }
  by eapply setitem_others.
Qed.

(** X15.  The frame that is downloaded and shown as raw data is the filtered
    subset with the month column: as many rows, every column of the
    subset unchanged, and [Month] as a new last column unless the source
    had a column of that label, which is then overwritten. *)
Theorem export_extends_subset pd pn file df sel sub e :
  load_data pd pn file = Some df → filter_frame df sel = Some sub →
  at_most_one "Month" df → exported df sel = Some e →
  length (rows e) = length (rows sub)
  ∧ (∀ n, n ≠ "Month"%string → getitem e n = getitem sub n)
  ∧ ("Month"%string ∉ columns df → columns e = columns df ++ ["Month"%string])
  ∧ ("Month"%string ∈ columns df → columns e = columns df).
Proof.
  intros Hl Hf Hone He.
  apply exported_parts in He as (sub' & m & Hf' & Hm & Hs).
  assert (sub' = sub) as -> by congruence.
  pose proof (subset_typed _ _ _ _ _ _ Hl Hf) as Ht.
  pose proof (filter_frame_columns _ _ _ Hf) as Hcols.
  assert (at_most_one "Month" sub) as Hone'.
  { unfold at_most_one. by rewrite Hcols. }
  destruct (setitem_others _ _ _ _ _ Ht Hone' Hs) as [Hlen Hothers].
  split; [done|]. split; [done|]. rewrite <-Hcols.
  unfold setitem in Hs. case_decide; [|done].
  destruct (positions "Month" (columns sub) 0) as [|p ps] eqn:Hp.
  - injection Hs as <-. simpl. split; [done|].
    intros Hin. by apply positions_nil in Hp.
  - injection Hs as <-. simpl. split; [|done].
    intros Hnot%positions_nil. congruence.
Qed.

Lemma export_extends_subset_witness :
  ∃ e, exported Sample.table Sample.east = Some e
    ∧ length (rows e) = 2
    ∧ columns e = columns Sample.table ++ ["Month"%string].
Proof.
  assert (∃ e, exported Sample.table Sample.east = Some e) as [e He]
    by (vm_compute; eexists; reflexivity).
  destruct (export_extends_subset Sample.parse_dates Sample.parse_number Sample.file
              Sample.table Sample.east
              (mkFrame (columns Sample.table) [Sample.row1; Sample.row3]) e)
    as (Hlen & _ & Hnew & _).
  - vm_compute; reflexivity.
  - vm_compute; reflexivity.
  - unfold at_most_one. vm_compute. lia.
  - exact He.
  - exists e. split; [exact He|]. split; [exact Hlen|]. apply Hnew.
    intros Hn. repeat (apply elem_of_cons in Hn as [Hn|Hn]; [discriminate Hn|]).
    by apply elem_of_nil in Hn.
Defined.

(** * Narrowing a selection *)

Lemma List_filter_sublist {A} (p q : A → bool) l :
  (∀ x, p x = true → q x = true) → sublist (List.filter p l) (List.filter q l).
Proof.
  intros Hpq. induction l as [|x l IH]; simpl; [done|].
  destruct (p x) eqn:Hp.
  - rewrite (Hpq x Hp). by constructor.
  - destruct (q x); [by constructor|done].
Qed.

Lemma List_filter_filter {A} (p q : A → bool) l :
  (∀ x, p x = true → q x = true) →
  List.filter p (List.filter q l) = List.filter p l.
Proof.
  intros Hpq. induction l as [|x l IH]; simpl; [done|].
  destruct (q x) eqn:Hq; simpl.
  - rewrite IH. done.
  - destruct (p x) eqn:Hp; [|done]. rewrite (Hpq x Hp) in Hq. done.
Qed.

(** X16.  The filter depends on the selected values only as sets, and grows
    with them: a narrower selection yields a part of the wider subset, in
    the same order, and is also what filtering the wider subset yields. *)
Theorem filter_frame_narrower df sel sel' sub sub' :
  filter_frame df sel = Some sub → filter_frame df sel' = Some sub' →
  regions sel ⊆ regions sel' → categories sel ⊆ categories sel' →
  subcategories sel ⊆ subcategories sel' →
  sublist (rows sub) (rows sub')
  ∧ filter_frame sub' sel = Some sub
  ∧ (regions sel' ⊆ regions sel → categories sel' ⊆ categories sel →
     subcategories sel' ⊆ subcategories sel → sub = sub').
Proof.
  intros (i & j & k & Hi & Hj & Hk & ->)%filter_frame_Some
         (i' & j' & k' & Hi' & Hj' & Hk' & ->)%filter_frame_Some Hr Hc Hs.
  simplify_eq. simpl.
  assert (∀ (a b : list cell) c,
            a ⊆ b → bool_decide (c ∈ a) = true → bool_decide (c ∈ b) = true) as Hsub.
  { intros a b c Hab Hin%bool_decide_eq_true. apply bool_decide_eq_true. by apply Hab. }
  assert (∀ r : list cell,
            bool_decide (r !!! i ∈ regions sel) && bool_decide (r !!! j ∈ categories sel)
            && bool_decide (r !!! k ∈ subcategories sel) = true →
            bool_decide (r !!! i ∈ regions sel') && bool_decide (r !!! j ∈ categories sel')
            && bool_decide (r !!! k ∈ subcategories sel') = true) as Himp.
  { intros r. rewrite !andb_true_iff. intros [[H1 H2] H3].
    split; [split|]; (eapply Hsub; [|eassumption]); assumption. }
  split; [by apply List_filter_sublist|]. split.
  - unfold filter_frame, getitem. simpl. rewrite Hi, Hj, Hk. simpl.
    unfold getitem_mask. simpl. f_equal. f_equal.
    rewrite !isin_fmap, !zip_with_andb_fmap, select_fmap.
    by apply List_filter_filter.
  - intros Hr' Hc' Hs'. f_equal.
    rewrite <-(List_filter_filter _ _ (rows df) Himp) at 1.
    apply List_filter_all. intros r [_ Hr0]%elem_of_List_filter.
    revert Hr0. rewrite !andb_true_iff. intros [[H1 H2] H3].
    split; [split|]; (eapply Hsub; [|eassumption]); assumption.
Qed.

Lemma filter_frame_narrower_witness :
  sublist [Sample.row1; Sample.row3] (rows Sample.table)
  ∧ filter_frame Sample.table Sample.east
    = Some (mkFrame (columns Sample.table) [Sample.row1; Sample.row3]).
Proof.
  destruct (filter_frame_narrower Sample.table Sample.east
              (mkSelection [Str "East"; Str "West"] [Str "Office"; Str "Tech"]
                           [Str "Paper"; Str "Phones"])
              (mkFrame (columns Sample.table) [Sample.row1; Sample.row3])
              Sample.table) as (Hsub & Hagain & _).
  - vm_compute; reflexivity.
  - vm_compute; reflexivity.
  - simpl. set_solver.
  - simpl. set_solver.
  - simpl. set_solver.
  - split; [exact Hsub|exact Hagain].
Defined.

(** * The runs of a session *)

(** What a run shows depends on the loaded table and on the choice
    only, not on the rest of the store. *)
Lemma script_view_store frepr pd pn file df (σ1 σ2 : store) l choose v σ1' :
  load_data pd pn file = Some df → σ1 !! l = Some df → σ2 !! l = Some df →
  is_Some (get_loc "OrderID" (columns df)) → at_most_one "Month" df →
  script frepr l choose σ1 = Some (v, σ1') →
  ∃ σ2', script frepr l choose σ2 = Some (v, σ2').
Proof.
  intros Hl H1 H2 Ho Hone Hrun.
  destruct (script_runs frepr _ _ _ _ σ1 l choose Hl H1 Ho Hone)
    as (opts & sub & e & sales & profit & orders & top & seg & mon & reg & cat
        & subc & E1 & E2 & E3 & E4 & E5 & E6 & E7 & E8 & E9 & E10 & E11 & E12 & Hrun1).
  destruct (script_runs frepr _ _ _ _ σ2 l choose Hl H2 Ho Hone)
    as (opts' & sub' & e' & sales' & profit' & orders' & top' & seg' & mon' & reg'
        & cat' & subc' & F1 & F2 & F3 & F4 & F5 & F6 & F7 & F8 & F9 & F10 & F11
        & F12 & Hrun2).
  assert (opts' = opts) as -> by congruence.
  assert (sub' = sub) as -> by congruence.
  assert (e' = e) as -> by congruence.
  rewrite Hrun1 in Hrun. injection Hrun as <- <-.
  eexists. rewrite Hrun2. repeat f_equal; congruence.
Qed.

(** X17.  Every run of a session shows what a single run on the loaded table
    shows for the same choice: no run sees anything of the runs before
    it. *)
Theorem session_runs_independent frepr pd pn file df choices (σ : store) l :
  load_data pd pn file = Some df → σ !! l = Some df →
  is_Some (get_loc "OrderID" (columns df)) → at_most_one "Month" df →
  ∃ vs σ', session frepr l choices σ = Some (vs, σ')
    ∧ Forall2 (fun choose v => ∃ σ1, script frepr l choose σ = Some (v, σ1))
              choices vs.
Proof.
  intros Hl Hσ Ho Hone.
  assert (∀ σc : store, σc !! l = Some df →
            ∃ vs σ', session frepr l choices σc = Some (vs, σ')
              ∧ Forall2 (fun choose v => ∃ σ1, script frepr l choose σ = Some (v, σ1))
                        choices vs) as Hgen; [|by apply Hgen].
  induction choices as [|choose rest IH]; intros σc Hσc; simpl.
  - exists [], σc. split; [done|constructor].
  - destruct (script_keeps frepr _ _ _ _ σc l choose Hl Hσc Ho Hone)
      as (v & σ1 & Hrun & Hkeep).
    assert (Hdom : l ∈ dom σc) by (apply elem_of_dom; eauto).
    assert (Hσ1 : σ1 !! l = Some df) by (by rewrite Hkeep).
    destruct (IH σ1 Hσ1) as (vs & σ2 & Hrest & Hall).
    exists (v :: vs), σ2.
    rewrite (run_bind _ _ _ _ _ Hrun), (run_bind _ _ _ _ _ Hrest).
    split; [done|]. constructor; [|done].
    by eapply (script_view_store frepr pd pn file df σc σ).
Qed.

Lemma session_runs_independent_witness :
  ∃ vs σ',
    session Sample.float_repr 0 [id; fun _ => Sample.east] {[ 0 := Sample.table ]}
    = Some (vs, σ')
    ∧ Forall2 (fun choose v =>
                 ∃ σ1, script Sample.float_repr 0 choose {[ 0 := Sample.table ]}
                       = Some (v, σ1))
              [id; fun _ => Sample.east] vs.
Proof.
  apply (session_runs_independent Sample.float_repr Sample.parse_dates
           Sample.parse_number Sample.file Sample.table [id; fun _ => Sample.east]).
  - vm_compute; reflexivity.
  - apply lookup_singleton_eq.
  - vm_compute. by eexists.
  - unfold at_most_one. vm_compute. lia.
Defined.

(** * The defaults *)

Lemma options_filter_all pd pn file df opts :
  load_data pd pn file = Some df → options df = Some opts →
  filter_frame df opts = Some df.
Proof.
  intros Hl Hopts.
  destruct (options_column _ _ _ _ "Region" Hl) as (i & lr & Hi & Hr & Hri); [set_solver|].
  destruct (options_column _ _ _ _ "Category" Hl) as (j & lc & Hj & Hc & Hcj); [set_solver|].
  destruct (options_column _ _ _ _ "SubCategory" Hl) as (k & ls & Hk & Hs & Hsk); [set_solver|].
  unfold options in Hopts. rewrite Hr, Hc, Hs in Hopts. simpl in Hopts.
  injection Hopts as <-.
  destruct (filter_frame_total df (mkSelection lr lc ls)) as [sub Hsub]; [by eexists..|].
  rewrite Hsub. f_equal.
  apply filter_frame_Some in Hsub as (i' & j' & k' & Hi' & Hj' & Hk' & ->).
  destruct df as [cols rws]. simpl in *. f_equal. simplify_eq.
  apply List_filter_all. intros r Hin.
  rewrite !andb_true_iff, !bool_decide_eq_true. auto.
Qed.

(** X18.  With the selectors left at their defaults a run shows the whole
    table: the KPIs and the top customers are those of the loaded table,
    and the download is the loaded table with its month column. *)
Theorem default_view_whole_table frepr pd pn file df (σ : store) l :
  load_data pd pn file = Some df → σ !! l = Some df →
  is_Some (get_loc "OrderID" (columns df)) → at_most_one "Month" df →
  ∃ v σ' e,
    script frepr l id σ = Some (v, σ')
    ∧ with_month df = Some e
    ∧ download v = Py.encode_utf8 (to_csv frepr e)
    ∧ length (rows e) = length (rows df)
    ∧ getitem df "Sales" ≫= sum_series = Some (total_sales v)
    ∧ getitem df "Profit" ≫= sum_series = Some (total_profit v)
    ∧ nunique <$> getitem df "OrderID" = Some (total_orders v)
    ∧ top_customers df = Some (v_top_customers v)
    ∧ segment_sales df = Some (v_segment_sales v).
Proof.
  intros Hl Hσ Ho Hone.
  destruct (script_runs frepr _ _ _ _ σ l id Hl Hσ Ho Hone)
    as (opts & sub & e & sales & profit & orders & top & seg & mon & reg & cat
        & subc & E1 & E2 & E3 & E4 & E5 & E6 & E7 & E8 & E9 & E10 & E11 & E12 & Hrun).
  simpl in E2, E3.
  rewrite (options_filter_all _ _ _ _ _ Hl E1) in E2. injection E2 as <-.
  eexists _, _, e. split; [exact Hrun|]. simpl.
  assert (with_month df = Some e) as Hw.
  { unfold exported in E3. rewrite (options_filter_all _ _ _ _ _ Hl E1) in E3. done. }
  split; [done|]. split; [done|]. split; [|done].
  destruct (export_frame_rows pd pn file df opts df e Hl
              (options_filter_all _ _ _ _ _ Hl E1) Hone E3) as [Hlen _]. done.
Qed.

Lemma default_view_whole_table_witness :
  ∃ v σ' e,
    script Sample.float_repr 0 id {[ 0 := Sample.table ]} = Some (v, σ')
    ∧ with_month Sample.table = Some e
    ∧ download v = Py.encode_utf8 (to_csv Sample.float_repr e)
    ∧ length (rows e) = length (rows Sample.table)
    ∧ getitem Sample.table "Sales" ≫= sum_series = Some (total_sales v)
    ∧ getitem Sample.table "Profit" ≫= sum_series = Some (total_profit v)
    ∧ nunique <$> getitem Sample.table "OrderID" = Some (total_orders v)
    ∧ top_customers Sample.table = Some (v_top_customers v)
    ∧ segment_sales Sample.table = Some (v_segment_sales v).
Proof.
  apply (default_view_whole_table Sample.float_repr Sample.parse_dates
           Sample.parse_number Sample.file Sample.table).
  - vm_compute; reflexivity.
  - apply lookup_singleton_eq.
  - vm_compute. by eexists.
  - unfold at_most_one. vm_compute. lia.
Defined.

(** * The KPI texts *)

(** Rounding moves a number by a half at most, and keeps it from
    becoming negative. *)
Lemma round_half_even_near q :
  (inject_Z (round_half_even q) - q <= 1 # 2)%Q
  ∧ (q - inject_Z (round_half_even q) <= 1 # 2)%Q
  ∧ ((0 <= q)%Q → (0 ≤ round_half_even q)%Z).
Proof.
  destruct q as [n d]. unfold round_half_even. cbn [Qnum Qden].
  pose proof (Z.div_mod n (Zpos d) ltac:(done)) as Hdm.
  pose proof (Z.mod_pos_bound n (Zpos d) ltac:(done)) as Hr.
  set (f := (n / Zpos d)%Z) in *. set (r := (n mod Zpos d)%Z) in *.
  assert (∀ z : Z, (z = f ∨ z = f + 1)%Z →
            (z = f → 2 * r ≤ Zpos d)%Z → (z = f + 1 → Zpos d ≤ 2 * r)%Z →
            (inject_Z z - (n # d) <= 1 # 2)%Q ∧ ((n # d) - inject_Z z <= 1 # 2)%Q
            ∧ ((0 <= (n # d))%Q → (0 ≤ z)%Z)) as Hcase.
  { assert (0 ≤ n → 0 ≤ f)%Z as Hf by (intros; by apply Z.div_pos).
    clearbody f r. intros z Hz H1 H2.
    unfold Qle, Qminus, Qplus, Qopp, inject_Z. cbn [Qnum Qden].
    rewrite Pos.mul_1_l, Pos.mul_1_r.
    destruct Hz as [-> | ->]; [specialize (H1 eq_refl); clear H2
                              |specialize (H2 eq_refl); clear H1];
      (split; [|split; [|intros Hn]]); subst n; lia. }
  destruct (2 * r ?= Zpos d)%Z eqn:E.
  - apply Z.compare_eq in E. destruct (Z.even f); apply Hcase; lia.
  - rewrite Z.compare_lt_iff in E. apply Hcase; lia.
  - rewrite Z.compare_gt_iff in E. apply Hcase; lia.
Qed.

Lemma read_digit_char v : (v < 10)%N → read_digit (pretty_N_char v) = Some v.
Proof.
  intros Hv.
  assert (v = 0 ∨ v = 1 ∨ v = 2 ∨ v = 3 ∨ v = 4 ∨ v = 5 ∨ v = 6 ∨ v = 7
          ∨ v = 8 ∨ v = 9)%N as H by lia.
  repeat (destruct H as [->|H]; [reflexivity|]). by subst.
Qed.

Lemma read_digit_plain c :
  is_Some (read_digit c) → c ≠ Csv.comma ∧ c ≠ Py.chr 46 ∧ c ≠ Py.chr 45.
Proof.
  unfold read_digit. intros [v Hv].
  repeat split; intros ->; vm_compute in Hv; discriminate Hv.
Qed.

(** The digits [pretty] writes for a number read back as that number. *)
Lemma pretty_N_go_read x s :
  ∃ ds, Py.chars (pretty_N_go x s) = ds ++ Py.chars s
    ∧ Forall (fun c => is_Some (read_digit c)) ds
    ∧ ∀ acc, foldl read_step (Some acc) ds
             = Some (acc * 10 ^ N.of_nat (length ds) + x)%N.
Proof.
  revert s. induction (N.lt_wf_0 x) as [x _ IH]; intros s.
  assert (x = 0 ∨ 0 < x)%N as [->|Hx] by lia.
  - exists []. rewrite pretty_N_go_0. split; [done|]. split; [done|].
    intros acc. simpl. f_equal. lia.
  - rewrite pretty_N_go_step by done.
    destruct (IH (x `div` 10)%N) with (s := String (pretty_N_char (x `mod` 10)) s)
      as (ds & Hds & Hall & Hread); [by apply N.div_lt|].
    exists (ds ++ [pretty_N_char (x `mod` 10)]).
    pose proof (N.mod_lt x 10 ltac:(done)) as Hm.
    split; [by rewrite Hds, <-app_assoc|]. split.
    + apply Forall_app. split; [done|]. repeat constructor.
      rewrite read_digit_char by done. by eexists.
    + intros acc. rewrite foldl_app, Hread. cbn [foldl]. simpl.
      rewrite read_digit_char by done. simpl. f_equal.
      rewrite length_app. simpl. rewrite Nat2N.inj_add. simpl.
      rewrite N.pow_add_r. change (10 ^ 1)%N with 10%N.
      pose proof (N.div_mod x 10 ltac:(done)). nia.
Qed.

Lemma pretty_N_read (n : N) :
  Forall (fun c => is_Some (read_digit c)) (Py.chars (pretty n))
  ∧ foldl read_step (Some 0%N) (Py.chars (pretty n)) = Some n.
Proof.
  unfold pretty, pretty_N. case_decide as Hn.
  - subst. split; [|done]. repeat constructor. by eexists.
  - destruct (pretty_N_go_read n "") as (ds & Hds & Hall & Hread).
    simpl in Hds. rewrite app_nil_r in Hds. rewrite Hds. split; [done|].
    rewrite Hread. f_equal; lia.
Qed.

(** Grouping adds commas and nothing else. *)
Lemma filter_group3_rev (keep : ascii → bool) l :
  keep Csv.comma = false →
  List.filter keep (group3_rev l) = List.filter keep l.
Proof.
  intros Hk. remember (length l) as n eqn:Hn. revert l Hn.
  induction (lt_wf n) as [n _ IH]; intros l ->.
  destruct l as [|a [|b [|c [|d rest]]]]; try done.
  change (group3_rev (a :: b :: c :: d :: rest))
    with (a :: b :: c :: Csv.comma :: group3_rev (d :: rest)).
  cbn [List.filter]. rewrite Hk.
  rewrite (IH (length (d :: rest)) ltac:(simpl; lia) (d :: rest) eq_refl). done.
Qed.

Lemma group3_rev_chars (P : ascii → Prop) l :
  Forall P l → Forall (fun c => P c ∨ c = Csv.comma) (group3_rev l).
Proof.
  remember (length l) as n eqn:Hn. revert l Hn.
  induction (lt_wf n) as [n _ IH]; intros l -> Hl.
  assert (Forall (fun c => P c ∨ c = Csv.comma) l) as Hl'.
  { eapply Forall_impl; [exact Hl|]. auto. }
  destruct l as [|a [|b [|c [|d rest]]]]; try done.
  change (group3_rev (a :: b :: c :: d :: rest))
    with (a :: b :: c :: Csv.comma :: group3_rev (d :: rest)).
  apply Forall_cons in Hl as [Ha Hl]. apply Forall_cons in Hl as [Hb Hl].
  apply Forall_cons in Hl as [Hc Hl].
  repeat (constructor; [auto|]).
  apply (IH (length (d :: rest)) ltac:(simpl; lia) (d :: rest) eq_refl). done.
Qed.

Lemma List_filter_rev {A} (f : A → bool) l :
  List.filter f (rev l) = rev (List.filter f l).
Proof.
  induction l as [|x l IH]; [done|]. simpl. rewrite List.filter_app, IH. simpl.
  destruct (f x); simpl; [done|]. by rewrite app_nil_r.
Qed.

Lemma filter_group3 (keep : ascii → bool) ds :
  keep Csv.comma = false → (∀ c, c ∈ ds → keep c = true) →
  List.filter keep (group3 ds) = ds.
Proof.
  intros Hk Hall. unfold group3.
  rewrite List_filter_rev, filter_group3_rev, List_filter_rev by done.
  rewrite rev_involutive. by apply List_filter_all.
Qed.

Lemma group3_chars (P : ascii → Prop) ds :
  Forall P ds → Forall (fun c => P c ∨ c = Csv.comma) (group3 ds).
Proof.
  intros H. unfold group3. apply Forall_rev, group3_rev_chars, Forall_rev. done.
Qed.


(** * The kinds of the cells of the loaded table *)


